(** * yt-subtitle-webui: the browser clients, embedded and verified

    The repository ships several variants of one browser client:
    - [docs/app.js], the WebSocket client the backend serves (a second
      variant adds a prompt template and a completion dialog around the
      same socket code);
    - a reservation + event-stream client (POST /reservation,
      GET /events/<id>, GET /result/<id>);
    - a minimal WebSocket client talking to ws://localhost:8765.

    Each variant is embedded below as explicit state passing over a record
    of the DOM nodes and module-level variables the script touches; the
    listeners are functions on that record and the browser is a step
    function that feeds them events.  Browser services the scripts call
    (the URL class, encodeURIComponent, the WebSocket constructor, the
    network) are parameters of the development.  The prompt, the clipboard
    actions and the listeners that close the completion dialog are embedded
    apart, under "More of the scripts". *)

From Stdlib Require Import ZArith NArith List Bool Ascii String Lia.
From stdpp Require Import base option list gmap pretty.

Set Warnings "-register-all".
Local Open Scope list_scope.

(** ** JavaScript strings

    A JavaScript string is a sequence of UTF-16 code units; [length],
    [slice], [trim] and the regular expression class \s all work on code
    units. *)

Abbreviation jsstring := (list N).

Fixpoint lit (s : string) : jsstring :=
  match s with
  | EmptyString => []
  | String a s' => N_of_ascii a :: lit s'
  end.
Arguments lit : simpl never.

(** WhiteSpace and LineTerminator of ECMA-262: what [String.prototype.trim]
    strips and what \s matches. *)
Definition is_white_space (c : N) : bool :=
  (c =? 9)%N || (c =? 10)%N || (c =? 11)%N || (c =? 12)%N || (c =? 13)%N
  || (c =? 32)%N || (c =? 160)%N || (c =? 5760)%N
  || ((8192 <=? c)%N && (c <=? 8202)%N)
  || (c =? 8232)%N || (c =? 8233)%N || (c =? 8239)%N || (c =? 8287)%N
  || (c =? 12288)%N || (c =? 65279)%N.
Arguments is_white_space : simpl never.

Definition SPACE : N := 32%N.

Fixpoint trimStart (s : jsstring) : jsstring :=
  match s with
  | [] => []
  | c :: s' => if is_white_space c then trimStart s' else s
  end.

Fixpoint trimEnd (s : jsstring) : jsstring :=
  match s with
  | [] => []
  | c :: s' =>
      match trimEnd s' with
      | [] => if is_white_space c then [] else [c]
      | t => c :: t
      end
  end.

(** [s.trim()] *)
Definition trim (s : jsstring) : jsstring := trimEnd (trimStart s).

(** [s.replace(/\s+/g, " ")]: every maximal run of white space becomes one
    space. [in_run] tells that the previous code unit was white space. *)
Fixpoint replace_ws_runs (in_run : bool) (s : jsstring) : jsstring :=
  match s with
  | [] => []
  | c :: s' =>
      if is_white_space c
      then (if in_run then replace_ws_runs true s'
            else SPACE :: replace_ws_runs true s')
      else c :: replace_ws_runs false s'
  end.

(** A string is falsy exactly when it is empty. *)
Definition str_truthy (s : jsstring) : bool :=
  match s with [] => false | _ => true end.

(** [a || b] on strings. *)
Definition str_or (a b : jsstring) : jsstring :=
  if str_truthy a then a else b.

(** [s.slice(a)] and [s.slice(0, b)] for non-negative indices. *)
Definition slice_from (a : nat) (s : jsstring) : jsstring := drop a s.
Definition slice_to (b : nat) (s : jsstring) : jsstring := take b s.

(** [s.startsWith(p)] and [s.endsWith(p)]. *)
Fixpoint startsWith (p s : jsstring) : bool :=
  match p, s with
  | [], _ => true
  | a :: p', b :: s' => (a =? b)%N && startsWith p' s'
  | _ :: _, [] => false
  end.

Definition endsWith (p s : jsstring) : bool := startsWith (rev p) (rev s).

(** ASCII case folding, as the [i] flag of a regular expression without the
    [u] flag applies it to the ASCII letters of a pattern. *)
Definition ascii_lower (c : N) : N :=
  if ((65 <=? c)%N && (c <=? 90)%N) then (c + 32)%N else c.

(** [/^p/i.test(s)] for a pattern [p] of lower-case ASCII letters and
    punctuation. *)
Fixpoint startsWith_ci (p s : jsstring) : bool :=
  match p, s with
  | [], _ => true
  | a :: p', b :: s' => (a =? ascii_lower b)%N && startsWith_ci p' s'
  | _ :: _, [] => false
  end.

(** [s.replace(/^\/+/, "")] and [s.replace(/\/+$/, "")]. *)
Definition SLASH : N := 47%N.

Fixpoint strip_leading_slashes (s : jsstring) : jsstring :=
  match s with
  | [] => []
  | c :: s' => if (c =? SLASH)%N then strip_leading_slashes s' else s
  end.

Definition strip_trailing_slashes (s : jsstring) : jsstring :=
  rev (strip_leading_slashes (rev s)).

(** ** JSON values and JavaScript values

    What [JSON.parse] returns.  Numbers are kept as integers: the scripts
    only test them for truthiness and print them. *)
Inductive json : Type :=
  | JNull
  | JBool (b : bool)
  | JNum (z : Z)
  | JStr (s : jsstring)
  | JArr (l : list json)
  | JObj (fields : list (jsstring * json)).

(** A property read gives [undefined] or a value. *)
Inductive jsval : Type :=
  | Undefined
  | J (j : json).

(** [JSON.parse] keeps the last of duplicate keys. *)
Fixpoint lookup_field (k : jsstring) (fields : list (jsstring * json)) : option json :=
  match fields with
  | [] => None
  | (k', v) :: rest =>
      match lookup_field k rest with
      | Some v' => Some v'
      | None => if decide (k' = k) then Some v else None
      end
  end.

(** [v.k] for one of the property names the scripts read (type, message,
    text, language, summary, beginning, ending, reservation_id): [None] is
    the TypeError of reading a property of [null]; primitives and arrays
    have no such property. *)
Definition get_prop (v : json) (k : jsstring) : option jsval :=
  match v with
  | JNull => None
  | JObj fields =>
      Some (match lookup_field k fields with Some x => J x | None => Undefined end)
  | _ => Some Undefined
  end.

(** ToBoolean *)
Definition truthy (v : jsval) : bool :=
  match v with
  | Undefined => false
  | J JNull => false
  | J (JBool b) => b
  | J (JNum z) => negb (z =? 0)%Z
  | J (JStr s) => str_truthy s
  | J (JArr _) => true
  | J (JObj _) => true
  end.

(** ToString, as template literals and [textContent] apply it, for the
    values a backend sends: numbers are integers, printed in decimal (the
    engine prints them so below 10^21), and an object prints as
    "[object Object]" (an object with a [toString] member of its own makes
    the engine throw instead). *)
Fixpoint json_to_string (j : json) : jsstring :=
  match j with
  | JNull => lit "null"
  | JBool true => lit "true"
  | JBool false => lit "false"
  | JNum z => lit (pretty z)
  | JStr s => s
  | JArr l =>
      (fix join (l : list json) : jsstring :=
         match l with
         | [] => []
         | x :: l' =>
             let sx := match x with JNull => [] | _ => json_to_string x end in
             match l' with
             | [] => sx
             | _ => sx ++ lit "," ++ join l'
             end
         end) l
  | JObj _ => lit "[object Object]"
  end.

Definition to_string (v : jsval) : jsstring :=
  match v with
  | Undefined => lit "undefined"
  | J j => json_to_string j
  end.

(** [a || b] on values. *)
Definition val_or (a b : jsval) : jsval := if truthy a then a else b.

(** [x === "s"] *)
Definition is_str (s : jsstring) (v : jsval) : bool :=
  match v with
  | J (JStr s') => bool_decide (s' = s)
  | _ => false
  end.

(** ** Browser services

    [window.location], the WHATWG [URL] class and [encodeURIComponent] are
    supplied by the browser; the scripts are parametric in them.  A
    constructor or function that throws returns [None]. *)
Record Location : Type := {
  loc_protocol : jsstring;
  loc_hostname : jsstring;
  loc_port : jsstring;
  loc_origin : jsstring
}.

Class Platform : Type := {
  URL : Type;
  new_URL : jsstring -> option URL;
  url_protocol : URL -> jsstring;
  url_hostname : URL -> jsstring;
  url_port : URL -> jsstring;
  url_pathname : URL -> jsstring;
  set_protocol : URL -> jsstring -> URL;
  set_pathname : URL -> jsstring -> URL;
  url_toString : URL -> jsstring;
  encodeURIComponent : jsstring -> option jsstring;
  (** [new WebSocket(url)] throws a SyntaxError on a URL it rejects. *)
  websocket_accepts : jsstring -> bool;
  (** the [message] of the engine's own TypeError and URIError *)
  typeError_message : jsstring;
  uriError_message : jsstring;
  location : Location
}.

(** ** WebSocket objects

    The page keeps every socket it ever created in a table; a socket is
    named by its index.  [ws_sent] lists the frames handed to [send] while
    the socket was open, oldest first; [ws_once_open] lists the identifiers
    captured by the [{ once: true }] open listeners still registered. *)
Inductive ReadyState : Type := CONNECTING | OPEN | CLOSING | CLOSED.

Global Instance ReadyState_eq_dec : EqDecision ReadyState.
Proof. solve_decision. Defined.

Record WebSocket : Type := {
  ws_url : jsstring;
  readyState : ReadyState;
  ws_sent : list json;
  ws_once_open : list jsstring
}.

Definition new_WebSocket (url : jsstring) : WebSocket :=
  {| ws_url := url; readyState := CONNECTING; ws_sent := []; ws_once_open := [] |}.

Definition set_readyState (r : ReadyState) (s : WebSocket) : WebSocket :=
  {| ws_url := ws_url s; readyState := r; ws_sent := ws_sent s;
     ws_once_open := ws_once_open s |}.

Definition push_sent (frame : json) (s : WebSocket) : WebSocket :=
  {| ws_url := ws_url s; readyState := readyState s;
     ws_sent := ws_sent s ++ [frame]; ws_once_open := ws_once_open s |}.

Definition push_once_open (id : jsstring) (s : WebSocket) : WebSocket :=
  {| ws_url := ws_url s; readyState := readyState s; ws_sent := ws_sent s;
     ws_once_open := ws_once_open s ++ [id] |}.

Definition clear_once_open (s : WebSocket) : WebSocket :=
  {| ws_url := ws_url s; readyState := readyState s; ws_sent := ws_sent s;
     ws_once_open := [] |}.

(** [socket && socket.readyState === WebSocket.OPEN] *)
Definition is_open (sockets : list WebSocket) (h : option nat) : bool :=
  match h with
  | Some i =>
      match sockets !! i with
      | Some s => bool_decide (readyState s = OPEN)
      | None => false
      end
  | None => false
  end.

(** [ws.send(frame)]: throws InvalidStateError ([None]) while connecting,
    transmits when open, and silently discards the frame once the socket
    is closing or closed. *)
Definition ws_send (i : nat) (frame : json) (sockets : list WebSocket)
  : option (list WebSocket) :=
  match sockets !! i with
  | Some s =>
      match readyState s with
      | CONNECTING => None
      | OPEN => Some (<[i := push_sent frame s]> sockets)
      | CLOSING | CLOSED => Some sockets
      end
  | None => None
  end.

(** Every frame any socket of the page has transmitted. *)
Definition all_sent (sockets : list WebSocket) : list json :=
  concat (map ws_sent sockets).

(** ** The minimal WebSocket client (ws://localhost:8765)

    Module-level variables [socket] and [fullSubtitle], and the DOM nodes
    the script reads and writes. *)
Module SimpleSocket.

Record World : Type := {
  statusEl : jsstring;
  logArea : jsstring;
  downloadBtn_disabled : bool;
  copyBtn_disabled : bool;
  videoIdInput : jsstring;
  languageEl : jsstring;
  subtitleStart : jsstring;
  subtitleEnd : jsstring;
  socket : option nat;
  fullSubtitle : jsval;
  sockets : list WebSocket
}.

Definition set_statusEl (v : jsstring) (w : World) : World :=
  {| statusEl := v; logArea := logArea w;
     downloadBtn_disabled := downloadBtn_disabled w;
     copyBtn_disabled := copyBtn_disabled w; videoIdInput := videoIdInput w;
     languageEl := languageEl w; subtitleStart := subtitleStart w;
     subtitleEnd := subtitleEnd w; socket := socket w; fullSubtitle := fullSubtitle w;
     sockets := sockets w |}.
Definition set_logArea (v : jsstring) (w : World) : World :=
  {| statusEl := statusEl w; logArea := v;
     downloadBtn_disabled := downloadBtn_disabled w;
     copyBtn_disabled := copyBtn_disabled w; videoIdInput := videoIdInput w;
     languageEl := languageEl w; subtitleStart := subtitleStart w;
     subtitleEnd := subtitleEnd w; socket := socket w; fullSubtitle := fullSubtitle w;
     sockets := sockets w |}.
Definition set_downloadBtn_disabled (v : bool) (w : World) : World :=
  {| statusEl := statusEl w; logArea := logArea w; downloadBtn_disabled := v;
     copyBtn_disabled := copyBtn_disabled w; videoIdInput := videoIdInput w;
     languageEl := languageEl w; subtitleStart := subtitleStart w;
     subtitleEnd := subtitleEnd w; socket := socket w; fullSubtitle := fullSubtitle w;
     sockets := sockets w |}.
Definition set_copyBtn_disabled (v : bool) (w : World) : World :=
  {| statusEl := statusEl w; logArea := logArea w;
     downloadBtn_disabled := downloadBtn_disabled w; copyBtn_disabled := v;
     videoIdInput := videoIdInput w; languageEl := languageEl w;
     subtitleStart := subtitleStart w; subtitleEnd := subtitleEnd w;
     socket := socket w; fullSubtitle := fullSubtitle w; sockets := sockets w |}.
Definition set_videoIdInput (v : jsstring) (w : World) : World :=
  {| statusEl := statusEl w; logArea := logArea w;
     downloadBtn_disabled := downloadBtn_disabled w;
     copyBtn_disabled := copyBtn_disabled w; videoIdInput := v;
     languageEl := languageEl w; subtitleStart := subtitleStart w;
     subtitleEnd := subtitleEnd w; socket := socket w; fullSubtitle := fullSubtitle w;
     sockets := sockets w |}.
Definition set_languageEl (v : jsstring) (w : World) : World :=
  {| statusEl := statusEl w; logArea := logArea w;
     downloadBtn_disabled := downloadBtn_disabled w;
     copyBtn_disabled := copyBtn_disabled w; videoIdInput := videoIdInput w;
     languageEl := v; subtitleStart := subtitleStart w; subtitleEnd := subtitleEnd w;
     socket := socket w; fullSubtitle := fullSubtitle w; sockets := sockets w |}.
Definition set_subtitleStart (v : jsstring) (w : World) : World :=
  {| statusEl := statusEl w; logArea := logArea w;
     downloadBtn_disabled := downloadBtn_disabled w;
     copyBtn_disabled := copyBtn_disabled w; videoIdInput := videoIdInput w;
     languageEl := languageEl w; subtitleStart := v; subtitleEnd := subtitleEnd w;
     socket := socket w; fullSubtitle := fullSubtitle w; sockets := sockets w |}.
Definition set_subtitleEnd (v : jsstring) (w : World) : World :=
  {| statusEl := statusEl w; logArea := logArea w;
     downloadBtn_disabled := downloadBtn_disabled w;
     copyBtn_disabled := copyBtn_disabled w; videoIdInput := videoIdInput w;
     languageEl := languageEl w; subtitleStart := subtitleStart w; subtitleEnd := v;
     socket := socket w; fullSubtitle := fullSubtitle w; sockets := sockets w |}.
Definition set_socket (v : option nat) (w : World) : World :=
  {| statusEl := statusEl w; logArea := logArea w;
     downloadBtn_disabled := downloadBtn_disabled w;
     copyBtn_disabled := copyBtn_disabled w; videoIdInput := videoIdInput w;
     languageEl := languageEl w; subtitleStart := subtitleStart w;
     subtitleEnd := subtitleEnd w; socket := v; fullSubtitle := fullSubtitle w;
     sockets := sockets w |}.
Definition set_fullSubtitle (v : jsval) (w : World) : World :=
  {| statusEl := statusEl w; logArea := logArea w;
     downloadBtn_disabled := downloadBtn_disabled w;
     copyBtn_disabled := copyBtn_disabled w; videoIdInput := videoIdInput w;
     languageEl := languageEl w; subtitleStart := subtitleStart w;
     subtitleEnd := subtitleEnd w; socket := socket w; fullSubtitle := v;
     sockets := sockets w |}.
Definition set_sockets (v : list WebSocket) (w : World) : World :=
  {| statusEl := statusEl w; logArea := logArea w;
     downloadBtn_disabled := downloadBtn_disabled w;
     copyBtn_disabled := copyBtn_disabled w; videoIdInput := videoIdInput w;
     languageEl := languageEl w; subtitleStart := subtitleStart w;
     subtitleEnd := subtitleEnd w; socket := socket w; fullSubtitle := fullSubtitle w;
     sockets := v |}.

Definition appendLog (line : jsstring) (w : World) : World :=
  set_logArea (logArea w ++ line ++ [10%N]) w.

Definition setStatus (message : jsstring) (w : World) : World :=
  set_statusEl (lit "Status: " ++ message) w.

Definition previewSize : nat := 400.

(** [text.replace(/\s+/g, " ").trim()] *)
Definition normalized (text : jsstring) : jsstring :=
  trim (replace_ws_runs false text).

Definition preview_start (text : jsstring) : jsstring :=
  str_or (slice_to previewSize (normalized text)) (lit "-").

Definition preview_end (text : jsstring) : jsstring :=
  let n := normalized text in
  if previewSize <? length n
  then slice_from (Nat.max 0 (length n - previewSize)) n
  else str_or n (lit "-").

(** [setPreview(text)]; a [text] that is not a string has no [replace]
    method and the call throws a TypeError ([None]). *)
Definition setPreview (text : jsval) (w : World) : option World :=
  match text with
  | J (JStr t) =>
      Some (set_subtitleEnd (preview_end t) (set_subtitleStart (preview_start t) w))
  | _ => None
  end.

Definition socket_url : jsstring := lit "ws://localhost:8765".

(** [connectSocket()] *)
Definition connectSocket (w : World) : World :=
  if is_open (sockets w) (socket w) then w
  else
    set_sockets (sockets w ++ [new_WebSocket socket_url])
      (set_socket (Some (length (sockets w))) w).

(** The frame [JSON.stringify({ type: "download", id: videoId })] encodes. *)
Definition download_frame (videoId : jsstring) : json :=
  JObj [(lit "type", JStr (lit "download")); (lit "id", JStr videoId)].

(** The property [k] of a value known not to be [null]. *)
Definition prop (v : json) (k : jsstring) : jsval :=
  match get_prop v k with Some x => x | None => Undefined end.

(** The [message] listener. [data] is what [JSON.parse(event.data)] gives,
    [None] when it throws; an exception leaves the listener at once and
    keeps the writes made before it. *)
Definition on_message (data : option json) (w : World) : World :=
  match data with
  | None => w
  | Some payload =>
      match get_prop payload (lit "type") with
      | None => w
      | Some ty =>
          let w1 :=
            if is_str (lit "log") ty
            then appendLog (to_string (prop payload (lit "message"))) w
            else w in
          let w2 :=
            if is_str (lit "error") ty
            then
              set_downloadBtn_disabled false
                (setStatus (lit "Error")
                   (appendLog (lit "Error: " ++ to_string (prop payload (lit "message"))) w1))
            else w1 in
          if is_str (lit "result") ty
          then
            let w3 := set_fullSubtitle (prop payload (lit "text")) w2 in
            let w4 :=
              set_languageEl
                (to_string (val_or (prop payload (lit "language")) (J (JStr (lit "unknown")))))
                w3 in
            match setPreview (fullSubtitle w4) w4 with
            | None => w4
            | Some w5 =>
                appendLog (lit "Subtitle ready.")
                  (set_downloadBtn_disabled false
                     (setStatus (lit "Complete") (set_copyBtn_disabled false w5)))
            end
          else w2
      end
  end.

(** [socket.send(...)] on the socket the variable [socket] holds; a throw
    leaves the state as it is. *)
Definition send_on_current (frame : json) (w : World) : option World :=
  match socket w with
  | Some i =>
      match ws_send i frame (sockets w) with
      | Some l => Some (set_sockets l w)
      | None => None
      end
  | None => None
  end.

(** The click listener of the download button. *)
Definition downloadBtn_click (w : World) : World :=
  let videoId := trim (videoIdInput w) in
  if negb (str_truthy videoId) then setStatus (lit "Video ID required") w
  else
    let w1 :=
      set_copyBtn_disabled true
        (set_fullSubtitle (J (JStr []))
           (set_languageEl (lit "-")
              (set_subtitleEnd (lit "-")
                 (set_subtitleStart (lit "-") (set_logArea [] w))))) in
    let w2 := connectSocket w1 in
    let sent :=
      if negb (is_open (sockets w2) (socket w2))
      then
        match socket w2 with
        | Some i => Some (set_sockets (alter (push_once_open videoId) i (sockets w2)) w2)
        | None => None
        end
      else send_on_current (download_frame videoId) w2 in
    match sent with
    | None => w2
    | Some w3 => setStatus (lit "Downloading...") (set_downloadBtn_disabled true w3)
    end.

(** What the browser delivers to the page. A disabled button receives no
    click; [open] is fired once, on a connecting socket; frames arrive on
    open sockets only; [close] is fired once. *)
Inductive Event : Type :=
  | UserTypesVideoId (v : jsstring)
  | Click
  | SockOpen (i : nat)
  | SockMessage (i : nat) (data : option json)
  | SockClose (i : nat).

(** The open listeners of socket [i]: the one [connectSocket] registered,
    then the once-listeners of the clicks, each sending on the socket the
    variable [socket] holds at that moment. *)
Definition fire_once_open (w : World) (videoId : jsstring) : World :=
  match send_on_current (download_frame videoId) w with
  | Some w' => w'
  | None => w
  end.

Definition on_open (i : nat) (w : World) : World :=
  match sockets w !! i with
  | Some s =>
      let w1 :=
        set_sockets (<[i := clear_once_open (set_readyState OPEN s)]> (sockets w)) w in
      foldl fire_once_open (appendLog (lit "WebSocket connected.") w1) (ws_once_open s)
  | None => w
  end.

Definition on_close (i : nat) (w : World) : World :=
  appendLog (lit "WebSocket disconnected.")
    (set_sockets (alter (set_readyState CLOSED) i (sockets w)) w).

Definition socket_state (w : World) (i : nat) : option ReadyState :=
  readyState <$> (sockets w !! i).

Definition step (w : World) (e : Event) : World :=
  match e with
  | UserTypesVideoId v => set_videoIdInput v w
  | Click => if downloadBtn_disabled w then w else downloadBtn_click w
  | SockOpen i =>
      if decide (socket_state w i = Some CONNECTING) then on_open i w else w
  | SockMessage i data =>
      if decide (socket_state w i = Some OPEN) then on_message data w else w
  | SockClose i =>
      match socket_state w i with
      | Some CLOSED | None => w
      | Some _ => on_close i w
      end
  end.

Definition run (w : World) (es : list Event) : World := foldl step w es.

(** The page as the HTML delivers it. *)
Definition initial : World :=
  {| statusEl := []; logArea := []; downloadBtn_disabled := false;
     copyBtn_disabled := true; videoIdInput := []; languageEl := lit "-";
     subtitleStart := lit "-"; subtitleEnd := lit "-"; socket := None;
     fullSubtitle := J (JStr []); sockets := [] |}.

End SimpleSocket.

(** ** Log lines of the two larger clients

    [appendLog] adds a [div] whose class carries the level and whose text is
    the wall-clock time followed by the message; the time is left out. *)
Inductive Level : Type := info | warn | error.

Abbreviation LogEntry := (Level * jsstring)%type.

(** [sanitizeWatchId(value)] *)
Definition sanitizeWatchId (value : jsstring) : jsstring :=
  let trimmed := trim value in
  if negb (str_truthy trimmed) then [] else trimmed.

(** ** docs/app.js: the WebSocket client *)
Module DocsApp.

Record World : Type := {
  statusEl : jsstring;
  logEl : list LogEntry;
  backendAddressInput : option jsstring;
  watchIdInput : jsstring;
  downloadButton_disabled : bool;
  copyButton_disabled : bool;
  summaryBeginning : jsstring;
  summaryEnding : jsstring;
  fullText : jsstring;
  socket : option nat;
  latestText : jsval;
  sockets : list WebSocket;
  localStorage : gmap jsstring jsstring
}.

Definition set_statusEl (v : jsstring) (w : World) : World :=
  {| statusEl := v; logEl := logEl w; backendAddressInput := backendAddressInput w;
     watchIdInput := watchIdInput w;
     downloadButton_disabled := downloadButton_disabled w;
     copyButton_disabled := copyButton_disabled w;
     summaryBeginning := summaryBeginning w; summaryEnding := summaryEnding w;
     fullText := fullText w; socket := socket w; latestText := latestText w;
     sockets := sockets w; localStorage := localStorage w |}.
Definition set_logEl (v : list LogEntry) (w : World) : World :=
  {| statusEl := statusEl w; logEl := v; backendAddressInput := backendAddressInput w;
     watchIdInput := watchIdInput w;
     downloadButton_disabled := downloadButton_disabled w;
     copyButton_disabled := copyButton_disabled w;
     summaryBeginning := summaryBeginning w; summaryEnding := summaryEnding w;
     fullText := fullText w; socket := socket w; latestText := latestText w;
     sockets := sockets w; localStorage := localStorage w |}.
Definition set_backendAddressInput (v : option jsstring) (w : World) : World :=
  {| statusEl := statusEl w; logEl := logEl w; backendAddressInput := v;
     watchIdInput := watchIdInput w;
     downloadButton_disabled := downloadButton_disabled w;
     copyButton_disabled := copyButton_disabled w;
     summaryBeginning := summaryBeginning w; summaryEnding := summaryEnding w;
     fullText := fullText w; socket := socket w; latestText := latestText w;
     sockets := sockets w; localStorage := localStorage w |}.
Definition set_watchIdInput (v : jsstring) (w : World) : World :=
  {| statusEl := statusEl w; logEl := logEl w;
     backendAddressInput := backendAddressInput w; watchIdInput := v;
     downloadButton_disabled := downloadButton_disabled w;
     copyButton_disabled := copyButton_disabled w;
     summaryBeginning := summaryBeginning w; summaryEnding := summaryEnding w;
     fullText := fullText w; socket := socket w; latestText := latestText w;
     sockets := sockets w; localStorage := localStorage w |}.
Definition set_downloadButton_disabled (v : bool) (w : World) : World :=
  {| statusEl := statusEl w; logEl := logEl w;
     backendAddressInput := backendAddressInput w; watchIdInput := watchIdInput w;
     downloadButton_disabled := v; copyButton_disabled := copyButton_disabled w;
     summaryBeginning := summaryBeginning w; summaryEnding := summaryEnding w;
     fullText := fullText w; socket := socket w; latestText := latestText w;
     sockets := sockets w; localStorage := localStorage w |}.
Definition set_copyButton_disabled (v : bool) (w : World) : World :=
  {| statusEl := statusEl w; logEl := logEl w;
     backendAddressInput := backendAddressInput w; watchIdInput := watchIdInput w;
     downloadButton_disabled := downloadButton_disabled w; copyButton_disabled := v;
     summaryBeginning := summaryBeginning w; summaryEnding := summaryEnding w;
     fullText := fullText w; socket := socket w; latestText := latestText w;
     sockets := sockets w; localStorage := localStorage w |}.
Definition set_summaryBeginning (v : jsstring) (w : World) : World :=
  {| statusEl := statusEl w; logEl := logEl w;
     backendAddressInput := backendAddressInput w; watchIdInput := watchIdInput w;
     downloadButton_disabled := downloadButton_disabled w;
     copyButton_disabled := copyButton_disabled w; summaryBeginning := v;
     summaryEnding := summaryEnding w; fullText := fullText w; socket := socket w;
     latestText := latestText w; sockets := sockets w;
     localStorage := localStorage w |}.
Definition set_summaryEnding (v : jsstring) (w : World) : World :=
  {| statusEl := statusEl w; logEl := logEl w;
     backendAddressInput := backendAddressInput w; watchIdInput := watchIdInput w;
     downloadButton_disabled := downloadButton_disabled w;
     copyButton_disabled := copyButton_disabled w;
     summaryBeginning := summaryBeginning w; summaryEnding := v;
     fullText := fullText w; socket := socket w; latestText := latestText w;
     sockets := sockets w; localStorage := localStorage w |}.
Definition set_fullText (v : jsstring) (w : World) : World :=
  {| statusEl := statusEl w; logEl := logEl w;
     backendAddressInput := backendAddressInput w; watchIdInput := watchIdInput w;
     downloadButton_disabled := downloadButton_disabled w;
     copyButton_disabled := copyButton_disabled w;
     summaryBeginning := summaryBeginning w; summaryEnding := summaryEnding w;
     fullText := v; socket := socket w; latestText := latestText w;
     sockets := sockets w; localStorage := localStorage w |}.
Definition set_socket (v : option nat) (w : World) : World :=
  {| statusEl := statusEl w; logEl := logEl w;
     backendAddressInput := backendAddressInput w; watchIdInput := watchIdInput w;
     downloadButton_disabled := downloadButton_disabled w;
     copyButton_disabled := copyButton_disabled w;
     summaryBeginning := summaryBeginning w; summaryEnding := summaryEnding w;
     fullText := fullText w; socket := v; latestText := latestText w;
     sockets := sockets w; localStorage := localStorage w |}.
Definition set_latestText (v : jsval) (w : World) : World :=
  {| statusEl := statusEl w; logEl := logEl w;
     backendAddressInput := backendAddressInput w; watchIdInput := watchIdInput w;
     downloadButton_disabled := downloadButton_disabled w;
     copyButton_disabled := copyButton_disabled w;
     summaryBeginning := summaryBeginning w; summaryEnding := summaryEnding w;
     fullText := fullText w; socket := socket w; latestText := v; sockets := sockets w;
     localStorage := localStorage w |}.
Definition set_sockets (v : list WebSocket) (w : World) : World :=
  {| statusEl := statusEl w; logEl := logEl w;
     backendAddressInput := backendAddressInput w; watchIdInput := watchIdInput w;
     downloadButton_disabled := downloadButton_disabled w;
     copyButton_disabled := copyButton_disabled w;
     summaryBeginning := summaryBeginning w; summaryEnding := summaryEnding w;
     fullText := fullText w; socket := socket w; latestText := latestText w;
     sockets := v; localStorage := localStorage w |}.
Definition set_localStorage (v : gmap jsstring jsstring) (w : World) : World :=
  {| statusEl := statusEl w; logEl := logEl w;
     backendAddressInput := backendAddressInput w; watchIdInput := watchIdInput w;
     downloadButton_disabled := downloadButton_disabled w;
     copyButton_disabled := copyButton_disabled w;
     summaryBeginning := summaryBeginning w; summaryEnding := summaryEnding w;
     fullText := fullText w; socket := socket w; latestText := latestText w;
     sockets := sockets w; localStorage := v |}.

Definition appendLog (message : jsstring) (level : Level) (w : World) : World :=
  set_logEl (logEl w ++ [(level, message)]) w.

Definition setStatus (message : jsstring) (w : World) : World :=
  appendLog (lit "Frontend: " ++ message) info
    (set_statusEl (lit "Status: " ++ message) w).

(** The frame [JSON.stringify({ action: "download", watch_id: watchId })]
    encodes. *)
Definition download_frame (watchId : jsstring) : json :=
  JObj [(lit "action", JStr (lit "download")); (lit "watch_id", JStr watchId)].

Definition prop (v : json) (k : jsstring) : jsval :=
  match get_prop v k with Some x => x | None => Undefined end.

(** [v?.k] *)
Definition opt_prop (v : jsval) (k : jsstring) : jsval :=
  match v with
  | Undefined | J JNull => Undefined
  | J j => prop j k
  end.

Section WithPlatform.
Context `{Platform}.

Definition defaultSocketUrl : jsstring :=
  let protocol :=
    if bool_decide (loc_protocol location = lit "https:") then lit "wss" else lit "ws" in
  protocol ++ lit "://" ++ loc_hostname location ++ lit ":"
    ++ str_or (loc_port location) (lit "8080") ++ lit "/ws".

(** The body of the [try] block of [normalizeSocketUrl]: [None] when
    [new URL] throws. *)
Definition parse_socket_url (trimmed : jsstring) : option URL :=
  if startsWith_ci (lit "ws://") trimmed || startsWith_ci (lit "wss://") trimmed
  then new_URL trimmed
  else if startsWith_ci (lit "http://") trimmed || startsWith_ci (lit "https://") trimmed
  then
    match new_URL trimmed with
    | Some url =>
        Some (set_protocol url
                (if bool_decide (url_protocol url = lit "https:")
                 then lit "wss:" else lit "ws:"))
    | None => None
    end
  else
    let protocol :=
      if bool_decide (loc_protocol location = lit "https:")
      then lit "wss:" else lit "ws:" in
    new_URL (protocol ++ lit "//" ++ trimmed).

Definition with_ws_path (url : URL) : URL :=
  if negb (str_truthy (url_pathname url)) || bool_decide (url_pathname url = lit "/")
  then set_pathname url (lit "/ws")
  else if negb (endsWith (lit "/ws") (url_pathname url))
  then set_pathname url (strip_trailing_slashes (url_pathname url) ++ lit "/ws")
  else url.

(** [normalizeSocketUrl(value)] *)
Definition normalizeSocketUrl (value : jsstring) (w : World) : jsstring * World :=
  let trimmed := trim value in
  if negb (str_truthy trimmed) then (defaultSocketUrl, w)
  else
    match parse_socket_url trimmed with
    | Some url => (url_toString (with_ws_path url), w)
    | None =>
        (defaultSocketUrl,
         appendLog (lit "Frontend: Invalid backend address provided, using default.")
           warn w)
    end.

(** [connectSocket()]: the socket it returns, or [None] when the
    [WebSocket] constructor throws. *)
Definition connectSocket (w : World) : option nat * World :=
  if is_open (sockets w) (socket w) then (socket w, w)
  else
    let value :=
      match backendAddressInput w with
      | Some v => str_or v []
      | None => []
      end in
    let '(socketUrl, w1) := normalizeSocketUrl value w in
    if websocket_accepts socketUrl
    then
      let i := length (sockets w1) in
      (Some i, set_sockets (sockets w1 ++ [new_WebSocket socketUrl]) (set_socket (Some i) w1))
    else (None, w1).

(** The [message] listener [connectSocket] registers. *)
Definition on_message (data : option json) (w : World) : World :=
  match data with
  | None => appendLog (lit "Frontend: Received non-JSON message.") error w
  | Some d =>
      match get_prop d (lit "type") with
      | None => w
      | Some ty =>
          if is_str (lit "log") ty
          then appendLog (lit "Backend: " ++ to_string (prop d (lit "message"))) info w
          else if is_str (lit "error") ty
          then
            set_downloadButton_disabled false
              (setStatus (lit "Error")
                 (appendLog (lit "Backend error: " ++ to_string (prop d (lit "message")))
                    error w))
          else if is_str (lit "result") ty
          then
            let text := val_or (prop d (lit "text")) (J (JStr [])) in
            let summary := prop d (lit "summary") in
            let w1 := set_latestText text w in
            let w2 :=
              set_summaryBeginning
                (to_string (val_or (opt_prop summary (lit "beginning")) (J (JStr [])))) w1 in
            let w3 :=
              set_summaryEnding
                (to_string (val_or (opt_prop summary (lit "ending")) (J (JStr [])))) w2 in
            let w4 := set_fullText (to_string (latestText w3)) w3 in
            let w5 := set_copyButton_disabled (negb (truthy (latestText w4))) w4 in
            let w6 :=
              setStatus
                (lit "Completed (language: "
                   ++ to_string (val_or (prop d (lit "language")) (J (JStr (lit "unknown"))))
                   ++ lit ")") w5 in
            appendLog (lit "Frontend: Results loaded into the UI.") info
              (set_downloadButton_disabled false w6)
          else w
      end
  end.

(** [ws.send(JSON.stringify(...)); appendLog(...)] on socket [i]. *)
Definition send_request (i : nat) (watchId : jsstring) (w : World) : World :=
  match ws_send i (download_frame watchId) (sockets w) with
  | Some l =>
      appendLog (lit "Frontend: Sent download request for " ++ watchId ++ lit ".") info
        (set_sockets l w)
  | None => w
  end.

(** The click listener of the download button. *)
Definition downloadButton_click (w : World) : World :=
  let watchId := sanitizeWatchId (watchIdInput w) in
  if negb (str_truthy watchId)
  then setStatus (lit "Please enter a watch ID or URL") w
  else
    let w1 :=
      set_downloadButton_disabled true
        (set_copyButton_disabled true
           (set_latestText (J (JStr []))
              (set_fullText []
                 (set_summaryEnding (lit "Downloading...")
                    (set_summaryBeginning (lit "Downloading...") w))))) in
    let w2 := setStatus (lit "Requesting subtitles...") w1 in
    match connectSocket w2 with
    | (None, w3) => w3
    | (Some ws, w3) =>
        let w4 := set_sockets (alter (push_once_open watchId) ws (sockets w3)) w3 in
        if is_open (sockets w4) (Some ws) then send_request ws watchId w4 else w4
    end.

(** The [change] listener of the backend-address field. *)
Definition backendAddress_change (w : World) : World :=
  match backendAddressInput w with
  | Some v =>
      let value := trim v in
      if str_truthy value
      then set_localStorage (<[lit "backendAddress" := value]> (localStorage w)) w
      else set_localStorage (delete (lit "backendAddress") (localStorage w)) w
  | None => w
  end.

(** The top-level statements of the script, run once when the page loads:
    the saved backend address is put back, then the status is set. *)
Definition load (w : World) : World :=
  let w1 :=
    match backendAddressInput w with
    | Some _ =>
        match localStorage w !! lit "backendAddress" with
        | Some saved =>
            if str_truthy saved then set_backendAddressInput (Some saved) w else w
        | None => w
        end
    | None => w
    end in
  setStatus (lit "Idle") w1.

Inductive Event : Type :=
  | UserTypesWatchId (v : jsstring)
  | UserChangesBackendAddress (v : jsstring)
  | Click
  | SockOpen (i : nat)
  | SockMessage (i : nat) (data : option json)
  | SockError (i : nat)
  | SockClose (i : nat).

(** The open listeners of socket [i]: the one [connectSocket] registered,
    then the once-listeners of the clicks, each sending on its own [ws]. *)
Definition on_open (i : nat) (w : World) : World :=
  match sockets w !! i with
  | Some s =>
      let w1 :=
        set_sockets (<[i := clear_once_open (set_readyState OPEN s)]> (sockets w)) w in
      foldl (fun w' watchId => send_request i watchId w')
        (appendLog (lit "Frontend: WebSocket connection established.") info w1)
        (ws_once_open s)
  | None => w
  end.

Definition on_close (i : nat) (w : World) : World :=
  appendLog (lit "Frontend: WebSocket connection closed.") warn
    (set_sockets (alter (set_readyState CLOSED) i (sockets w)) w).

Definition on_error (w : World) : World :=
  appendLog (lit "Frontend: WebSocket error.") error w.

Definition socket_state (w : World) (i : nat) : option ReadyState :=
  readyState <$> (sockets w !! i).

(** What the browser delivers to the page. A disabled button receives no
    click; [open] is fired once, on a connecting socket; frames arrive on
    open sockets only; [close] is fired once. *)
Definition step (w : World) (e : Event) : World :=
  match e with
  | UserTypesWatchId v => set_watchIdInput v w
  | UserChangesBackendAddress v =>
      match backendAddressInput w with
      | Some _ => backendAddress_change (set_backendAddressInput (Some v) w)
      | None => w
      end
  | Click => if downloadButton_disabled w then w else downloadButton_click w
  | SockOpen i =>
      if decide (socket_state w i = Some CONNECTING) then on_open i w else w
  | SockMessage i data =>
      if decide (socket_state w i = Some OPEN) then on_message data w else w
  | SockError i =>
      match socket_state w i with
      | Some CLOSED | None => w
      | Some _ => on_error w
      end
  | SockClose i =>
      match socket_state w i with
      | Some CLOSED | None => w
      | Some _ => on_close i w
      end
  end.

Definition run (w : World) (es : list Event) : World := foldl step w es.

End WithPlatform.

(** A page with an empty form, before the script has run. *)
Definition blank : World :=
  {| statusEl := []; logEl := []; backendAddressInput := Some [];
     watchIdInput := []; downloadButton_disabled := false;
     copyButton_disabled := true; summaryBeginning := []; summaryEnding := [];
     fullText := []; socket := None; latestText := J (JStr []); sockets := [];
     localStorage := ∅ |}.

End DocsApp.

(** ** The reservation + event-stream client *)
Module ReservationApp.

(** What the script throws and catches: an [Error] it built itself, or an
    error of the engine (TypeError, URIError, a failed [fetch]). Both carry
    a [message]. *)
Inductive Exn : Type :=
  | Error (message : jsstring)
  | NativeError (message : jsstring).

Definition exn_message (e : Exn) : jsstring :=
  match e with Error m | NativeError m => m end.

(** How an awaited call ends; [Pending] is a promise that never settles. *)
Inductive Outcome (A : Type) : Type :=
  | Returned (a : A)
  | Thrown (e : Exn)
  | Pending.
Arguments Returned {A} a.
Arguments Thrown {A} e.
Arguments Pending {A}.

(** The backend as the client sees it: how a [fetch] ends and which events
    an [EventSource] delivers, in order. The [data] of an event is what
    [JSON.parse(event.data)] gives, [None] when it throws; an [error] event
    of the connection itself has no data, and parsing it throws.  A [fetch]
    is answered or fails: a request that never settles is not among its
    outcomes, so only an event stream can leave a call pending here. *)
Inductive FetchOutcome : Type :=
  | NetworkError (message : jsstring)
  | Response (status : Z) (body : option json).

Inductive SseEvent : Type :=
  | EvOpen
  | EvLog (data : option json)
  | EvError (data : option json)
  | EvCompleted
  | EvOther.

Record Backend : Type := {
  post : jsstring -> json -> FetchOutcome;
  events : jsstring -> list SseEvent;
  get : jsstring -> FetchOutcome
}.

(** The requests the page has issued, oldest first. *)
Inductive Call : Type :=
  | CallPost (url : jsstring) (body : json)
  | CallEventSource (url : jsstring)
  | CallGet (url : jsstring).

Inductive Tone : Type := success | failure.

Record Modal : Type := {
  modal_tone : option Tone;
  is_visible : bool;
  aria_hidden : bool
}.

Record World : Type := {
  statusEl : jsstring;
  logEl : list LogEntry;
  backendAddressInput : option jsstring;
  watchIdInput : jsstring;
  downloadButton_disabled : bool;
  copyButton_disabled : bool;
  copyPromptButton_disabled : option bool;
  promptTemplateInput : option jsstring;
  fullText : jsstring;
  latestText : jsval;
  completionModal : option Modal;
  modalTitle : option jsstring;
  modalMessage : option jsstring;
  localStorage : gmap jsstring jsstring;
  calls : list Call
}.

Definition set_statusEl (v : jsstring) (w : World) : World :=
  {| statusEl := v; logEl := logEl w; backendAddressInput := backendAddressInput w;
     watchIdInput := watchIdInput w;
     downloadButton_disabled := downloadButton_disabled w;
     copyButton_disabled := copyButton_disabled w;
     copyPromptButton_disabled := copyPromptButton_disabled w;
     promptTemplateInput := promptTemplateInput w; fullText := fullText w;
     latestText := latestText w; completionModal := completionModal w;
     modalTitle := modalTitle w; modalMessage := modalMessage w;
     localStorage := localStorage w; calls := calls w |}.
Definition set_logEl (v : list LogEntry) (w : World) : World :=
  {| statusEl := statusEl w; logEl := v; backendAddressInput := backendAddressInput w;
     watchIdInput := watchIdInput w;
     downloadButton_disabled := downloadButton_disabled w;
     copyButton_disabled := copyButton_disabled w;
     copyPromptButton_disabled := copyPromptButton_disabled w;
     promptTemplateInput := promptTemplateInput w; fullText := fullText w;
     latestText := latestText w; completionModal := completionModal w;
     modalTitle := modalTitle w; modalMessage := modalMessage w;
     localStorage := localStorage w; calls := calls w |}.
Definition set_backendAddressInput (v : option jsstring) (w : World) : World :=
  {| statusEl := statusEl w; logEl := logEl w; backendAddressInput := v;
     watchIdInput := watchIdInput w;
     downloadButton_disabled := downloadButton_disabled w;
     copyButton_disabled := copyButton_disabled w;
     copyPromptButton_disabled := copyPromptButton_disabled w;
     promptTemplateInput := promptTemplateInput w; fullText := fullText w;
     latestText := latestText w; completionModal := completionModal w;
     modalTitle := modalTitle w; modalMessage := modalMessage w;
     localStorage := localStorage w; calls := calls w |}.
Definition set_watchIdInput (v : jsstring) (w : World) : World :=
  {| statusEl := statusEl w; logEl := logEl w;
     backendAddressInput := backendAddressInput w; watchIdInput := v;
     downloadButton_disabled := downloadButton_disabled w;
     copyButton_disabled := copyButton_disabled w;
     copyPromptButton_disabled := copyPromptButton_disabled w;
     promptTemplateInput := promptTemplateInput w; fullText := fullText w;
     latestText := latestText w; completionModal := completionModal w;
     modalTitle := modalTitle w; modalMessage := modalMessage w;
     localStorage := localStorage w; calls := calls w |}.
Definition set_downloadButton_disabled (v : bool) (w : World) : World :=
  {| statusEl := statusEl w; logEl := logEl w;
     backendAddressInput := backendAddressInput w; watchIdInput := watchIdInput w;
     downloadButton_disabled := v; copyButton_disabled := copyButton_disabled w;
     copyPromptButton_disabled := copyPromptButton_disabled w;
     promptTemplateInput := promptTemplateInput w; fullText := fullText w;
     latestText := latestText w; completionModal := completionModal w;
     modalTitle := modalTitle w; modalMessage := modalMessage w;
     localStorage := localStorage w; calls := calls w |}.
Definition set_copyButton_disabled (v : bool) (w : World) : World :=
  {| statusEl := statusEl w; logEl := logEl w;
     backendAddressInput := backendAddressInput w; watchIdInput := watchIdInput w;
     downloadButton_disabled := downloadButton_disabled w; copyButton_disabled := v;
     copyPromptButton_disabled := copyPromptButton_disabled w;
     promptTemplateInput := promptTemplateInput w; fullText := fullText w;
     latestText := latestText w; completionModal := completionModal w;
     modalTitle := modalTitle w; modalMessage := modalMessage w;
     localStorage := localStorage w; calls := calls w |}.
Definition set_copyPromptButton_disabled (v : option bool) (w : World) : World :=
  {| statusEl := statusEl w; logEl := logEl w;
     backendAddressInput := backendAddressInput w; watchIdInput := watchIdInput w;
     downloadButton_disabled := downloadButton_disabled w;
     copyButton_disabled := copyButton_disabled w; copyPromptButton_disabled := v;
     promptTemplateInput := promptTemplateInput w; fullText := fullText w;
     latestText := latestText w; completionModal := completionModal w;
     modalTitle := modalTitle w; modalMessage := modalMessage w;
     localStorage := localStorage w; calls := calls w |}.
Definition set_promptTemplateInput (v : option jsstring) (w : World) : World :=
  {| statusEl := statusEl w; logEl := logEl w;
     backendAddressInput := backendAddressInput w; watchIdInput := watchIdInput w;
     downloadButton_disabled := downloadButton_disabled w;
     copyButton_disabled := copyButton_disabled w;
     copyPromptButton_disabled := copyPromptButton_disabled w;
     promptTemplateInput := v; fullText := fullText w; latestText := latestText w;
     completionModal := completionModal w; modalTitle := modalTitle w;
     modalMessage := modalMessage w; localStorage := localStorage w;
     calls := calls w |}.
Definition set_fullText (v : jsstring) (w : World) : World :=
  {| statusEl := statusEl w; logEl := logEl w;
     backendAddressInput := backendAddressInput w; watchIdInput := watchIdInput w;
     downloadButton_disabled := downloadButton_disabled w;
     copyButton_disabled := copyButton_disabled w;
     copyPromptButton_disabled := copyPromptButton_disabled w;
     promptTemplateInput := promptTemplateInput w; fullText := v;
     latestText := latestText w; completionModal := completionModal w;
     modalTitle := modalTitle w; modalMessage := modalMessage w;
     localStorage := localStorage w; calls := calls w |}.
Definition set_latestText (v : jsval) (w : World) : World :=
  {| statusEl := statusEl w; logEl := logEl w;
     backendAddressInput := backendAddressInput w; watchIdInput := watchIdInput w;
     downloadButton_disabled := downloadButton_disabled w;
     copyButton_disabled := copyButton_disabled w;
     copyPromptButton_disabled := copyPromptButton_disabled w;
     promptTemplateInput := promptTemplateInput w; fullText := fullText w;
     latestText := v; completionModal := completionModal w; modalTitle := modalTitle w;
     modalMessage := modalMessage w; localStorage := localStorage w;
     calls := calls w |}.
Definition set_completionModal (v : option Modal) (w : World) : World :=
  {| statusEl := statusEl w; logEl := logEl w;
     backendAddressInput := backendAddressInput w; watchIdInput := watchIdInput w;
     downloadButton_disabled := downloadButton_disabled w;
     copyButton_disabled := copyButton_disabled w;
     copyPromptButton_disabled := copyPromptButton_disabled w;
     promptTemplateInput := promptTemplateInput w; fullText := fullText w;
     latestText := latestText w; completionModal := v; modalTitle := modalTitle w;
     modalMessage := modalMessage w; localStorage := localStorage w;
     calls := calls w |}.
Definition set_modalTitle (v : option jsstring) (w : World) : World :=
  {| statusEl := statusEl w; logEl := logEl w;
     backendAddressInput := backendAddressInput w; watchIdInput := watchIdInput w;
     downloadButton_disabled := downloadButton_disabled w;
     copyButton_disabled := copyButton_disabled w;
     copyPromptButton_disabled := copyPromptButton_disabled w;
     promptTemplateInput := promptTemplateInput w; fullText := fullText w;
     latestText := latestText w; completionModal := completionModal w; modalTitle := v;
     modalMessage := modalMessage w; localStorage := localStorage w;
     calls := calls w |}.
Definition set_modalMessage (v : option jsstring) (w : World) : World :=
  {| statusEl := statusEl w; logEl := logEl w;
     backendAddressInput := backendAddressInput w; watchIdInput := watchIdInput w;
     downloadButton_disabled := downloadButton_disabled w;
     copyButton_disabled := copyButton_disabled w;
     copyPromptButton_disabled := copyPromptButton_disabled w;
     promptTemplateInput := promptTemplateInput w; fullText := fullText w;
     latestText := latestText w; completionModal := completionModal w;
     modalTitle := modalTitle w; modalMessage := v; localStorage := localStorage w;
     calls := calls w |}.
Definition set_localStorage (v : gmap jsstring jsstring) (w : World) : World :=
  {| statusEl := statusEl w; logEl := logEl w;
     backendAddressInput := backendAddressInput w; watchIdInput := watchIdInput w;
     downloadButton_disabled := downloadButton_disabled w;
     copyButton_disabled := copyButton_disabled w;
     copyPromptButton_disabled := copyPromptButton_disabled w;
     promptTemplateInput := promptTemplateInput w; fullText := fullText w;
     latestText := latestText w; completionModal := completionModal w;
     modalTitle := modalTitle w; modalMessage := modalMessage w; localStorage := v;
     calls := calls w |}.
Definition set_calls (v : list Call) (w : World) : World :=
  {| statusEl := statusEl w; logEl := logEl w;
     backendAddressInput := backendAddressInput w; watchIdInput := watchIdInput w;
     downloadButton_disabled := downloadButton_disabled w;
     copyButton_disabled := copyButton_disabled w;
     copyPromptButton_disabled := copyPromptButton_disabled w;
     promptTemplateInput := promptTemplateInput w; fullText := fullText w;
     latestText := latestText w; completionModal := completionModal w;
     modalTitle := modalTitle w; modalMessage := modalMessage w;
     localStorage := localStorage w; calls := v |}.

(** Code that reads and writes the page and may throw or stay suspended. *)
Definition M (A : Type) : Type := World -> Outcome A * World.

Global Instance M_ret : MRet M := fun A a w => (Returned a, w).

Global Instance M_bind : MBind M := fun A B k m w =>
  match m w with
  | (Returned a, w') => k a w'
  | (Thrown e, w') => (Thrown e, w')
  | (Pending, w') => (Pending, w')
  end.

Definition throw {A} (e : Exn) : M A := fun w => (Thrown e, w).
Definition modify (f : World -> World) : M unit := fun w => (Returned tt, f w).

(** [try { body } catch (error) { handler } finally { fin }]; a suspended
    body never reaches either block. *)
Definition try_catch_finally {A} (body : M A) (handler : Exn -> M A)
    (fin : World -> World) : M A := fun w =>
  match body w with
  | (Returned a, w') => (Returned a, fin w')
  | (Thrown e, w') =>
      match handler e w' with
      | (Pending, w'') => (Pending, w'')
      | (r, w'') => (r, fin w'')
      end
  | (Pending, w') => (Pending, w')
  end.

Definition defaultPromptTemplate : jsstring :=
  lit "Turn the following audio transcription into a blog post in English."
    ++ [10%N] ++ lit "----" ++ [10%N; 10%N] ++ lit "{{URL}}" ++ [10%N; 10%N].

Definition appendLog (message : jsstring) (level : Level) (w : World) : World :=
  set_logEl (logEl w ++ [(level, message)]) w.

Definition setStatus (message : jsstring) (w : World) : World :=
  appendLog (lit "Frontend: " ++ message) info
    (set_statusEl (lit "Status: " ++ message) w).

Definition setModalState (isOpen : bool) (tone : option Tone) (w : World) : World :=
  match completionModal w with
  | None => w
  | Some _ =>
      set_completionModal
        (Some {| modal_tone := tone; is_visible := isOpen; aria_hidden := negb isOpen |}) w
  end.

Definition showCompletionModal (title message : jsstring) (tone : Tone) (w : World)
  : World :=
  match completionModal w, modalTitle w, modalMessage w with
  | Some _, Some _, Some _ =>
      setModalState true (Some tone)
        (set_modalMessage (Some message) (set_modalTitle (Some title) w))
  | _, _, _ => w
  end.

Definition response_ok (status : Z) : bool :=
  (200 <=? status)%Z && (status <=? 299)%Z.

(** [s.replace(/\/$/, "")] *)
Definition strip_one_trailing_slash (s : jsstring) : jsstring :=
  match rev s with
  | c :: r => if (c =? SLASH)%N then rev r else s
  | [] => s
  end.

(** [buildEndpointUrl(baseUrl, endpoint)] *)
Definition buildEndpointUrl (baseUrl endpoint : jsstring) : jsstring :=
  let cleaned := strip_leading_slashes endpoint in
  baseUrl ++ lit "/" ++ cleaned.

Section WithPlatform.
Context `{Platform}.

Definition defaultBackendAddress : jsstring := loc_origin location.

(** [normalizeBackendBaseUrl(value)] *)
Definition normalizeBackendBaseUrl (value : jsstring) (w : World) : jsstring * World :=
  let trimmed := trim value in
  if negb (str_truthy trimmed) then (defaultBackendAddress, w)
  else
    let parsed :=
      if startsWith_ci (lit "http://") trimmed || startsWith_ci (lit "https://") trimmed
      then new_URL trimmed
      else
        let protocol :=
          if bool_decide (loc_protocol location = lit "https:")
          then lit "https:" else lit "http:" in
        new_URL (protocol ++ lit "//" ++ trimmed) in
    match parsed with
    | Some url => (strip_one_trailing_slash (url_toString url), w)
    | None =>
        (defaultBackendAddress,
         appendLog (lit "Frontend: Invalid backend address provided, using default.")
           warn w)
    end.

(** The property [k] of [v]; reading a property of [null] throws. *)
Definition read_prop (v : json) (k : jsstring) : M jsval := fun w =>
  match get_prop v k with
  | Some x => (Returned x, w)
  | None => (Thrown (NativeError typeError_message), w)
  end.

(** [await fetch(...)] followed by [await response.json()] with its
    [catch]: the status and the payload, [{}] when the body is no JSON. *)
Definition fetch_json (call : Call) (answer : FetchOutcome) : M (Z * json) := fun w =>
  let w' := set_calls (calls w ++ [call]) w in
  match answer with
  | NetworkError m => (Thrown (NativeError m), w')
  | Response status body =>
      (Returned (status, match body with Some j => j | None => JObj [] end), w')
  end.

(** [createReservation(baseUrl, watchId)] *)
Definition createReservation (net : Backend) (baseUrl watchId : jsstring) : M jsval :=
  let url := buildEndpointUrl baseUrl (lit "reservation") in
  let body := JObj [(lit "watch_id", JStr watchId)] in
  '(status, payload) ← fetch_json (CallPost url body) (post net url body);
  if negb (response_ok status)
  then
    message ← read_prop payload (lit "message");
    throw (Error (to_string (val_or message (J (JStr (lit "Failed to create reservation."))))))
  else
    reservation_id ← read_prop payload (lit "reservation_id");
    if negb (truthy reservation_id)
    then throw (Error (lit "Backend did not return a reservation ID."))
    else mret reservation_id.

(** The promise and the event source of one [waitForEvents] call. *)
Inductive Settlement : Type :=
  | Resolved
  | Rejected (e : Exn).

Record Stream : Type := {
  es_closed : bool;
  settled : option Settlement
}.

Definition es_close (s : Stream) : Stream :=
  {| es_closed := true; settled := settled s |}.

(** [resolve()] and [reject(e)] settle a pending promise and do nothing to a
    settled one. *)
Definition settle (x : Settlement) (s : Stream) : Stream :=
  match settled s with
  | Some _ => s
  | None => {| es_closed := es_closed s; settled := Some x |}
  end.

(** The listener for [log] events. *)
Definition on_log (data : option json) (w : World) : World :=
  match data with
  | None => appendLog (lit "Frontend: Received invalid log event payload.") warn w
  | Some d =>
      match get_prop d (lit "message") with
      | Some m => appendLog (lit "Backend: " ++ to_string (val_or m (J (JStr [])))) info w
      | None => w
      end
  end.

(** The listener added for [error] events; reading [message] off a [null]
    payload throws after the source was closed and before [reject]. *)
Definition on_error_event (data : option json) (s : Stream) : Stream :=
  let d := match data with Some j => j | None => JObj [] end in
  let s1 := es_close s in
  match get_prop d (lit "message") with
  | Some m =>
      settle
        (Rejected (Error (to_string (val_or m (J (JStr (lit "Stream error from backend.")))))))
        s1
  | None => s1
  end.

(** [eventSource.onerror], registered after the listener above and run
    after it on every [error] event. *)
Definition onerror (s : Stream) : Stream :=
  settle (Rejected (Error (lit "Failed to connect to event stream."))) (es_close s).

Definition on_completed (s : Stream) : Stream :=
  settle Resolved (es_close s).

(** One event of the stream; a closed source dispatches nothing. *)
Definition dispatch (st : Stream * World) (ev : SseEvent) : Stream * World :=
  let '(s, w) := st in
  if es_closed s then st
  else
    match ev with
    | EvOpen => (s, appendLog (lit "Frontend: Event stream connected.") info w)
    | EvLog data => (s, on_log data w)
    | EvError data => (onerror (on_error_event data s), w)
    | EvCompleted => (on_completed s, w)
    | EvOther => st
    end.

Definition new_stream : Stream := {| es_closed := false; settled := None |}.

Definition deliver (evs : list SseEvent) (w : World) : Stream * World :=
  foldl dispatch (new_stream, w) evs.

(** [encodeURIComponent(reservationId)]; a lone surrogate makes it throw. *)
Definition encode_id (reservationId : jsval) : M jsstring := fun w =>
  match encodeURIComponent (to_string reservationId) with
  | Some enc => (Returned enc, w)
  | None => (Thrown (NativeError uriError_message), w)
  end.

(** [new EventSource(eventsUrl)] with its listeners, and the promise
    around it awaited: the events the backend delivers are dispatched in
    order. *)
Definition listen (net : Backend) (eventsUrl : jsstring) : M unit := fun w =>
  let w1 := set_calls (calls w ++ [CallEventSource eventsUrl]) w in
  let '(s, w2) := deliver (events net eventsUrl) w1 in
  match settled s with
  | Some Resolved => (Returned tt, w2)
  | Some (Rejected e) => (Thrown e, w2)
  | None => (Pending, w2)
  end.

(** [waitForEvents(baseUrl, reservationId)], awaited. An exception in the
    promise executor rejects the promise. *)
Definition waitForEvents (net : Backend) (baseUrl : jsstring) (reservationId : jsval)
  : M unit :=
  enc ← encode_id reservationId;
  listen net (buildEndpointUrl baseUrl (lit "events/" ++ enc)).

(** [fetchResult(baseUrl, reservationId)] *)
Definition fetchResult (net : Backend) (baseUrl : jsstring) (reservationId : jsval)
  : M json :=
  enc ← encode_id reservationId;
  let url := buildEndpointUrl baseUrl (lit "result/" ++ enc) in
  '(status, payload) ← fetch_json (CallGet url) (get net url);
  if negb (response_ok status)
  then
    message ← read_prop payload (lit "message");
    throw (Error (to_string (val_or message (J (JStr (lit "Failed to fetch result."))))))
  else mret payload.

Definition set_copyPrompt (b : bool) (w : World) : World :=
  match copyPromptButton_disabled w with
  | Some _ => set_copyPromptButton_disabled (Some b) w
  | None => w
  end.

(** The [try] block of the click listener. *)
Definition request (net : Backend) (baseUrl watchId : jsstring) : M unit :=
  modify (setStatus (lit "Creating reservation..."));;
  reservationId ← createReservation net baseUrl watchId;
  modify (appendLog (lit "Frontend: Reservation created (" ++ to_string reservationId
                       ++ lit ").") info);;
  modify (setStatus (lit "Waiting for backend events..."));;
  waitForEvents net baseUrl reservationId;;
  modify (setStatus (lit "Fetching final subtitle result..."));;
  data ← fetchResult net baseUrl reservationId;
  text ← read_prop data (lit "text");
  modify (fun w =>
    let w1 := set_latestText (val_or text (J (JStr []))) w in
    let w2 := set_fullText (to_string (latestText w1)) w1 in
    let w3 := set_copyButton_disabled (negb (truthy (latestText w2))) w2 in
    let w4 := set_copyPrompt (negb (truthy (latestText w3))) w3 in
    let language := match get_prop data (lit "language") with
                    | Some x => x | None => Undefined end in
    let w5 :=
      setStatus (lit "Completed (language: "
                   ++ to_string (val_or language (J (JStr (lit "unknown")))) ++ lit ")")
        w4 in
    let w6 := appendLog (lit "Frontend: Results loaded into the UI.") info w5 in
    showCompletionModal (lit "Download complete")
      (lit "Subtitles are ready"
         ++ (if truthy language then lit " in " ++ to_string language else [])
         ++ lit ". You can copy the text or the prompt from the buttons above.")
      success w6).

(** The [catch] block. *)
Definition report (e : Exn) : M unit :=
  modify (fun w =>
    let w1 := appendLog (lit "Backend error: " ++ exn_message e) error w in
    let w2 := setStatus (lit "Error") w1 in
    showCompletionModal (lit "Download failed")
      (str_or (exn_message e)
         (lit "The backend reported an error while processing the request."))
      failure w2).

(** The click listener of the download button, run to the end of the
    request cycle against the backend [net]. *)
Definition downloadButton_click (net : Backend) : M unit := fun w =>
  let watchId := sanitizeWatchId (watchIdInput w) in
  if negb (str_truthy watchId)
  then (Returned tt, setStatus (lit "Please enter a watch ID or URL") w)
  else
    let w1 :=
      set_downloadButton_disabled true
        (set_copyPrompt true
           (set_copyButton_disabled true
              (set_latestText (J (JStr [])) (set_fullText [] w)))) in
    let value :=
      match backendAddressInput w1 with
      | Some v => str_or v []
      | None => []
      end in
    let '(baseUrl, w2) := normalizeBackendBaseUrl value w1 in
    try_catch_finally (request net baseUrl watchId) report
      (set_downloadButton_disabled false) w2.

(** The [change] listener of the backend-address field and the [input]
    listener of the prompt template. *)
Definition backendAddress_change (w : World) : World :=
  match backendAddressInput w with
  | Some v =>
      let value := trim v in
      if str_truthy value
      then set_localStorage (<[lit "backendAddress" := value]> (localStorage w)) w
      else set_localStorage (delete (lit "backendAddress") (localStorage w)) w
  | None => w
  end.

Definition promptTemplate_input (w : World) : World :=
  match promptTemplateInput w with
  | Some v => set_localStorage (<[lit "promptTemplate" := v]> (localStorage w)) w
  | None => w
  end.

(** The top-level statements of the script, run once when the page loads. *)
Definition load (w : World) : World :=
  let w1 :=
    match backendAddressInput w with
    | Some _ =>
        match localStorage w !! lit "backendAddress" with
        | Some saved =>
            if str_truthy saved then set_backendAddressInput (Some saved) w
            else set_backendAddressInput (Some defaultBackendAddress) w
        | None => set_backendAddressInput (Some defaultBackendAddress) w
        end
    | None => w
    end in
  let restore_default w :=
    set_localStorage (<[lit "promptTemplate" := defaultPromptTemplate]> (localStorage w))
      (set_promptTemplateInput (Some defaultPromptTemplate) w) in
  let w2 :=
    match promptTemplateInput w1 with
    | Some _ =>
        match localStorage w1 !! lit "promptTemplate" with
        | Some savedTemplate =>
            if str_truthy savedTemplate
            then set_promptTemplateInput (Some savedTemplate) w1
            else restore_default w1
        | None => restore_default w1
        end
    | None => w1
    end in
  setStatus (lit "Idle") w2.

End WithPlatform.

(** A page with an empty form, before the script has run. *)
Definition blank : World :=
  {| statusEl := []; logEl := []; backendAddressInput := Some [];
     watchIdInput := []; downloadButton_disabled := false;
     copyButton_disabled := true; copyPromptButton_disabled := Some true;
     promptTemplateInput := Some []; fullText := []; latestText := J (JStr []);
     completionModal :=
       Some {| modal_tone := None; is_visible := false; aria_hidden := true |};
     modalTitle := Some []; modalMessage := Some []; localStorage := ∅;
     calls := [] |}.

End ReservationApp.

(** * Specification-level notions and a sample browser *)

(** ** White-space runs, by words

    The words of a text are its maximal runs of code units that are not
    white space; collapsing every white-space run to one space and trimming
    leaves the words joined by single spaces. *)
Fixpoint words (s : jsstring) : list jsstring :=
  match s with
  | [] => []
  | c :: s' =>
      if is_white_space c then words s'
      else
        match s' with
        | [] => [[c]]
        | c' :: _ =>
            if is_white_space c' then [c] :: words s'
            else
              match words s' with
              | w :: r => (c :: w) :: r
              | [] => [[c]]
              end
        end
  end.

Fixpoint unwords (ws : list jsstring) : jsstring :=
  match ws with
  | [] => []
  | w :: r =>
      match r with
      | [] => w
      | _ => w ++ SPACE :: unwords r
      end
  end.

(** The first and the last [k] code units of a string. *)
Definition first_chars (k : nat) (s : jsstring) : jsstring := take k s.
Definition last_chars (k : nat) (s : jsstring) : jsstring := rev (take k (rev s)).

(** ** Identifiers the user has typed

    The values the identifier field has held during a session: the one the
    page started with and every one typed since. *)
Definition docs_typed (w0 : DocsApp.World) (es : list DocsApp.Event) : list jsstring :=
  DocsApp.watchIdInput w0
    :: omap (fun e => match e with
                      | DocsApp.UserTypesWatchId v => Some v
                      | _ => None
                      end) es.

Definition simple_typed (w0 : SimpleSocket.World) (es : list SimpleSocket.Event)
  : list jsstring :=
  SimpleSocket.videoIdInput w0
    :: omap (fun e => match e with
                      | SimpleSocket.UserTypesVideoId v => Some v
                      | _ => None
                      end) es.

(** [id] is the trimmed, non-empty form of one of [vals]. *)
Definition trimmed_of (vals : list jsstring) (id : jsstring) : Prop :=
  id <> [] /\ exists v, v ∈ vals /\ id = trim v.

(** Every frame a socket has sent, and every frame its pending open
    listeners will send, is [mk id] for an [id] that satisfies [P]. *)
Definition frames_ok (mk : jsstring -> json) (P : jsstring -> Prop)
    (l : list WebSocket) : Prop :=
  Forall (fun s => Forall (fun f => exists id, P id /\ f = mk id) (ws_sent s)
                   /\ Forall P (ws_once_open s)) l.

(** ** A page that can no longer request

    The request control is disabled and no socket is connecting or open. *)
Definition docs_stuck (w : DocsApp.World) : Prop :=
  DocsApp.downloadButton_disabled w = true
  /\ Forall (fun s => readyState s = CLOSED) (DocsApp.sockets w).

(** A session in which the connection fails before the backend answers. *)
Definition failed_connection : list DocsApp.Event :=
  [DocsApp.UserTypesWatchId (lit "dQw4w9WgXcQ"); DocsApp.Click;
   DocsApp.SockError 0; DocsApp.SockClose 0].

(** ** Terminal events of an event stream

    [completed] and [error] end a stream; everything else does not. *)
Definition is_terminal (ev : ReservationApp.SseEvent) : bool :=
  match ev with
  | ReservationApp.EvError _ | ReservationApp.EvCompleted => true
  | _ => false
  end.

(** ** A sample backend

    A backend that accepts every reservation as "r1", streams the given
    events and serves a short English text. *)
Definition sample_backend (evs : list ReservationApp.SseEvent) : ReservationApp.Backend :=
  {| ReservationApp.post := fun _ _ =>
       ReservationApp.Response 200
         (Some (JObj [(lit "reservation_id", JStr (lit "r1"))]));
     ReservationApp.events := fun _ => evs;
     ReservationApp.get := fun _ =>
       ReservationApp.Response 200
         (Some (JObj [(lit "text", JStr (lit "hello")); (lit "language", JStr (lit "en"))]))
  |}.

Definition sample_logs : list ReservationApp.SseEvent :=
  [ReservationApp.EvOpen;
   ReservationApp.EvLog (Some (JObj [(lit "message", JStr (lit "downloading"))]))].

(** ** A sample browser

    One implementation of the browser services, used to run the scripts on
    concrete inputs: URLs of the schemes ws, wss, http and https with a
    host, an optional port and a path, and [encodeURIComponent] by UTF-8
    and percent-encoding. *)
Module SampleBrowser.

Record Url : Type := {
  u_protocol : jsstring;
  u_hostname : jsstring;
  u_port : jsstring;
  u_pathname : jsstring
}.

Definition COLON : N := 58%N.

Definition special_schemes : list jsstring :=
  [lit "ws"; lit "wss"; lit "http"; lit "https"].

(** The text before the first [sep], and the rest from [sep] on. *)
Fixpoint until (sep : N) (s : jsstring) : jsstring * jsstring :=
  match s with
  | [] => ([], [])
  | c :: s' =>
      if (c =? sep)%N then ([], s)
      else let '(a, b) := until sep s' in (c :: a, b)
  end.

Definition parse (s : jsstring) : option Url :=
  let '(sch, rest) := until COLON s in
  let scheme := map ascii_lower sch in
  if bool_decide (scheme ∈ special_schemes) && startsWith (lit "://") rest
  then
    let '(authority, path) := until SLASH (drop 3 rest) in
    let '(host, port) := until COLON authority in
    if str_truthy host
    then Some {| u_protocol := scheme ++ lit ":"; u_hostname := host;
                 u_port := drop 1 port;
                 u_pathname := str_or path (lit "/") |}
    else None
  else None.

Definition with_protocol (u : Url) (p : jsstring) : Url :=
  {| u_protocol := p; u_hostname := u_hostname u; u_port := u_port u;
     u_pathname := u_pathname u |}.

Definition with_pathname (u : Url) (p : jsstring) : Url :=
  {| u_protocol := u_protocol u; u_hostname := u_hostname u; u_port := u_port u;
     u_pathname := if startsWith (lit "/") p then p else lit "/" ++ p |}.

Definition href (u : Url) : jsstring :=
  u_protocol u ++ lit "//" ++ u_hostname u
    ++ (if str_truthy (u_port u) then lit ":" ++ u_port u else [])
    ++ u_pathname u.

Definition hex_digit (d : N) : N :=
  if (d <? 10)%N then (48 + d)%N else (55 + d)%N.

(** A-Z a-z 0-9 - _ . ! ~ * ' ( ) *)
Definition unreserved (b : N) : bool :=
  ((65 <=? b)%N && (b <=? 90)%N) || ((97 <=? b)%N && (b <=? 122)%N)
  || ((48 <=? b)%N && (b <=? 57)%N)
  || bool_decide (b ∈ [45; 95; 46; 33; 126; 42; 39; 40; 41]%N).

Definition percent (b : N) : jsstring :=
  if unreserved b then [b] else [37%N; hex_digit (b / 16); hex_digit (b mod 16)].

(** UTF-8 of a UTF-16 string; a lone surrogate has none. *)
Fixpoint utf8 (s : jsstring) : option (list N) :=
  match s with
  | [] => Some []
  | c :: s' =>
      if (c <? 128)%N then cons c <$> utf8 s'
      else if (c <? 2048)%N
      then app [192 + c / 64; 128 + c mod 64]%N <$> utf8 s'
      else if (55296 <=? c)%N && (c <=? 56319)%N
      then
        match s' with
        | d :: s'' =>
            if (56320 <=? d)%N && (d <=? 57343)%N
            then
              let cp := (65536 + (c - 55296) * 1024 + (d - 56320))%N in
              app [240 + cp / 262144; 128 + (cp / 4096) mod 64;
                   128 + (cp / 64) mod 64; 128 + cp mod 64]%N <$> utf8 s''
            else None
        | [] => None
        end
      else if (56320 <=? c)%N && (c <=? 57343)%N then None
      else app [224 + c / 4096; 128 + (c / 64) mod 64; 128 + c mod 64]%N <$> utf8 s'
  end.

Definition encode (s : jsstring) : option jsstring :=
  (fun bytes => concat (map percent bytes)) <$> utf8 s.

Definition accepts (url : jsstring) : bool :=
  (startsWith (lit "ws://") url || startsWith (lit "wss://") url)
  && negb (bool_decide (35%N ∈ url)).

#[export] Instance browser : Platform := {|
  URL := Url;
  new_URL := parse;
  url_protocol := u_protocol;
  url_hostname := u_hostname;
  url_port := u_port;
  url_pathname := u_pathname;
  set_protocol := with_protocol;
  set_pathname := with_pathname;
  url_toString := href;
  encodeURIComponent := encode;
  websocket_accepts := accepts;
  typeError_message := lit "Cannot read properties of null";
  uriError_message := lit "URI malformed";
  location :=
    {| loc_protocol := lit "http:"; loc_hostname := lit "localhost";
       loc_port := lit "8080"; loc_origin := lit "http://localhost:8080" |}
|}.

End SampleBrowser.

(** ** What the scripts rely on from the URL class

    Facts of the WHATWG URL standard about URLs of the special schemes the
    scripts handle: the parser lower-cases the scheme it reads; assigning
    [protocol] moves http to ws and https to wss and keeps host, port and
    path (each pair shares its default port); assigning a [pathname] that
    ends in "/ws" gives a path that ends in "/ws"; the serialisation starts
    with the scheme. *)
Definition ws_schemes : list jsstring := [lit "ws"; lit "wss"].
Definition http_schemes : list jsstring := [lit "http"; lit "https"].

(** ws for http, wss for https *)
Definition socket_scheme (scheme : jsstring) : jsstring :=
  if bool_decide (scheme = lit "https") then lit "wss" else lit "ws".

Class UrlLaws `{Platform} : Prop := {
  new_URL_protocol (scheme s : jsstring) (u : URL) :
    In scheme (ws_schemes ++ http_schemes) ->
    startsWith_ci (scheme ++ lit "://") s = true ->
    new_URL s = Some u ->
    url_protocol u = scheme ++ lit ":";
  set_protocol_socket (scheme : jsstring) (u : URL) :
    In scheme http_schemes ->
    url_protocol u = scheme ++ lit ":" ->
    let u' := set_protocol u (socket_scheme scheme ++ lit ":") in
    url_protocol u' = socket_scheme scheme ++ lit ":"
    /\ url_hostname u' = url_hostname u
    /\ url_port u' = url_port u
    /\ url_pathname u' = url_pathname u;
  set_pathname_ws (scheme p : jsstring) (u : URL) :
    In scheme ws_schemes ->
    url_protocol u = scheme ++ lit ":" ->
    endsWith (lit "/ws") p = true ->
    let u' := set_pathname u p in
    url_protocol u' = url_protocol u
    /\ url_hostname u' = url_hostname u
    /\ url_port u' = url_port u
    /\ endsWith (lit "/ws") (url_pathname u') = true;
  url_toString_scheme (u : URL) :
    startsWith (url_protocol u ++ lit "//") (url_toString u) = true
}.

(** * More of the scripts *)

(** ** The prompt copied with the subtitles *)
Module Prompt.

(** [buildYouTubeUrl(value)] *)
Definition buildYouTubeUrl (value : jsstring) : jsstring :=
  if negb (str_truthy value) then []
  else if startsWith_ci (lit "http://") value || startsWith_ci (lit "https://") value
  then value
  else lit "https://www.youtube.com/watch?v=" ++ value.

Definition DOLLAR : N := 36%N.

(** GetSubstitution of ECMA-262 for a string pattern, which has no capture
    groups: in the replacement text [$$] stands for a dollar sign, [$&] for
    the matched text, [$`] for the text before the match and [$'] for the
    text after it; any other [$] is kept. *)
Fixpoint getSubstitution (matched before after replacement : jsstring) : jsstring :=
  match replacement with
  | [] => []
  | c :: r =>
      if (c =? DOLLAR)%N
      then
        match r with
        | d :: r' =>
            if (d =? DOLLAR)%N then DOLLAR :: getSubstitution matched before after r'
            else if (d =? 38)%N then matched ++ getSubstitution matched before after r'
            else if (d =? 96)%N then before ++ getSubstitution matched before after r'
            else if (d =? 39)%N then after ++ getSubstitution matched before after r'
            else c :: getSubstitution matched before after r
        | [] => [c]
        end
      else c :: getSubstitution matched before after r
  end.

(** [whole.replaceAll(pattern, replacement)] for a non-empty string
    [pattern], scanning the rest [s] of [whole] from index [pos]; [skip]
    counts the code units of a match still to be passed over. *)
Fixpoint replaceAll_from (pattern replacement whole : jsstring) (pos skip : nat)
    (s : jsstring) : jsstring :=
  match s with
  | [] => []
  | c :: s' =>
      match skip with
      | S k => replaceAll_from pattern replacement whole (S pos) k s'
      | O =>
          if startsWith pattern s
          then
            getSubstitution pattern (take pos whole) (drop (pos + length pattern) whole)
              replacement
            ++ replaceAll_from pattern replacement whole (S pos) (length pattern - 1) s'
          else c :: replaceAll_from pattern replacement whole (S pos) 0 s'
      end
  end.

Definition replaceAll (pattern replacement whole : jsstring) : jsstring :=
  replaceAll_from pattern replacement whole 0 0 whole.

Definition placeholder : jsstring := lit "{{URL}}".

(** The text the click listener of the prompt button hands to
    [copyToClipboard]. *)
Definition prompt_text (w : ReservationApp.World) : jsstring :=
  let template :=
    match ReservationApp.promptTemplateInput w with
    | Some v => v
    | None => ReservationApp.defaultPromptTemplate
    end in
  let watchId := sanitizeWatchId (ReservationApp.watchIdInput w) in
  let url := buildYouTubeUrl watchId in
  let filledTemplate := replaceAll placeholder url template in
  filledTemplate ++ to_string (ReservationApp.latestText w).

End Prompt.

(** ** Copying to the clipboard

    The page with what the copy functions touch besides the fields of the
    client: the system clipboard and the children of [document.body].  How
    the browser answers is given by [Env]: whether
    [navigator.clipboard.writeText] resolves, and what
    [document.execCommand("copy")] returns ([None] when it throws); a
    successful [execCommand] puts the selected text on the clipboard. *)
Module Clipboard.

Inductive Node : Type :=
  | PageElement
  | Textarea (value : jsstring).

Record Env : Type := {
  writeText_resolves : bool;
  execCommand_copy : option bool
}.

Record Page (W : Type) : Type := {
  world : W;
  clipboard : option jsstring;
  body : list Node
}.
Arguments world {W} p.
Arguments clipboard {W} p.
Arguments body {W} p.

Definition set_world {W} (f : W -> W) (p : Page W) : Page W :=
  {| world := f (world p); clipboard := clipboard p; body := body p |}.

Definition set_clipboard {W} (text : jsstring) (p : Page W) : Page W :=
  {| world := world p; clipboard := Some text; body := body p |}.

Definition set_body {W} (l : list Node) (p : Page W) : Page W :=
  {| world := world p; clipboard := clipboard p; body := l |}.

(** [document.body.appendChild(node)] *)
Definition appendChild {W} (node : Node) (p : Page W) : Page W :=
  set_body (body p ++ [node]) p.

(** [document.body.removeChild(node)] for the node appended at index [k]
    and still attached when [attached] holds; removing a node that is no
    child throws a NotFoundError ([None]). *)
Definition removeChild {W} (k : nat) (attached : bool) (p : Page W) : option (Page W) :=
  if attached then Some (set_body (delete k (body p)) p) else None.

(** [document.execCommand("copy")] with the text of [temp] selected. *)
Definition run_execCommand {W} (env : Env) (selected : jsstring) (p : Page W)
  : option bool * Page W :=
  match execCommand_copy env with
  | Some true => (Some true, set_clipboard selected p)
  | r => (r, p)
  end.

(** [copyToClipboard(text, label)] of the reservation client and of the
    socket client with the prompt template; docs/app.js has the same
    function with the label "subtitles" written into its messages. *)
Definition copyToClipboard (env : Env) (text : jsval) (label : jsstring)
    (p : Page ReservationApp.World) : Page ReservationApp.World :=
  if negb (truthy text) then p
  else if writeText_resolves env
  then
    set_world (ReservationApp.setStatus (lit "Copied to clipboard"))
      (set_world
         (ReservationApp.appendLog
            (lit "Frontend: Copied " ++ label ++ lit " using Clipboard API.") info)
         (set_clipboard (to_string text) p))
  else
    let p1 :=
      set_world
        (ReservationApp.appendLog
           (lit "Frontend: Clipboard API failed, falling back to execCommand.") warn) p in
    let k := length (body p1) in
    let p2 := appendChild (Textarea (to_string text)) p1 in
    let p3 :=
      match run_execCommand env (to_string text) p2 with
      | (Some _, p') =>
          set_world (ReservationApp.setStatus (lit "Copied to clipboard"))
            (set_world
               (ReservationApp.appendLog
                  (lit "Frontend: Copied " ++ label ++ lit " using execCommand.") info) p')
      | (None, p') =>
          set_world (ReservationApp.setStatus (lit "Copy failed"))
            (set_world
               (ReservationApp.appendLog
                  (lit "Frontend: Failed to copy " ++ label ++ lit ".") error) p')
      end in
    match removeChild k true p3 with
    | Some p4 => p4
    | None => p3
    end.

(** How [copyText] of the minimal client ends. *)
Inductive Completion : Type :=
  | Return (b : bool)
  | Throw.

(** [copyText(text)] of the minimal client. *)
Definition copyText (env : Env) (text : jsval) (p : Page SimpleSocket.World)
  : Completion * Page SimpleSocket.World :=
  if writeText_resolves env
  then
    (Return true,
     set_world
       (SimpleSocket.appendLog (lit "Copied subtitle to clipboard (Clipboard API). "))
       (set_clipboard (to_string text) p))
  else
    let p1 :=
      set_world
        (SimpleSocket.appendLog (lit "Clipboard API failed, trying execCommand...")) p in
    let k := length (body p1) in
    let p2 := appendChild (Textarea (to_string text)) p1 in
    (* the [try] block: [Some r] when it returns [r], [None] when it falls
       through; [attached] tells whether the helper is still a child *)
    let '(returned, attached, p3) :=
      match run_execCommand env (to_string text) p2 with
      | (Some success, p') =>
          match removeChild k true p' with
          | Some p'' =>
              if success
              then
                (Some true, false,
                 set_world
                   (SimpleSocket.appendLog
                      (lit "Copied subtitle to clipboard (execCommand). ")) p'')
              else (None, false, p'')
          | None => (None, true, p')
          end
      | (None, p') =>
          (None, true, set_world (SimpleSocket.appendLog (lit "execCommand copy failed.")) p')
      end in
    match returned with
    | Some r => (Return r, p3)
    | None =>
        match removeChild k attached p3 with
        | Some p4 => (Return false, p4)
        | None => (Throw, p3)
        end
    end.

End Clipboard.

(** ** The completion dialog of the reservation client *)
Module Dialog.

(** [hideCompletionModal()] *)
Definition hideCompletionModal (w : ReservationApp.World) : ReservationApp.World :=
  ReservationApp.setModalState false None w.

(** The click listener of the dialog: only a click on the backdrop, whose
    target is the dialog element itself, hides it. *)
Definition completionModal_click (target_is_modal : bool) (w : ReservationApp.World)
  : ReservationApp.World :=
  match ReservationApp.completionModal w with
  | Some _ => if target_is_modal then hideCompletionModal w else w
  | None => w
  end.

(** The [keydown] listener of the document. *)
Definition document_keydown (key : jsstring) (w : ReservationApp.World)
  : ReservationApp.World :=
  let visible :=
    match ReservationApp.completionModal w with
    | Some m => ReservationApp.is_visible m
    | None => false
    end in
  if bool_decide (key = lit "Escape") && visible then hideCompletionModal w else w.

End Dialog.

(** ** Notions for the sessions of the socket clients *)

(** The number of clicks on the download button. *)
Definition docs_clicks (es : list DocsApp.Event) : nat :=
  length (omap (fun e => match e with DocsApp.Click => Some tt | _ => None end) es).

(** The start commands a socket has sent or, while it is connecting, still
    holds in its open listeners. *)
Definition owed (s : WebSocket) : nat :=
  length (ws_sent s)
  + (if bool_decide (readyState s = CONNECTING) then length (ws_once_open s) else 0).

Definition owed_total (l : list WebSocket) : nat := sum_list (map owed l).

(** A socket that is connecting or open. *)
Definition live (s : WebSocket) : Prop :=
  readyState s = CONNECTING \/ readyState s = OPEN.

(** The ready states of the sockets of the page, in the order of their
    construction. *)
Definition docs_states (w : DocsApp.World) : list ReadyState :=
  readyState <$> DocsApp.sockets w.

(** Only the socket the variable [socket] names is connecting or open, and
    no socket is connecting while the request control is enabled. *)
Definition docs_wired (w : DocsApp.World) : Prop :=
  (forall i r, docs_states w !! i = Some r -> r = CONNECTING \/ r = OPEN ->
               DocsApp.socket w = Some i)
  /\ (DocsApp.downloadButton_disabled w = false ->
      forall i, docs_states w !! i <> Some CONNECTING).

(** A frame of type "error" or "result". *)
Definition answer_frame (data : option json) : bool :=
  match data with
  | Some d =>
      match get_prop d (lit "type") with
      | Some ty => is_str (lit "error") ty || is_str (lit "result") ty
      | None => false
      end
  | None => false
  end.

Definition docs_answer_event (e : DocsApp.Event) : bool :=
  match e with
  | DocsApp.SockMessage _ data => answer_frame data
  | _ => false
  end.

(** The start commands a socket has sent or, while it is connecting, still
    holds in its open listeners, as the frames [mk] makes of them; and
    those of all sockets, in the order of the sockets. *)
Definition pending_frames (mk : jsstring -> json) (s : WebSocket) : list json :=
  ws_sent s
    ++ (if bool_decide (readyState s = CONNECTING) then mk <$> ws_once_open s else []).

Definition started (mk : jsstring -> json) (l : list WebSocket) : list json :=
  concat (pending_frames mk <$> l).

(** The variable [socket] names the socket made last. *)
Definition docs_latest (w : DocsApp.World) : Prop :=
  DocsApp.sockets w = []
  \/ DocsApp.socket w = Some (pred (length (DocsApp.sockets w))).

Definition simple_latest (w : SimpleSocket.World) : Prop :=
  SimpleSocket.sockets w = []
  \/ SimpleSocket.socket w = Some (pred (length (SimpleSocket.sockets w))).

(** The identifier an event makes the page read: a click the page takes
    (its control is enabled) reads the trimmed input, and requests it when
    it is not empty; no other event reads one. *)
Definition docs_read (w : DocsApp.World) (e : DocsApp.Event) : list jsstring :=
  match e with
  | DocsApp.Click =>
      if DocsApp.downloadButton_disabled w then []
      else if str_truthy (trim (DocsApp.watchIdInput w))
           then [trim (DocsApp.watchIdInput w)] else []
  | _ => []
  end.

Definition simple_read (w : SimpleSocket.World) (e : SimpleSocket.Event) : list jsstring :=
  match e with
  | SimpleSocket.Click =>
      if SimpleSocket.downloadBtn_disabled w then []
      else if str_truthy (trim (SimpleSocket.videoIdInput w))
           then [trim (SimpleSocket.videoIdInput w)] else []
  | _ => []
  end.

(** The identifiers the clicks of a session have requested, click by
    click: each is the trimmed input at the moment of its click. *)
Fixpoint docs_requests `{Platform} (w : DocsApp.World) (es : list DocsApp.Event)
  : list jsstring :=
  match es with
  | [] => []
  | e :: rest => docs_read w e ++ docs_requests (DocsApp.step w e) rest
  end.

Fixpoint simple_requests (w : SimpleSocket.World) (es : list SimpleSocket.Event)
  : list jsstring :=
  match es with
  | [] => []
  | e :: rest => simple_read w e ++ simple_requests (SimpleSocket.step w e) rest
  end.

(** The same notions for the minimal client. *)
Definition simple_clicks (es : list SimpleSocket.Event) : nat :=
  length (omap (fun e => match e with SimpleSocket.Click => Some tt | _ => None end) es).

Definition simple_states (w : SimpleSocket.World) : list ReadyState :=
  readyState <$> SimpleSocket.sockets w.

Definition simple_wired (w : SimpleSocket.World) : Prop :=
  (forall i r, simple_states w !! i = Some r -> r = CONNECTING \/ r = OPEN ->
               SimpleSocket.socket w = Some i)
  /\ (SimpleSocket.downloadBtn_disabled w = false ->
      forall i, simple_states w !! i <> Some CONNECTING).

(** A frame of type "error", or of type "result" with a string as text. *)
Definition simple_enabling_frame (data : option json) : bool :=
  match data with
  | Some d =>
      match get_prop d (lit "type") with
      | Some ty =>
          is_str (lit "error") ty
          || (is_str (lit "result") ty
              && match SimpleSocket.prop d (lit "text") with
                 | J (JStr _) => true
                 | _ => false
                 end)
      | None => false
      end
  | None => false
  end.

Definition simple_enabling_event (e : SimpleSocket.Event) : bool :=
  match e with
  | SimpleSocket.SockMessage _ data => simple_enabling_frame data
  | _ => false
  end.

(** A word: not empty and free of white space. *)
Definition is_word (w : jsstring) : Prop :=
  w <> [] /\ Forall (fun c => is_white_space c = false) w.

(** No two neighbouring code units are both white space. *)
Fixpoint no_adjacent_ws (s : jsstring) : bool :=
  match s with
  | c :: (d :: _) as r => negb (is_white_space c && is_white_space d) && no_adjacent_ws r
  | _ => true
  end.

(** ** Notions for the outcome of a reservation request *)

(** What a request shows of its result: the text, the copy controls and the
    completion dialog. *)
Definition result_state (w : ReservationApp.World) :=
  (ReservationApp.fullText w, ReservationApp.latestText w,
   ReservationApp.copyButton_disabled w, ReservationApp.copyPromptButton_disabled w,
   ReservationApp.completionModal w, ReservationApp.modalTitle w,
   ReservationApp.modalMessage w).

(** The result is cleared: no text, copy controls disabled. *)
Definition cleared (before after : ReservationApp.World) : Prop :=
  ReservationApp.fullText after = []
  /\ ReservationApp.latestText after = J (JStr [])
  /\ ReservationApp.copyButton_disabled after = true
  /\ ReservationApp.copyPromptButton_disabled after
     = (fun _ => true) <$> ReservationApp.copyPromptButton_disabled before.

(** The result shows the payload [data] of the result request. *)
Definition shows (data : json) (before after : ReservationApp.World) : Prop :=
  let text := val_or (DocsApp.prop data (lit "text")) (J (JStr [])) in
  let language := DocsApp.prop data (lit "language") in
  ReservationApp.latestText after = text
  /\ ReservationApp.fullText after = to_string text
  /\ ReservationApp.copyButton_disabled after = negb (truthy text)
  /\ ReservationApp.copyPromptButton_disabled after
     = (fun _ => negb (truthy text)) <$> ReservationApp.copyPromptButton_disabled before
  /\ ReservationApp.statusEl after
     = lit "Status: Completed (language: "
         ++ to_string (val_or language (J (JStr (lit "unknown")))) ++ lit ")".

(** The completion dialog is open with the given tone and title. *)
Definition dialog_open (tone : ReservationApp.Tone) (title : jsstring)
    (w : ReservationApp.World) : Prop :=
  ReservationApp.completionModal w
  = Some {| ReservationApp.modal_tone := Some tone; ReservationApp.is_visible := true;
            ReservationApp.aria_hidden := false |}
  /\ ReservationApp.modalTitle w = Some title.

(** The page has the three elements of the completion dialog. *)
Definition has_dialog (w : ReservationApp.World) : Prop :=
  is_Some (ReservationApp.completionModal w)
  /\ is_Some (ReservationApp.modalTitle w)
  /\ is_Some (ReservationApp.modalMessage w).

(** ** Log events and log frames with a message *)

(** The [log] event of the event stream that carries [message]. *)
Definition log_event (message : jsstring) : ReservationApp.SseEvent :=
  ReservationApp.EvLog (Some (JObj [(lit "message", JStr message)])).

(** The [log] frame of the socket that carries [message]. *)
Definition log_frame (message : jsstring) : option json :=
  Some (JObj [(lit "type", JStr (lit "log")); (lit "message", JStr message)]).

(** The line both clients add to the log for such a message. *)
Definition backend_line (message : jsstring) : LogEntry :=
  (info, lit "Backend: " ++ message).

(** The events of a stream before its first terminal event. *)
Fixpoint until_terminal (evs : list ReservationApp.SseEvent)
  : list ReservationApp.SseEvent :=
  match evs with
  | [] => []
  | ev :: rest => if is_terminal ev then [] else ev :: until_terminal rest
  end.

(** The line an event of the stream adds to the log of the reservation
    client: one for [open]; for a [log] event the backend's message, empty
    when the payload has no truthy [message], a warning when the data is no
    JSON, and none when the payload is the JSON [null], on which the
    listener throws; none for any other event. *)
Definition stream_line (ev : ReservationApp.SseEvent) : list LogEntry :=
  match ev with
  | ReservationApp.EvOpen => [(info, lit "Frontend: Event stream connected.")]
  | ReservationApp.EvLog None =>
      [(warn, lit "Frontend: Received invalid log event payload.")]
  | ReservationApp.EvLog (Some JNull) => []
  | ReservationApp.EvLog (Some d) =>
      [backend_line (to_string (val_or (DocsApp.prop d (lit "message")) (J (JStr []))))]
  | _ => []
  end.

(** * Properties *)

(** ** Strings *)

Lemma str_truthy_false (s : jsstring) : str_truthy s = false <-> s = [].
Proof. destruct s; simpl; split; congruence. Qed.

Lemma str_truthy_true (s : jsstring) : str_truthy s = true <-> s <> [].
Proof. destruct s; simpl; split; congruence. Qed.

Lemma trimStart_head (s : jsstring) :
  match trimStart s with
  | [] => True
  | c :: _ => is_white_space c = false
  end.
Proof.
  induction s as [|c s IH]; simpl; [exact I|].
  destruct (is_white_space c) eqn:E; [exact IH|exact E].
Qed.

Lemma trimEnd_fixed (s : jsstring) : trimEnd (trimEnd s) = trimEnd s.
Proof.
  induction s as [|c s IH]; simpl; [reflexivity|].
  destruct (trimEnd s) as [|d t] eqn:E.
  - destruct (is_white_space c) eqn:Ec; simpl; [reflexivity|now rewrite Ec].
  - simpl in *. rewrite IH. reflexivity.
Qed.

Lemma trimEnd_head (s : jsstring) (c : N) :
  is_white_space c = false -> trimEnd (c :: s) = c :: trimEnd s.
Proof. intros Hc. simpl. rewrite Hc. now destruct (trimEnd s). Qed.

Lemma trimStart_trimEnd (s : jsstring) :
  trimStart (trimEnd s) = trimEnd (trimStart s).
Proof.
  induction s as [|c s IH]; simpl; [reflexivity|].
  destruct (is_white_space c) eqn:Ec.
  - rewrite <- IH. destruct (trimEnd s); simpl; rewrite ?Ec; reflexivity.
  - rewrite (trimEnd_head _ _ Ec). destruct (trimEnd s); simpl; rewrite ?Ec; reflexivity.
Qed.

(** Trimming twice changes nothing. *)
Lemma trim_fixed (s : jsstring) : trim (trim s) = trim s.
Proof.
  unfold trim. rewrite (trimStart_trimEnd (trimStart s)).
  assert (Hid : forall t, trimStart (trimStart t) = trimStart t).
  { intros t. pose proof (trimStart_head t) as Ht.
    destruct (trimStart t) as [|c r]; simpl; [reflexivity|now rewrite Ht]. }
  rewrite Hid, trimEnd_fixed. reflexivity.
Qed.

Lemma sanitizeWatchId_trim (v : jsstring) : sanitizeWatchId v = trim v.
Proof. unfold sanitizeWatchId. now destruct (trim v). Qed.

(** ** White-space runs, by words *)

Lemma words_head (c : N) (s : jsstring) :
  is_white_space c = false -> exists w r, words (c :: s) = (c :: w) :: r.
Proof.
  intros Hc. simpl. rewrite Hc. destruct s as [|c' s']; [now exists [], []|].
  destruct (is_white_space c'); [now exists [], (words (c' :: s'))|].
  destruct (words (c' :: s')) as [|w r]; [now exists [], []|now exists w, r].
Qed.

Lemma words_trimStart (s : jsstring) : words (trimStart s) = words s.
Proof.
  induction s as [|c s IH]; [reflexivity|].
  cbn [trimStart]. destruct (is_white_space c) eqn:Ec; [|reflexivity].
  rewrite IH. simpl. now rewrite Ec.
Qed.

Lemma unwords_cons_head (c : N) (w : jsstring) (r : list jsstring) :
  unwords ((c :: w) :: r) = c :: unwords (w :: r).
Proof. simpl. now destruct r. Qed.

Lemma unwords_nil (s : jsstring) : unwords (words s) = [] -> words s = [].
Proof.
  induction s as [|c s IH]; [reflexivity|].
  destruct (is_white_space c) eqn:Ec.
  - simpl. rewrite Ec. exact IH.
  - destruct (words_head c s Ec) as (w & r & ->). rewrite unwords_cons_head. discriminate.
Qed.

(** [trimEnd] after the replacement, started inside and outside a run. *)
Lemma trimEnd_replace (s : jsstring) :
  trimEnd (replace_ws_runs true s) = unwords (words s)
  /\ trimEnd (replace_ws_runs false s) =
       match s with
       | [] => []
       | c :: _ =>
           if is_white_space c
           then match words s with [] => [] | _ => SPACE :: unwords (words s) end
           else unwords (words s)
       end.
Proof.
  induction s as [|c s [IHt IHf]]; [split; reflexivity|].
  destruct (is_white_space c) eqn:Ec.
  - assert (Hw : words (c :: s) = words s) by (simpl; now rewrite Ec).
    rewrite Hw. cbn [replace_ws_runs]. rewrite Ec. split; [exact IHt|].
    cbn [trimEnd]. rewrite IHt.
    destruct (unwords (words s)) as [|d t] eqn:Eu.
    + apply unwords_nil in Eu. now rewrite Eu.
    + destruct (words s); [discriminate|reflexivity].
  - assert (Hkey : c :: trimEnd (replace_ws_runs false s) = unwords (words (c :: s))).
    { rewrite IHf. destruct s as [|c' s']; [simpl; now rewrite Ec|].
      destruct (is_white_space c') eqn:Ec'.
      - cbn [words]. rewrite Ec, Ec'. now destruct (words s').
      - destruct (words_head c' s' Ec') as (w & r & Hw).
        cbn [words]. rewrite Ec, Ec'. cbn [words] in Hw. rewrite Ec' in Hw.
        rewrite Hw. symmetry. apply unwords_cons_head. }
    cbn [replace_ws_runs]. rewrite Ec, (trimEnd_head _ _ Ec). now split.
Qed.

Lemma trimStart_replace (b : bool) (s : jsstring) :
  trimStart (replace_ws_runs b s) = replace_ws_runs false (trimStart s).
Proof.
  revert b. induction s as [|c s IH]; intros b; [reflexivity|].
  cbn [replace_ws_runs trimStart]. destruct (is_white_space c) eqn:Ec.
  - destruct b; [apply IH|]. cbn [trimStart]. change (is_white_space SPACE) with true.
    cbv iota. apply IH.
  - cbn [trimStart replace_ws_runs]. now rewrite Ec.
Qed.

Lemma normalized_words (text : jsstring) :
  SimpleSocket.normalized text = unwords (words text).
Proof.
  unfold SimpleSocket.normalized, trim. rewrite trimStart_replace.
  destruct (trimEnd_replace (trimStart text)) as [_ Hf]. rewrite Hf.
  pose proof (trimStart_head text) as Hh. rewrite <- (words_trimStart text).
  destruct (trimStart text) as [|c r]; [reflexivity|]. now rewrite Hh.
Qed.

Lemma last_chars_drop (k : nat) (s : jsstring) :
  drop (length s - k) s = last_chars k s.
Proof. unfold last_chars. rewrite firstn_rev, rev_involutive. reflexivity. Qed.

(** C10. [setPreview] collapses every white-space run of its input to one
    space and trims it (the words joined by single spaces); the beginning
    excerpt is the first 400 code units of that text, the ending excerpt
    its last 400 when it is longer than 400 and the whole text otherwise;
    both show "-" when the text is empty. *)
Theorem setPreview_excerpts (text : jsstring) (w : SimpleSocket.World) :
  let n := unwords (words text) in
  SimpleSocket.normalized text = n
  /\ exists w',
       SimpleSocket.setPreview (J (JStr text)) w = Some w'
       /\ SimpleSocket.subtitleStart w' =
            (if decide (n = []) then lit "-" else first_chars 400 n)
       /\ SimpleSocket.subtitleEnd w' =
            (if decide (n = []) then lit "-"
             else if decide (400 < length n) then last_chars 400 n else n).
Proof.
  intros n. split; [apply normalized_words|].
  eexists. split; [reflexivity|]. cbn [SimpleSocket.subtitleStart
    SimpleSocket.subtitleEnd SimpleSocket.set_subtitleEnd SimpleSocket.set_subtitleStart].
  unfold SimpleSocket.preview_start, SimpleSocket.preview_end.
  rewrite normalized_words. fold n. unfold SimpleSocket.previewSize, slice_to, slice_from,
    str_or, first_chars.
  split.
  - destruct (decide (n = [])) as [->|Hn]; [reflexivity|].
    destruct n; [congruence|reflexivity].
  - destruct (decide (n = [])) as [->|Hn]; [reflexivity|].
    destruct (Nat.ltb_spec 400 (length n)) as [Hlt|Hge].
    + rewrite decide_True by exact Hlt. rewrite Nat.max_0_l. apply last_chars_drop.
    + rewrite decide_False by lia. destruct n; [congruence|reflexivity].
Qed.


(** ** Prefixes and suffixes *)

Lemma startsWith_app (p s : jsstring) : startsWith p (p ++ s) = true.
Proof. induction p as [|a p IH]; simpl; [reflexivity|]. now rewrite N.eqb_refl. Qed.

Lemma endsWith_app (p s : jsstring) : endsWith p (s ++ p) = true.
Proof. unfold endsWith. rewrite rev_app_distr. apply startsWith_app. Qed.

Lemma startsWith_ci_app (p s t : jsstring) :
  startsWith_ci (p ++ s) t = true -> startsWith_ci p t = true.
Proof.
  revert t. induction p as [|a p IH]; intros t; [reflexivity|].
  destruct t as [|b t]; simpl; [discriminate|].
  destruct (a =? ascii_lower b)%N; simpl; [apply IH|discriminate].
Qed.

Lemma startsWith_ci_nonempty (a : N) (p t : jsstring) :
  startsWith_ci (a :: p) t = true -> t <> [].
Proof. destruct t; simpl; congruence. Qed.

(** Two patterns with different first letters do not both match. *)
Lemma startsWith_ci_first (a b : N) (p q t : jsstring) :
  a <> b -> startsWith_ci (a :: p) t = true -> startsWith_ci (b :: q) t = false.
Proof.
  intros Hab. destruct t as [|c t]; simpl; [discriminate|].
  destruct (N.eqb_spec a (ascii_lower c)) as [->|]; simpl; [|discriminate].
  intros _. destruct (N.eqb_spec b (ascii_lower c)); [congruence|reflexivity].
Qed.

(** ** normalizeSocketUrl *)
Section NormalizeSocketUrl.
Context `{UrlLaws}.

Lemma defaultSocketUrl_scheme :
  startsWith (lit "ws://") DocsApp.defaultSocketUrl
  || startsWith (lit "wss://") DocsApp.defaultSocketUrl = true.
Proof. unfold DocsApp.defaultSocketUrl. case_bool_decide; reflexivity. Qed.

Lemma defaultSocketUrl_path : endsWith (lit "/ws") DocsApp.defaultSocketUrl = true.
Proof. unfold DocsApp.defaultSocketUrl. rewrite !app_assoc. apply endsWith_app. Qed.

Lemma http_not_ws (scheme t : jsstring) :
  In scheme http_schemes ->
  startsWith_ci (scheme ++ lit "://") t = true ->
  startsWith_ci (lit "ws://") t || startsWith_ci (lit "wss://") t = false.
Proof.
  intros Hs Ht. assert (Hh : startsWith_ci [104%N] t = true).
  { destruct Hs as [<-|[<-|[]]]; revert Ht; apply (startsWith_ci_app [104%N]). }
  assert (Hne : 104%N <> 119%N) by lia.
  assert (H1 : startsWith_ci (lit "ws://") t = false)
    by exact (startsWith_ci_first 104 119 [] (lit "s://") t Hne Hh).
  assert (H2 : startsWith_ci (lit "wss://") t = false)
    by exact (startsWith_ci_first 104 119 [] (lit "ss://") t Hne Hh).
  now rewrite H1, H2.
Qed.

Lemma http_prefix (scheme t : jsstring) :
  In scheme http_schemes ->
  startsWith_ci (scheme ++ lit "://") t = true ->
  startsWith_ci (lit "http://") t || startsWith_ci (lit "https://") t = true.
Proof.
  intros [<-|[<-|[]]] Ht.
  - change (startsWith_ci (lit "http://") t = true) in Ht. now rewrite Ht.
  - change (startsWith_ci (lit "https://") t = true) in Ht.
    rewrite Ht. apply orb_true_r.
Qed.

(** Whatever [parse_socket_url] returns is a ws or wss URL. *)
Lemma parse_socket_url_scheme (trimmed : jsstring) (u : URL) :
  DocsApp.parse_socket_url trimmed = Some u ->
  exists scheme, In scheme ws_schemes /\ url_protocol u = scheme ++ lit ":".
Proof.
  unfold DocsApp.parse_socket_url.
  destruct (startsWith_ci (lit "ws://") trimmed) eqn:Ews; cbn [orb].
  { intros Hu. exists (lit "ws"). split; [now left|].
    apply (new_URL_protocol (lit "ws") trimmed); [now left|exact Ews|exact Hu]. }
  destruct (startsWith_ci (lit "wss://") trimmed) eqn:Ewss.
  { intros Hu. exists (lit "wss"). split; [right; now left|].
    apply (new_URL_protocol (lit "wss") trimmed); [right; now left|exact Ewss|exact Hu]. }
  destruct (startsWith_ci (lit "http://") trimmed) eqn:Ehttp; cbn [orb].
  { destruct (new_URL trimmed) as [u0|] eqn:Hu0; [|discriminate].
    intros [= <-].
    pose proof (new_URL_protocol (lit "http") trimmed u0) as Hp.
    rewrite Hp by (try exact Ehttp; try exact Hu0; right; right; now left).
    destruct (set_protocol_socket (lit "http") u0) as (Hp' & _);
      [now left|now apply Hp; [right; right; left| |]|].
    exists (lit "ws"). split; [now left|]. exact Hp'. }
  destruct (startsWith_ci (lit "https://") trimmed) eqn:Ehttps.
  { destruct (new_URL trimmed) as [u0|] eqn:Hu0; [|discriminate].
    intros [= <-].
    pose proof (new_URL_protocol (lit "https") trimmed u0) as Hp.
    rewrite Hp by (try exact Ehttps; try exact Hu0; right; right; right; now left).
    destruct (set_protocol_socket (lit "https") u0) as (Hp' & _);
      [right; now left|now apply Hp; [right; right; right; left| |]|].
    exists (lit "wss"). split; [right; now left|]. exact Hp'. }
  intros Hu. case_bool_decide.
  - exists (lit "wss"). split; [right; now left|].
    apply (new_URL_protocol (lit "wss") _ u) in Hu; [exact Hu|right; now left|reflexivity].
  - exists (lit "ws"). split; [now left|].
    apply (new_URL_protocol (lit "ws") _ u) in Hu; [exact Hu|now left|reflexivity].
Qed.

(** [with_ws_path] keeps scheme, host and port and makes the path end in
    "/ws". *)
Lemma with_ws_path_spec (scheme : jsstring) (u : URL) :
  In scheme ws_schemes ->
  url_protocol u = scheme ++ lit ":" ->
  let u' := DocsApp.with_ws_path u in
  url_protocol u' = url_protocol u
  /\ url_hostname u' = url_hostname u
  /\ url_port u' = url_port u
  /\ endsWith (lit "/ws") (url_pathname u') = true.
Proof.
  intros Hs Hp. unfold DocsApp.with_ws_path.
  destruct (negb (str_truthy (url_pathname u)) || bool_decide (url_pathname u = lit "/")).
  { apply (set_pathname_ws scheme); [exact Hs|exact Hp|reflexivity]. }
  destruct (endsWith (lit "/ws") (url_pathname u)) eqn:Ee; cbn [negb].
  - now repeat split.
  - apply (set_pathname_ws scheme); [exact Hs|exact Hp|apply endsWith_app].
Qed.

Lemma ws_scheme_prefix (scheme : jsstring) (u : URL) :
  In scheme ws_schemes ->
  url_protocol u = scheme ++ lit ":" ->
  startsWith (lit "ws://") (url_toString u)
  || startsWith (lit "wss://") (url_toString u) = true.
Proof.
  intros Hs Hp. pose proof (url_toString_scheme u) as Ht. rewrite Hp in Ht.
  destruct Hs as [<-|[<-|[]]].
  - change (startsWith (lit "ws://") (url_toString u) = true) in Ht. now rewrite Ht.
  - change (startsWith (lit "wss://") (url_toString u) = true) in Ht.
    rewrite Ht. apply orb_true_r.
Qed.


End NormalizeSocketUrl.

(** ** The sample browser obeys the URL laws *)

Lemma ascii_lower_colon (b : N) :
  ascii_lower b = SampleBrowser.COLON -> b = SampleBrowser.COLON.
Proof.
  unfold ascii_lower, SampleBrowser.COLON.
  destruct (N.leb_spec 65 b), (N.leb_spec b 90); simpl; lia.
Qed.

Lemma until_colon_ci (sc p s : jsstring) :
  Forall (fun a => a <> SampleBrowser.COLON) sc ->
  startsWith_ci (sc ++ SampleBrowser.COLON :: p) s = true ->
  map ascii_lower (SampleBrowser.until SampleBrowser.COLON s).1 = sc.
Proof.
  intros Hsc. revert s. induction Hsc as [|a sc Ha Hsc IH]; intros s Hs.
  - destruct s as [|b s]; [discriminate|]. cbn [app startsWith_ci] in Hs.
    apply andb_true_iff in Hs as [Hb _]. apply N.eqb_eq in Hb.
    symmetry in Hb. apply ascii_lower_colon in Hb. subst b. reflexivity.
  - destruct s as [|b s]; [discriminate|]. cbn [app startsWith_ci] in Hs.
    apply andb_true_iff in Hs as [Hb Hs]. apply N.eqb_eq in Hb.
    cbn [SampleBrowser.until].
    destruct (N.eqb_spec b SampleBrowser.COLON) as [->|Hne].
    + exfalso. apply Ha. rewrite Hb. reflexivity.
    + specialize (IH s Hs).
      destruct (SampleBrowser.until SampleBrowser.COLON s) as [x y].
      cbn [fst map] in *. now rewrite IH, Hb.
Qed.

Lemma startsWith_app_r (p s t : jsstring) :
  startsWith p s = true -> startsWith p (s ++ t) = true.
Proof.
  revert s. induction p as [|a p IH]; intros s; [reflexivity|].
  destruct s as [|b s]; simpl; [discriminate|].
  destruct (a =? b)%N; simpl; [apply IH|discriminate].
Qed.

Lemma endsWith_app_l (p s t : jsstring) :
  endsWith p s = true -> endsWith p (t ++ s) = true.
Proof. unfold endsWith. rewrite rev_app_distr. apply startsWith_app_r. Qed.

Lemma sample_browser_laws : UrlLaws (H := SampleBrowser.browser).
Proof.
  split.
  - intros scheme s u Hin Hs. cbn [new_URL url_protocol SampleBrowser.browser].
    unfold SampleBrowser.parse.
    assert (Hsc : map ascii_lower (SampleBrowser.until SampleBrowser.COLON s).1 = scheme).
    { apply (until_colon_ci scheme (lit "//")).
      - destruct Hin as [<-|[<-|[<-|[<-|[]]]]];
          vm_compute; repeat (constructor; [intros Hc; discriminate Hc|]); constructor.
      - exact Hs. }
    destruct (SampleBrowser.until SampleBrowser.COLON s) as [sch rest]. cbn [fst] in Hsc.
    rewrite Hsc.
    destruct (bool_decide (scheme ∈ SampleBrowser.special_schemes)
              && startsWith (lit "://") rest); [|discriminate].
    destruct (SampleBrowser.until SLASH (drop 3 rest)) as [authority path].
    destruct (SampleBrowser.until SampleBrowser.COLON authority) as [host port].
    destruct (str_truthy host); [|discriminate]. now intros [= <-].
  - intros scheme u _ _. cbn. now repeat split.
  - intros scheme p u _ _ Hp.
    cbn [url_protocol url_hostname url_port url_pathname set_pathname
         SampleBrowser.browser SampleBrowser.with_pathname SampleBrowser.u_protocol
         SampleBrowser.u_hostname SampleBrowser.u_port SampleBrowser.u_pathname].
    repeat split.
    destruct (startsWith (lit "/") p); [exact Hp|]. now apply endsWith_app_l.
  - intros u. cbn [url_protocol url_toString SampleBrowser.browser].
    unfold SampleBrowser.href. rewrite app_assoc. apply startsWith_app.
Qed.


(** ** Sockets *)

(** Reading a field through the setters. *)
Ltac docs_simpl :=
  cbn [DocsApp.statusEl DocsApp.logEl DocsApp.backendAddressInput
       DocsApp.watchIdInput DocsApp.downloadButton_disabled
       DocsApp.copyButton_disabled DocsApp.summaryBeginning DocsApp.summaryEnding
       DocsApp.fullText DocsApp.socket DocsApp.latestText DocsApp.sockets
       DocsApp.localStorage DocsApp.set_statusEl DocsApp.set_logEl
       DocsApp.set_backendAddressInput DocsApp.set_watchIdInput
       DocsApp.set_downloadButton_disabled DocsApp.set_copyButton_disabled
       DocsApp.set_summaryBeginning DocsApp.set_summaryEnding DocsApp.set_fullText
       DocsApp.set_socket DocsApp.set_latestText DocsApp.set_sockets
       DocsApp.set_localStorage DocsApp.appendLog DocsApp.setStatus] in *.

Ltac simple_simpl :=
  cbn [SimpleSocket.statusEl SimpleSocket.logArea SimpleSocket.downloadBtn_disabled
       SimpleSocket.copyBtn_disabled SimpleSocket.videoIdInput
       SimpleSocket.languageEl SimpleSocket.subtitleStart SimpleSocket.subtitleEnd
       SimpleSocket.socket SimpleSocket.fullSubtitle SimpleSocket.sockets
       SimpleSocket.set_statusEl SimpleSocket.set_logArea
       SimpleSocket.set_downloadBtn_disabled SimpleSocket.set_copyBtn_disabled
       SimpleSocket.set_videoIdInput SimpleSocket.set_languageEl
       SimpleSocket.set_subtitleStart SimpleSocket.set_subtitleEnd
       SimpleSocket.set_socket SimpleSocket.set_fullSubtitle SimpleSocket.set_sockets
       SimpleSocket.appendLog SimpleSocket.setStatus] in *.

Ltac resv_simpl :=
  cbn [ReservationApp.statusEl ReservationApp.logEl
       ReservationApp.backendAddressInput ReservationApp.watchIdInput
       ReservationApp.downloadButton_disabled ReservationApp.copyButton_disabled
       ReservationApp.copyPromptButton_disabled ReservationApp.promptTemplateInput
       ReservationApp.fullText ReservationApp.latestText
       ReservationApp.completionModal ReservationApp.modalTitle
       ReservationApp.modalMessage ReservationApp.localStorage ReservationApp.calls
       ReservationApp.set_statusEl ReservationApp.set_logEl
       ReservationApp.set_backendAddressInput ReservationApp.set_watchIdInput
       ReservationApp.set_downloadButton_disabled
       ReservationApp.set_copyButton_disabled
       ReservationApp.set_copyPromptButton_disabled
       ReservationApp.set_promptTemplateInput ReservationApp.set_fullText
       ReservationApp.set_latestText ReservationApp.set_completionModal
       ReservationApp.set_modalTitle ReservationApp.set_modalMessage
       ReservationApp.set_localStorage ReservationApp.set_calls
       ReservationApp.appendLog ReservationApp.setStatus] in *.

Lemma is_open_inv (l : list WebSocket) (h : option nat) :
  is_open l h = true ->
  exists i s, h = Some i /\ l !! i = Some s /\ readyState s = OPEN.
Proof.
  unfold is_open. destruct h as [i|]; [|discriminate].
  destruct (l !! i) as [s|] eqn:Hs; [|discriminate].
  intros Hb. apply bool_decide_eq_true in Hb. now exists i, s.
Qed.

Lemma insert_alter_same {A} (f : A -> A) (x : A) (i : nat) (l : list A) :
  <[i := x]> (alter f i l) = <[i := x]> l.
Proof. rewrite !list_insert_alter, list_alter_alter_eq. reflexivity. Qed.

(** No frame changes the socket table or the variable [socket]. *)
Lemma docs_on_message_sockets (data : option json) (w : DocsApp.World) :
  DocsApp.sockets (DocsApp.on_message data w) = DocsApp.sockets w
  /\ DocsApp.socket (DocsApp.on_message data w) = DocsApp.socket w
  /\ DocsApp.watchIdInput (DocsApp.on_message data w) = DocsApp.watchIdInput w.
Proof.
  unfold DocsApp.on_message. destruct data as [d|]; [|now repeat split].
  destruct (get_prop d (lit "type")) as [ty|]; [|now repeat split].
  destruct (is_str (lit "log") ty); [now repeat split|].
  destruct (is_str (lit "error") ty); [now repeat split|].
  destruct (is_str (lit "result") ty); now repeat split.
Qed.

Lemma simple_on_message_sockets (data : option json) (w : SimpleSocket.World) :
  SimpleSocket.sockets (SimpleSocket.on_message data w) = SimpleSocket.sockets w
  /\ SimpleSocket.socket (SimpleSocket.on_message data w) = SimpleSocket.socket w
  /\ SimpleSocket.videoIdInput (SimpleSocket.on_message data w)
     = SimpleSocket.videoIdInput w.
Proof.
  unfold SimpleSocket.on_message. destruct data as [d|]; [|now repeat split].
  destruct (get_prop d (lit "type")) as [ty|]; [|now repeat split].
  destruct (is_str (lit "log") ty), (is_str (lit "error") ty),
    (is_str (lit "result") ty); cbn zeta;
    try (now repeat split);
    match goal with
    | |- context [SimpleSocket.setPreview ?t ?x] =>
        unfold SimpleSocket.setPreview; destruct t as [|[]]; now repeat split
    end.
Qed.

(** A click on an open socket: the socket is kept and the frame goes out
    on it. *)
Lemma docs_click_open `{Platform} (w : DocsApp.World) (i : nat) (s : WebSocket) :
  DocsApp.socket w = Some i ->
  DocsApp.sockets w !! i = Some s ->
  readyState s = OPEN ->
  trim (DocsApp.watchIdInput w) <> [] ->
  let id := trim (DocsApp.watchIdInput w) in
  let w' := DocsApp.downloadButton_click w in
  DocsApp.socket w' = Some i
  /\ DocsApp.sockets w' =
       <[i := push_sent (DocsApp.download_frame id) (push_once_open id s)]>
         (DocsApp.sockets w).
Proof.
  intros Hsock Hs Hopen Hid id w'. subst w'. unfold DocsApp.downloadButton_click.
  rewrite sanitizeWatchId_trim. fold id.
  destruct (str_truthy id) eqn:Et; [|apply str_truthy_false in Et; contradiction].
  cbn [negb]. unfold DocsApp.connectSocket. docs_simpl.
  assert (Ho : is_open (DocsApp.sockets w) (DocsApp.socket w) = true).
  { unfold is_open. rewrite Hsock, Hs. now apply bool_decide_eq_true. }
  rewrite Ho, Hsock. docs_simpl.
  assert (Ho' : is_open (alter (push_once_open id) i (DocsApp.sockets w)) (Some i) = true).
  { unfold is_open. rewrite list_lookup_alter_eq, Hs. now apply bool_decide_eq_true. }
  rewrite Ho'. unfold DocsApp.send_request, ws_send. docs_simpl.
  rewrite list_lookup_alter_eq, Hs. cbn [fmap option_fmap option_map push_once_open readyState].
  rewrite Hopen. docs_simpl.
  split; [exact Hsock|]. apply insert_alter_same.
Qed.

Lemma simple_click_open (w : SimpleSocket.World) (i : nat) (s : WebSocket) :
  SimpleSocket.socket w = Some i ->
  SimpleSocket.sockets w !! i = Some s ->
  readyState s = OPEN ->
  trim (SimpleSocket.videoIdInput w) <> [] ->
  let id := trim (SimpleSocket.videoIdInput w) in
  let w' := SimpleSocket.downloadBtn_click w in
  SimpleSocket.socket w' = Some i
  /\ SimpleSocket.sockets w' =
       <[i := push_sent (SimpleSocket.download_frame id) s]> (SimpleSocket.sockets w).
Proof.
  intros Hsock Hs Hopen Hid id w'. subst w'. unfold SimpleSocket.downloadBtn_click.
  fold id. destruct (str_truthy id) eqn:Et; [|apply str_truthy_false in Et; contradiction].
  cbn [negb]. unfold SimpleSocket.connectSocket. simple_simpl.
  assert (Ho : is_open (SimpleSocket.sockets w) (SimpleSocket.socket w) = true).
  { unfold is_open. rewrite Hsock, Hs. now apply bool_decide_eq_true. }
  rewrite Ho. simple_simpl. rewrite Ho. cbn [negb].
  unfold SimpleSocket.send_on_current, ws_send. simple_simpl.
  rewrite Hsock, Hs, Hopen. simple_simpl. now split.
Qed.

(** C7. A frame, terminal or not, leaves every socket as it is: nothing is
    closed and the variable [socket] still names the same connection. A
    download request made afterwards on that open connection creates no
    socket and sends its start command on the existing one. Both socket
    clients. *)
Theorem terminal_frame_keeps_socket `{Platform}
    (data : option json) (wd : DocsApp.World) (data' : option json)
    (ws : SimpleSocket.World) :
  is_open (DocsApp.sockets wd) (DocsApp.socket wd) = true ->
  trim (DocsApp.watchIdInput wd) <> [] ->
  is_open (SimpleSocket.sockets ws) (SimpleSocket.socket ws) = true ->
  trim (SimpleSocket.videoIdInput ws) <> [] ->
  let wd1 := DocsApp.on_message data wd in
  let wd2 := DocsApp.downloadButton_click wd1 in
  let ws1 := SimpleSocket.on_message data' ws in
  let ws2 := SimpleSocket.downloadBtn_click ws1 in
  (DocsApp.sockets wd1 = DocsApp.sockets wd
   /\ DocsApp.socket wd1 = DocsApp.socket wd
   /\ DocsApp.socket wd2 = DocsApp.socket wd
   /\ length (DocsApp.sockets wd2) = length (DocsApp.sockets wd)
   /\ exists i s,
        DocsApp.socket wd = Some i /\ DocsApp.sockets wd !! i = Some s
        /\ readyState s = OPEN
        /\ DocsApp.sockets wd2 =
             <[i := push_sent (DocsApp.download_frame (trim (DocsApp.watchIdInput wd)))
                      (push_once_open (trim (DocsApp.watchIdInput wd)) s)]>
               (DocsApp.sockets wd))
  /\ (SimpleSocket.sockets ws1 = SimpleSocket.sockets ws
      /\ SimpleSocket.socket ws1 = SimpleSocket.socket ws
      /\ SimpleSocket.socket ws2 = SimpleSocket.socket ws
      /\ length (SimpleSocket.sockets ws2) = length (SimpleSocket.sockets ws)
      /\ exists i s,
           SimpleSocket.socket ws = Some i /\ SimpleSocket.sockets ws !! i = Some s
           /\ readyState s = OPEN
           /\ SimpleSocket.sockets ws2 =
                <[i := push_sent
                         (SimpleSocket.download_frame (trim (SimpleSocket.videoIdInput ws)))
                         s]>
                  (SimpleSocket.sockets ws)).
Proof.
  intros Hod Hid Hos His wd1 wd2 ws1 ws2. split.
  - destruct (docs_on_message_sockets data wd) as (Hs1 & Hk1 & Hv1). fold wd1 in Hs1, Hk1, Hv1.
    destruct (is_open_inv _ _ Hod) as (i & s & Hi & Hs & Hopen).
    destruct (docs_click_open wd1 i s) as (Hk2 & Hs2);
      [congruence|congruence|exact Hopen|congruence|].
    fold wd2 in Hk2, Hs2. rewrite Hv1, Hs1 in Hs2.
    repeat split; [exact Hs1|exact Hk1|congruence|rewrite Hs2; apply length_insert|].
    exists i, s. now repeat split.
  - destruct (simple_on_message_sockets data' ws) as (Hs1 & Hk1 & Hv1).
    fold ws1 in Hs1, Hk1, Hv1.
    destruct (is_open_inv _ _ Hos) as (i & s & Hi & Hs & Hopen).
    destruct (simple_click_open ws1 i s) as (Hk2 & Hs2);
      [congruence|congruence|exact Hopen|congruence|].
    fold ws2 in Hk2, Hs2. rewrite Hv1, Hs1 in Hs2.
    repeat split; [exact Hs1|exact Hk1|congruence|rewrite Hs2; apply length_insert|].
    exists i, s. now repeat split.
Qed.

Lemma terminal_frame_keeps_socket_witness :
  let result :=
    Some (JObj [(lit "type", JStr (lit "result")); (lit "text", JStr (lit "hello"));
                (lit "language", JStr (lit "en"))]) in
  let wd :=
    DocsApp.run (H := SampleBrowser.browser) DocsApp.blank
      [DocsApp.UserTypesWatchId (lit "dQw4w9WgXcQ"); DocsApp.Click; DocsApp.SockOpen 0] in
  let ws :=
    SimpleSocket.run SimpleSocket.initial
      [SimpleSocket.UserTypesVideoId (lit "dQw4w9WgXcQ"); SimpleSocket.Click;
       SimpleSocket.SockOpen 0] in
  (is_open (DocsApp.sockets wd) (DocsApp.socket wd) = true
   /\ trim (DocsApp.watchIdInput wd) <> []
   /\ is_open (SimpleSocket.sockets ws) (SimpleSocket.socket ws) = true
   /\ trim (SimpleSocket.videoIdInput ws) <> [])
  /\ DocsApp.socket
       (DocsApp.downloadButton_click (H := SampleBrowser.browser)
          (DocsApp.on_message result wd)) = DocsApp.socket wd
  /\ SimpleSocket.socket
       (SimpleSocket.downloadBtn_click (SimpleSocket.on_message result ws))
     = SimpleSocket.socket ws.
Proof.
  intros result wd ws.
  assert (H1 : is_open (DocsApp.sockets wd) (DocsApp.socket wd) = true)
    by (vm_compute; reflexivity).
  assert (H2 : trim (DocsApp.watchIdInput wd) <> [])
    by (vm_compute; discriminate).
  assert (H3 : is_open (SimpleSocket.sockets ws) (SimpleSocket.socket ws) = true)
    by (vm_compute; reflexivity).
  assert (H4 : trim (SimpleSocket.videoIdInput ws) <> [])
    by (vm_compute; discriminate).
  split; [now repeat split|].
  destruct (terminal_frame_keeps_socket (H := SampleBrowser.browser)
              result wd result ws H1 H2 H3 H4)
    as ((_ & _ & Hd & _) & (_ & _ & Hs & _)).
  split; [exact Hd|exact Hs].
Defined.

(** ** Empty input *)

(** C4. When the trimmed input is empty, the click listener only sets the
    prompt status (and logs it): no socket is created, no frame is sent, no
    request is issued, and the request control and the result and copy
    state are left as they were. All three clients. *)
Theorem empty_input_click `{Platform} (v : jsstring) (net : ReservationApp.Backend)
    (wd0 : DocsApp.World) (wr0 : ReservationApp.World) (ws0 : SimpleSocket.World) :
  trim v = [] ->
  let wd := DocsApp.set_watchIdInput v wd0 in
  let wr := ReservationApp.set_watchIdInput v wr0 in
  let ws := SimpleSocket.set_videoIdInput v ws0 in
  let wd' := DocsApp.downloadButton_click wd in
  let wr' := (ReservationApp.downloadButton_click net wr).2 in
  let ws' := SimpleSocket.downloadBtn_click ws in
  (wd' = DocsApp.setStatus (lit "Please enter a watch ID or URL") wd
   /\ DocsApp.sockets wd' = DocsApp.sockets wd0
   /\ DocsApp.socket wd' = DocsApp.socket wd0
   /\ DocsApp.downloadButton_disabled wd' = DocsApp.downloadButton_disabled wd0
   /\ DocsApp.copyButton_disabled wd' = DocsApp.copyButton_disabled wd0
   /\ DocsApp.latestText wd' = DocsApp.latestText wd0
   /\ DocsApp.fullText wd' = DocsApp.fullText wd0
   /\ DocsApp.summaryBeginning wd' = DocsApp.summaryBeginning wd0
   /\ DocsApp.summaryEnding wd' = DocsApp.summaryEnding wd0)
  /\ (ReservationApp.downloadButton_click net wr
      = (ReservationApp.Returned tt,
         ReservationApp.setStatus (lit "Please enter a watch ID or URL") wr)
      /\ ReservationApp.calls wr' = ReservationApp.calls wr0
      /\ ReservationApp.downloadButton_disabled wr'
         = ReservationApp.downloadButton_disabled wr0
      /\ ReservationApp.copyButton_disabled wr' = ReservationApp.copyButton_disabled wr0
      /\ ReservationApp.copyPromptButton_disabled wr'
         = ReservationApp.copyPromptButton_disabled wr0
      /\ ReservationApp.latestText wr' = ReservationApp.latestText wr0
      /\ ReservationApp.fullText wr' = ReservationApp.fullText wr0)
  /\ (ws' = SimpleSocket.setStatus (lit "Video ID required") ws
      /\ SimpleSocket.sockets ws' = SimpleSocket.sockets ws0
      /\ SimpleSocket.socket ws' = SimpleSocket.socket ws0
      /\ SimpleSocket.downloadBtn_disabled ws' = SimpleSocket.downloadBtn_disabled ws0
      /\ SimpleSocket.copyBtn_disabled ws' = SimpleSocket.copyBtn_disabled ws0
      /\ SimpleSocket.fullSubtitle ws' = SimpleSocket.fullSubtitle ws0
      /\ SimpleSocket.subtitleStart ws' = SimpleSocket.subtitleStart ws0
      /\ SimpleSocket.subtitleEnd ws' = SimpleSocket.subtitleEnd ws0
      /\ SimpleSocket.languageEl ws' = SimpleSocket.languageEl ws0
      /\ SimpleSocket.logArea ws' = SimpleSocket.logArea ws0).
Proof.
  intros Hv wd wr ws wd' wr' ws'.
  assert (Hd : wd' = DocsApp.setStatus (lit "Please enter a watch ID or URL") wd).
  { subst wd' wd. unfold DocsApp.downloadButton_click. rewrite sanitizeWatchId_trim.
    docs_simpl. now rewrite Hv. }
  assert (Hr : ReservationApp.downloadButton_click net wr
               = (ReservationApp.Returned tt,
                  ReservationApp.setStatus (lit "Please enter a watch ID or URL") wr)).
  { subst wr. unfold ReservationApp.downloadButton_click. rewrite sanitizeWatchId_trim.
    resv_simpl. now rewrite Hv. }
  assert (Hs : ws' = SimpleSocket.setStatus (lit "Video ID required") ws).
  { subst ws' ws. unfold SimpleSocket.downloadBtn_click. simple_simpl. now rewrite Hv. }
  split; [|split].
  - split; [exact Hd|]. rewrite Hd. now repeat split.
  - split; [exact Hr|]. subst wr'. rewrite Hr. now repeat split.
  - split; [exact Hs|]. rewrite Hs. now repeat split.
Qed.

Lemma empty_input_click_witness :
  let v := [32%N; 9%N; 32%N] in
  trim v = []
  /\ DocsApp.downloadButton_click (H := SampleBrowser.browser)
       (DocsApp.set_watchIdInput v DocsApp.blank)
     = DocsApp.setStatus (lit "Please enter a watch ID or URL")
         (DocsApp.set_watchIdInput v DocsApp.blank).
Proof.
  intros v. assert (Hv : trim v = []) by reflexivity.
  split; [exact Hv|].
  exact (proj1 (proj1 (empty_input_click (H := SampleBrowser.browser) v
                         {| ReservationApp.post := fun _ _ => ReservationApp.NetworkError [];
                            ReservationApp.events := fun _ => [];
                            ReservationApp.get := fun _ => ReservationApp.NetworkError [] |}
                         DocsApp.blank ReservationApp.blank SimpleSocket.initial Hv))).
Defined.

(** ** Transport failure in the socket client *)

Lemma docs_stuck_state (w : DocsApp.World) (i : nat) :
  docs_stuck w ->
  DocsApp.socket_state w i = Some CLOSED \/ DocsApp.socket_state w i = None.
Proof.
  intros [_ Hall]. unfold DocsApp.socket_state.
  destruct (DocsApp.sockets w !! i) as [s|] eqn:Hs; [left|now right].
  cbn. f_equal. exact (Forall_lookup_1 _ _ _ _ Hall Hs).
Qed.

Lemma docs_stuck_step `{Platform} (w : DocsApp.World) (e : DocsApp.Event) :
  docs_stuck w -> docs_stuck (DocsApp.step w e).
Proof.
  intros Hw. pose proof Hw as [Hdis Hall].
  destruct e as [v|v| |i|i data|i|i]; cbn [DocsApp.step].
  - exact Hw.
  - destruct (DocsApp.backendAddressInput w); [|exact Hw].
    unfold DocsApp.backendAddress_change. docs_simpl.
    destruct (str_truthy (trim v)); exact Hw.
  - now rewrite Hdis.
  - destruct (docs_stuck_state w i Hw) as [-> | ->]; now case_decide.
  - destruct (docs_stuck_state w i Hw) as [-> | ->]; now case_decide.
  - now destruct (docs_stuck_state w i Hw) as [-> | ->].
  - now destruct (docs_stuck_state w i Hw) as [-> | ->].
Qed.

Lemma docs_stuck_run `{Platform} (es : list DocsApp.Event) (w : DocsApp.World) :
  docs_stuck w -> docs_stuck (DocsApp.run w es).
Proof.
  revert w. induction es as [|e es IH]; intros w Hw; [exact Hw|].
  cbn [DocsApp.run foldl]. apply IH, docs_stuck_step, Hw.
Qed.

(** C1, the socket client. The [close] and [error] listeners only log: they
    leave the request control as it is. In the session [failed_connection]
    the click disables the control, the connection fails, and the control
    is still disabled afterwards; no later event enables it again, since a
    disabled control takes no click and no frame can arrive. *)
Theorem socket_failure_leaves_control_disabled :
  let w :=
    DocsApp.run (H := SampleBrowser.browser) (DocsApp.load DocsApp.blank)
      failed_connection in
  DocsApp.downloadButton_disabled (DocsApp.load DocsApp.blank) = false
  /\ DocsApp.downloadButton_disabled w = true
  /\ (forall es,
        DocsApp.downloadButton_disabled (DocsApp.run (H := SampleBrowser.browser) w es)
        = true)
  /\ (forall (w' : DocsApp.World) (i : nat),
        DocsApp.downloadButton_disabled (DocsApp.on_close i w')
        = DocsApp.downloadButton_disabled w'
        /\ DocsApp.downloadButton_disabled (DocsApp.on_error w')
           = DocsApp.downloadButton_disabled w').
Proof.
  intros w.
  assert (Hw : docs_stuck w).
  { split; [vm_compute; reflexivity|]. vm_compute. repeat constructor. }
  split; [reflexivity|]. split; [apply Hw|]. split.
  - intros es. apply (docs_stuck_run es w Hw).
  - intros w' i. split; reflexivity.
Qed.

(** ** Start commands *)

Section FramesOk.
Context (mk : jsstring -> json) (P : jsstring -> Prop).

Lemma frames_ok_impl (Q : jsstring -> Prop) (l : list WebSocket) :
  (forall id, P id -> Q id) -> frames_ok mk P l -> frames_ok mk Q l.
Proof.
  intros HPQ Hl. eapply Forall_impl; [exact Hl|]. intros s [Hsent Honce]. split.
  - eapply Forall_impl; [exact Hsent|]. intros f (id & Hid & ->). eauto.
  - eapply Forall_impl; [exact Honce|]. exact HPQ.
Qed.

Lemma frames_ok_new (url : jsstring) (l : list WebSocket) :
  frames_ok mk P l -> frames_ok mk P (l ++ [new_WebSocket url]).
Proof.
  intros Hl. apply Forall_app_2; [exact Hl|]. repeat constructor.
Qed.

Lemma frames_ok_push_once (id : jsstring) (i : nat) (l : list WebSocket) :
  P id -> frames_ok mk P l -> frames_ok mk P (alter (push_once_open id) i l).
Proof.
  intros Hid Hl. apply Forall_alter; [exact Hl|].
  intros s _ [Hsent Honce]. split; [exact Hsent|].
  cbn. apply Forall_app_2; [exact Honce|]. now constructor.
Qed.

Lemma frames_ok_ready (r : ReadyState) (i : nat) (l : list WebSocket) :
  frames_ok mk P l -> frames_ok mk P (alter (set_readyState r) i l).
Proof.
  intros Hl. apply Forall_alter; [exact Hl|]. intros s _ Hs. exact Hs.
Qed.

Lemma frames_ok_opened (i : nat) (s : WebSocket) (l : list WebSocket) :
  l !! i = Some s ->
  frames_ok mk P l ->
  frames_ok mk P (<[i := clear_once_open (set_readyState OPEN s)]> l)
  /\ Forall P (ws_once_open s).
Proof.
  intros Hs Hl. destruct (Forall_lookup_1 _ _ _ _ Hl Hs) as [Hsent Honce].
  split; [|exact Honce]. apply Forall_insert; [exact Hl|].
  split; [exact Hsent|constructor].
Qed.

Lemma frames_ok_send (id : jsstring) (i : nat) (l l' : list WebSocket) :
  P id -> frames_ok mk P l -> ws_send i (mk id) l = Some l' -> frames_ok mk P l'.
Proof.
  intros Hid Hl. unfold ws_send. destruct (l !! i) as [s|] eqn:Hs; [|discriminate].
  destruct (Forall_lookup_1 _ _ _ _ Hl Hs) as [Hsent Honce].
  destruct (readyState s); intros [= <-]; try exact Hl.
  apply Forall_insert; [exact Hl|]. split; [|exact Honce].
  cbn. apply Forall_app_2; [exact Hsent|]. constructor; [eauto|constructor].
Qed.

Lemma frames_ok_all_sent (l : list WebSocket) :
  frames_ok mk P l -> Forall (fun f => exists id, P id /\ f = mk id) (all_sent l).
Proof.
  unfold all_sent. induction 1 as [|s l [Hsent _] _ IH]; [constructor|].
  cbn. apply Forall_app_2; assumption.
Qed.

End FramesOk.

Lemma trimmed_of_mono (vals vals' : list jsstring) (id : jsstring) :
  vals ⊆ vals' -> trimmed_of vals id -> trimmed_of vals' id.
Proof. intros Hsub (Hne & v & Hv & ->). split; [exact Hne|]. exists v. auto. Qed.

(** *** docs/app.js *)

Lemma docs_normalizeSocketUrl_fields `{Platform} (value : jsstring) (w : DocsApp.World) :
  let w' := (DocsApp.normalizeSocketUrl value w).2 in
  DocsApp.sockets w' = DocsApp.sockets w
  /\ DocsApp.socket w' = DocsApp.socket w
  /\ DocsApp.watchIdInput w' = DocsApp.watchIdInput w.
Proof.
  unfold DocsApp.normalizeSocketUrl. destruct (negb (str_truthy (trim value)));
    [now repeat split|].
  destruct (DocsApp.parse_socket_url (trim value)); now repeat split.
Qed.

Lemma docs_connectSocket_fields `{Platform} (w : DocsApp.World) :
  let w' := (DocsApp.connectSocket w).2 in
  DocsApp.watchIdInput w' = DocsApp.watchIdInput w
  /\ (DocsApp.sockets w' = DocsApp.sockets w
      \/ exists url, DocsApp.sockets w' = DocsApp.sockets w ++ [new_WebSocket url]).
Proof.
  unfold DocsApp.connectSocket.
  destruct (is_open (DocsApp.sockets w) (DocsApp.socket w)); [split; [|left]; reflexivity|].
  match goal with |- context [DocsApp.normalizeSocketUrl ?v w] =>
    pose proof (docs_normalizeSocketUrl_fields v w) as (Hs & _ & Hv);
    destruct (DocsApp.normalizeSocketUrl v w) as [url w1] end.
  cbn [snd] in Hs, Hv. destruct (websocket_accepts url); cbn [snd]; docs_simpl.
  - split; [exact Hv|]. right. exists url. now rewrite Hs.
  - split; [exact Hv|]. now left.
Qed.

Lemma docs_send_request_ok `{Platform} (P : jsstring -> Prop) (i : nat)
    (id : jsstring) (w : DocsApp.World) :
  P id ->
  frames_ok DocsApp.download_frame P (DocsApp.sockets w) ->
  frames_ok DocsApp.download_frame P (DocsApp.sockets (DocsApp.send_request i id w))
  /\ DocsApp.watchIdInput (DocsApp.send_request i id w) = DocsApp.watchIdInput w.
Proof.
  intros Hid Hw. unfold DocsApp.send_request.
  destruct (ws_send i (DocsApp.download_frame id) (DocsApp.sockets w)) as [l|] eqn:Hl;
    [|now split].
  docs_simpl. split; [|reflexivity].
  exact (frames_ok_send _ _ id i _ l Hid Hw Hl).
Qed.

Lemma docs_click_ok `{Platform} (vals : list jsstring) (w : DocsApp.World) :
  DocsApp.watchIdInput w ∈ vals ->
  frames_ok DocsApp.download_frame (trimmed_of vals) (DocsApp.sockets w) ->
  frames_ok DocsApp.download_frame (trimmed_of vals)
    (DocsApp.sockets (DocsApp.downloadButton_click w))
  /\ DocsApp.watchIdInput (DocsApp.downloadButton_click w) = DocsApp.watchIdInput w.
Proof.
  intros Hin Hw. unfold DocsApp.downloadButton_click. rewrite sanitizeWatchId_trim.
  destruct (str_truthy (trim (DocsApp.watchIdInput w))) eqn:Et; cbn [negb]; [|now split].
  assert (Hid : trimmed_of vals (trim (DocsApp.watchIdInput w))).
  { split; [now apply str_truthy_true|]. now exists (DocsApp.watchIdInput w). }
  match goal with |- context [DocsApp.connectSocket ?w0] =>
    pose proof (docs_connectSocket_fields w0) as (Hv & Hs);
    destruct (DocsApp.connectSocket w0) as [[ws|] w3] end;
    cbn [snd] in Hv, Hs; docs_simpl.
  - assert (Hw3 : frames_ok DocsApp.download_frame (trimmed_of vals) (DocsApp.sockets w3)).
    { destruct Hs as [-> | (url & ->)]; [exact Hw|now apply frames_ok_new]. }
    match goal with |- context [is_open ?l ?h] => destruct (is_open l h) end.
    + match goal with |- context [DocsApp.send_request ?i ?id ?w0] =>
        destruct (docs_send_request_ok (trimmed_of vals) i id w0 Hid) as (Ha & Hb) end.
      { docs_simpl. now apply frames_ok_push_once. }
      split; [exact Ha|]. rewrite Hb. exact Hv.
    + docs_simpl. split; [now apply frames_ok_push_once|exact Hv].
  - split; [|exact Hv]. destruct Hs as [-> | (url & ->)]; [exact Hw|now apply frames_ok_new].
Qed.

Lemma docs_on_open_ok `{Platform} (P : jsstring -> Prop) (i : nat) (w : DocsApp.World) :
  frames_ok DocsApp.download_frame P (DocsApp.sockets w) ->
  frames_ok DocsApp.download_frame P (DocsApp.sockets (DocsApp.on_open i w))
  /\ DocsApp.watchIdInput (DocsApp.on_open i w) = DocsApp.watchIdInput w.
Proof.
  intros Hw. unfold DocsApp.on_open.
  destruct (DocsApp.sockets w !! i) as [s|] eqn:Hs; [|now split].
  destruct (frames_ok_opened _ _ i s _ Hs Hw) as (Hw1 & Honce).
  match goal with |- context [foldl ?f ?w0 _] =>
    assert (Hw0 : frames_ok DocsApp.download_frame P (DocsApp.sockets w0)
                  /\ DocsApp.watchIdInput w0 = DocsApp.watchIdInput w)
      by (split; [exact Hw1|reflexivity]);
    generalize dependent w0 end.
  induction Honce as [|id ids Hid _ IH]; intros w0 [Ha Hb]; [now split|].
  cbn [foldl]. apply IH.
  destruct (docs_send_request_ok P i id w0 Hid Ha) as (Ha' & Hb').
  split; [exact Ha'|congruence].
Qed.

Lemma docs_step_ok `{Platform} (vals : list jsstring) (w : DocsApp.World)
    (e : DocsApp.Event) :
  DocsApp.watchIdInput w ∈ vals ->
  frames_ok DocsApp.download_frame (trimmed_of vals) (DocsApp.sockets w) ->
  let vals' := vals ++ match e with DocsApp.UserTypesWatchId v => [v] | _ => [] end in
  DocsApp.watchIdInput (DocsApp.step w e) ∈ vals'
  /\ frames_ok DocsApp.download_frame (trimmed_of vals') (DocsApp.sockets (DocsApp.step w e)).
Proof.
  intros Hin Hw vals'.
  assert (Hsub : vals ⊆ vals') by (intros x Hx; apply elem_of_app; now left).
  assert (Hkeep : forall w',
            frames_ok DocsApp.download_frame (trimmed_of vals) (DocsApp.sockets w')
            /\ DocsApp.watchIdInput w' = DocsApp.watchIdInput w ->
            DocsApp.watchIdInput w' ∈ vals'
            /\ frames_ok DocsApp.download_frame (trimmed_of vals') (DocsApp.sockets w')).
  { intros w' [Ha Hb]. split; [rewrite Hb; auto|].
    revert Ha. apply frames_ok_impl. intros id. now apply trimmed_of_mono. }
  destruct e as [v|v| |i|i data|i|i]; cbn [DocsApp.step].
  - docs_simpl. split.
    + apply elem_of_app. right. now apply list_elem_of_singleton.
    + revert Hw. apply frames_ok_impl. intros id. now apply trimmed_of_mono.
  - apply Hkeep. destruct (DocsApp.backendAddressInput w); [|now split].
    unfold DocsApp.backendAddress_change. docs_simpl.
    destruct (str_truthy (trim v)); now split.
  - apply Hkeep. destruct (DocsApp.downloadButton_disabled w); [now split|].
    now apply docs_click_ok.
  - apply Hkeep. case_decide; [now apply docs_on_open_ok|now split].
  - apply Hkeep. case_decide; [|now split].
    destruct (docs_on_message_sockets data w) as (Hs1 & _ & Hv1).
    rewrite Hs1, Hv1. now split.
  - apply Hkeep. destruct (DocsApp.socket_state w i) as [[]|]; now split.
  - apply Hkeep. destruct (DocsApp.socket_state w i) as [[]|]; try now split.
    all: unfold DocsApp.on_close; docs_simpl; split; [now apply frames_ok_ready|reflexivity].
Qed.

Lemma docs_run_ok `{Platform} (w0 : DocsApp.World) (es : list DocsApp.Event) :
  DocsApp.sockets w0 = [] ->
  DocsApp.watchIdInput (DocsApp.run w0 es) ∈ docs_typed w0 es
  /\ frames_ok DocsApp.download_frame (trimmed_of (docs_typed w0 es))
       (DocsApp.sockets (DocsApp.run w0 es)).
Proof.
  intros Hnil. induction es as [|e es IH] using rev_ind.
  - cbn. rewrite Hnil. split; [set_solver|constructor].
  - destruct IH as [Hin Hok]. unfold DocsApp.run. rewrite foldl_snoc.
    fold (DocsApp.run w0 es).
    replace (docs_typed w0 (es ++ [e]))
      with (docs_typed w0 es
              ++ match e with DocsApp.UserTypesWatchId v => [v] | _ => [] end).
    + now apply docs_step_ok.
    + unfold docs_typed. rewrite omap_app. cbn. now destruct e.
Qed.

(** *** The minimal client *)

Lemma simple_send_ok (P : jsstring -> Prop) (id : jsstring) (w w' : SimpleSocket.World) :
  P id ->
  frames_ok SimpleSocket.download_frame P (SimpleSocket.sockets w) ->
  SimpleSocket.send_on_current (SimpleSocket.download_frame id) w = Some w' ->
  frames_ok SimpleSocket.download_frame P (SimpleSocket.sockets w')
  /\ SimpleSocket.videoIdInput w' = SimpleSocket.videoIdInput w.
Proof.
  intros Hid Hw. unfold SimpleSocket.send_on_current.
  destruct (SimpleSocket.socket w) as [i|]; [|discriminate].
  destruct (ws_send i _ (SimpleSocket.sockets w)) as [l|] eqn:Hl; [|discriminate].
  intros [= <-]. simple_simpl. split; [|reflexivity].
  exact (frames_ok_send _ _ id i _ l Hid Hw Hl).
Qed.

Lemma simple_click_ok (vals : list jsstring) (w : SimpleSocket.World) :
  SimpleSocket.videoIdInput w ∈ vals ->
  frames_ok SimpleSocket.download_frame (trimmed_of vals) (SimpleSocket.sockets w) ->
  frames_ok SimpleSocket.download_frame (trimmed_of vals)
    (SimpleSocket.sockets (SimpleSocket.downloadBtn_click w))
  /\ SimpleSocket.videoIdInput (SimpleSocket.downloadBtn_click w)
     = SimpleSocket.videoIdInput w.
Proof.
  intros Hin Hw. unfold SimpleSocket.downloadBtn_click.
  destruct (str_truthy (trim (SimpleSocket.videoIdInput w))) eqn:Et; cbn [negb];
    [|now split].
  assert (Hid : trimmed_of vals (trim (SimpleSocket.videoIdInput w))).
  { split; [now apply str_truthy_true|]. now exists (SimpleSocket.videoIdInput w). }
  match goal with |- context [SimpleSocket.connectSocket ?w0] =>
    assert (Hc : frames_ok SimpleSocket.download_frame (trimmed_of vals)
                   (SimpleSocket.sockets (SimpleSocket.connectSocket w0))
                 /\ SimpleSocket.videoIdInput (SimpleSocket.connectSocket w0)
                    = SimpleSocket.videoIdInput w);
    [|destruct Hc as [Hc Hv]; generalize dependent (SimpleSocket.connectSocket w0)] end.
  { unfold SimpleSocket.connectSocket. simple_simpl.
    destruct (is_open (SimpleSocket.sockets w) (SimpleSocket.socket w)); simple_simpl;
      (split; [|reflexivity]); [exact Hw|now apply frames_ok_new]. }
  intros w2 Hc Hv.
  destruct (is_open (SimpleSocket.sockets w2) (SimpleSocket.socket w2)); cbn [negb].
  - destruct (SimpleSocket.send_on_current _ w2) as [w3|] eqn:Hsend; [|now split].
    destruct (simple_send_ok _ _ w2 w3 Hid Hc Hsend) as (Ha & Hb).
    simple_simpl. split; [exact Ha|congruence].
  - destruct (SimpleSocket.socket w2) as [i|]; [|now split].
    simple_simpl. split; [now apply frames_ok_push_once|exact Hv].
Qed.

Lemma simple_on_open_ok (P : jsstring -> Prop) (i : nat) (w : SimpleSocket.World) :
  frames_ok SimpleSocket.download_frame P (SimpleSocket.sockets w) ->
  frames_ok SimpleSocket.download_frame P (SimpleSocket.sockets (SimpleSocket.on_open i w))
  /\ SimpleSocket.videoIdInput (SimpleSocket.on_open i w) = SimpleSocket.videoIdInput w.
Proof.
  intros Hw. unfold SimpleSocket.on_open.
  destruct (SimpleSocket.sockets w !! i) as [s|] eqn:Hs; [|now split].
  destruct (frames_ok_opened _ _ i s _ Hs Hw) as (Hw1 & Honce).
  match goal with |- context [foldl ?f ?w0 _] =>
    assert (Hw0 : frames_ok SimpleSocket.download_frame P (SimpleSocket.sockets w0)
                  /\ SimpleSocket.videoIdInput w0 = SimpleSocket.videoIdInput w)
      by (split; [exact Hw1|reflexivity]);
    generalize dependent w0 end.
  induction Honce as [|id ids Hid _ IH]; intros w0 [Ha Hb]; [now split|].
  cbn [foldl]. apply IH. unfold SimpleSocket.fire_once_open.
  destruct (SimpleSocket.send_on_current _ w0) as [w1|] eqn:Hsend; [|now split].
  destruct (simple_send_ok P id w0 w1 Hid Ha Hsend) as (Ha' & Hb').
  split; [exact Ha'|congruence].
Qed.

Lemma simple_step_ok (vals : list jsstring) (w : SimpleSocket.World)
    (e : SimpleSocket.Event) :
  SimpleSocket.videoIdInput w ∈ vals ->
  frames_ok SimpleSocket.download_frame (trimmed_of vals) (SimpleSocket.sockets w) ->
  let vals' := vals ++ match e with SimpleSocket.UserTypesVideoId v => [v] | _ => [] end in
  SimpleSocket.videoIdInput (SimpleSocket.step w e) ∈ vals'
  /\ frames_ok SimpleSocket.download_frame (trimmed_of vals')
       (SimpleSocket.sockets (SimpleSocket.step w e)).
Proof.
  intros Hin Hw vals'.
  assert (Hsub : vals ⊆ vals') by (intros x Hx; apply elem_of_app; now left).
  assert (Hkeep : forall w',
            frames_ok SimpleSocket.download_frame (trimmed_of vals) (SimpleSocket.sockets w')
            /\ SimpleSocket.videoIdInput w' = SimpleSocket.videoIdInput w ->
            SimpleSocket.videoIdInput w' ∈ vals'
            /\ frames_ok SimpleSocket.download_frame (trimmed_of vals')
                 (SimpleSocket.sockets w')).
  { intros w' [Ha Hb]. split; [rewrite Hb; auto|].
    revert Ha. apply frames_ok_impl. intros id. now apply trimmed_of_mono. }
  destruct e as [v| |i|i data|i]; cbn [SimpleSocket.step].
  - simple_simpl. split.
    + apply elem_of_app. right. now apply list_elem_of_singleton.
    + revert Hw. apply frames_ok_impl. intros id. now apply trimmed_of_mono.
  - apply Hkeep. destruct (SimpleSocket.downloadBtn_disabled w); [now split|].
    now apply simple_click_ok.
  - apply Hkeep. case_decide; [now apply simple_on_open_ok|now split].
  - apply Hkeep. case_decide; [|now split].
    destruct (simple_on_message_sockets data w) as (Hs1 & _ & Hv1).
    rewrite Hs1, Hv1. now split.
  - apply Hkeep. destruct (SimpleSocket.socket_state w i) as [[]|]; try now split.
    all: unfold SimpleSocket.on_close; simple_simpl;
      split; [now apply frames_ok_ready|reflexivity].
Qed.

Lemma simple_run_ok (w0 : SimpleSocket.World) (es : list SimpleSocket.Event) :
  SimpleSocket.sockets w0 = [] ->
  SimpleSocket.videoIdInput (SimpleSocket.run w0 es) ∈ simple_typed w0 es
  /\ frames_ok SimpleSocket.download_frame (trimmed_of (simple_typed w0 es))
       (SimpleSocket.sockets (SimpleSocket.run w0 es)).
Proof.
  intros Hnil. induction es as [|e es IH] using rev_ind.
  - cbn. rewrite Hnil. split; [apply elem_of_cons; now left|constructor].
  - destruct IH as [Hin Hok]. unfold SimpleSocket.run. rewrite foldl_snoc.
    fold (SimpleSocket.run w0 es).
    replace (simple_typed w0 (es ++ [e]))
      with (simple_typed w0 es
              ++ match e with SimpleSocket.UserTypesVideoId v => [v] | _ => [] end).
    + now apply simple_step_ok.
    + unfold simple_typed. rewrite omap_app. cbn. now destruct e.
Qed.

(** C5 as stated fails for the minimal client: its start command has the
    fields [type] and [id], not [action] and [watch_id]. *)
Lemma simple_client_start_command :
  let w :=
    SimpleSocket.run SimpleSocket.initial
      [SimpleSocket.UserTypesVideoId (lit "dQw4w9WgXcQ"); SimpleSocket.Click;
       SimpleSocket.SockOpen 0] in
  all_sent (SimpleSocket.sockets w)
  = [JObj [(lit "type", JStr (lit "download")); (lit "id", JStr (lit "dQw4w9WgXcQ"))]]
  /\ ~ Forall (fun f => exists id,
                 f = JObj [(lit "action", JStr (lit "download"));
                           (lit "watch_id", JStr id)])
         (all_sent (SimpleSocket.sockets w)).
Proof.
  intros w. assert (Hw : all_sent (SimpleSocket.sockets w)
    = [JObj [(lit "type", JStr (lit "download")); (lit "id", JStr (lit "dQw4w9WgXcQ"))]])
    by (vm_compute; reflexivity).
  split; [exact Hw|]. rewrite Hw. intros Hall.
  apply Forall_cons in Hall as [(id & Hid) _]. vm_compute in Hid. discriminate Hid.
Qed.

(** ** The event stream of a reservation *)

Lemma dispatch_closed (s : ReservationApp.Stream) (w : ReservationApp.World)
    (ev : ReservationApp.SseEvent) :
  ReservationApp.es_closed s = true -> ReservationApp.dispatch (s, w) ev = (s, w).
Proof. intros Hc. unfold ReservationApp.dispatch. now rewrite Hc. Qed.

Lemma deliver_closed (evs : list ReservationApp.SseEvent) (s : ReservationApp.Stream)
    (w : ReservationApp.World) :
  ReservationApp.es_closed s = true -> foldl ReservationApp.dispatch (s, w) evs = (s, w).
Proof.
  intros Hc. induction evs as [|ev evs IH]; [reflexivity|].
  cbn [foldl]. now rewrite dispatch_closed.
Qed.

Lemma dispatch_calls (st : ReservationApp.Stream * ReservationApp.World)
    (ev : ReservationApp.SseEvent) :
  ReservationApp.calls (ReservationApp.dispatch st ev).2 = ReservationApp.calls st.2.
Proof.
  destruct st as [s w]. unfold ReservationApp.dispatch.
  destruct (ReservationApp.es_closed s); [reflexivity|].
  destruct ev as [|data|data| |]; try reflexivity.
  unfold ReservationApp.on_log. destruct data as [d|]; [|reflexivity].
  now destruct (get_prop d (lit "message")).
Qed.

Lemma foldl_dispatch_calls (evs : list ReservationApp.SseEvent)
    (st : ReservationApp.Stream * ReservationApp.World) :
  ReservationApp.calls (foldl ReservationApp.dispatch st evs).2 = ReservationApp.calls st.2.
Proof.
  revert st. induction evs as [|ev evs IH]; intros st; [reflexivity|].
  cbn [foldl]. now rewrite IH, dispatch_calls.
Qed.

(** What happens to the source and the promise does not depend on the
    page. *)
Lemma dispatch_stream (s : ReservationApp.Stream) (w w' : ReservationApp.World)
    (ev : ReservationApp.SseEvent) :
  (ReservationApp.dispatch (s, w) ev).1 = (ReservationApp.dispatch (s, w') ev).1.
Proof.
  unfold ReservationApp.dispatch. destruct (ReservationApp.es_closed s); [reflexivity|].
  now destruct ev.
Qed.

Lemma foldl_dispatch_stream (evs : list ReservationApp.SseEvent)
    (s : ReservationApp.Stream) (w w' : ReservationApp.World) :
  (foldl ReservationApp.dispatch (s, w) evs).1
  = (foldl ReservationApp.dispatch (s, w') evs).1.
Proof.
  revert s w w'. induction evs as [|ev evs IH]; intros s w w'; [reflexivity|].
  cbn [foldl]. pose proof (dispatch_stream s w w' ev) as Hd.
  destruct (ReservationApp.dispatch (s, w) ev) as [s1 w1],
    (ReservationApp.dispatch (s, w') ev) as [s2 w2]. cbn [fst] in Hd. subst s2. apply IH.
Qed.

Lemma deliver_stream (evs : list ReservationApp.SseEvent) (w w' : ReservationApp.World) :
  (ReservationApp.deliver evs w).1 = (ReservationApp.deliver evs w').1.
Proof. apply foldl_dispatch_stream. Qed.

(** An event that is not terminal leaves the stream open and the promise
    pending. *)
Lemma dispatch_nonterminal (s : ReservationApp.Stream) (w : ReservationApp.World)
    (ev : ReservationApp.SseEvent) :
  is_terminal ev = false -> (ReservationApp.dispatch (s, w) ev).1 = s.
Proof.
  intros Hev. unfold ReservationApp.dispatch.
  destruct (ReservationApp.es_closed s); [reflexivity|].
  now destruct ev.
Qed.

Lemma foldl_dispatch_nonterminal (logs : list ReservationApp.SseEvent)
    (s : ReservationApp.Stream) (w : ReservationApp.World) :
  Forall (fun e => is_terminal e = false) logs ->
  (foldl ReservationApp.dispatch (s, w) logs).1 = s.
Proof.
  intros Hlogs. revert w. induction Hlogs as [|ev logs Hev _ IH]; intros w; [reflexivity|].
  cbn [foldl]. pose proof (dispatch_nonterminal s w ev Hev) as Hd.
  destruct (ReservationApp.dispatch (s, w) ev) as [s' w']. cbn [fst] in Hd. subst s'.
  apply IH.
Qed.

(** The first terminal event closes the source and settles the promise:
    [completed] resolves it, [error] rejects it; the page is not touched. *)
Lemma dispatch_terminal (w : ReservationApp.World) (t : ReservationApp.SseEvent) :
  is_terminal t = true ->
  let st := ReservationApp.dispatch (ReservationApp.new_stream, w) t in
  ReservationApp.es_closed st.1 = true
  /\ st.2 = w
  /\ match t with
     | ReservationApp.EvCompleted =>
         ReservationApp.settled st.1 = Some ReservationApp.Resolved
     | _ => exists e, ReservationApp.settled st.1 = Some (ReservationApp.Rejected e)
     end.
Proof.
  intros Ht. destruct t as [|data|data| |]; try discriminate Ht.
  - cbn. unfold ReservationApp.on_error_event, ReservationApp.onerror.
    destruct (get_prop _ (lit "message")) as [m|]; cbn; repeat split; eauto.
  - cbn. now repeat split.
Qed.

Lemma until_terminal_open (evs : list ReservationApp.SseEvent) :
  Forall (fun e => is_terminal e = false) (until_terminal evs).
Proof.
  induction evs as [|ev evs IH]; [constructor|]. cbn [until_terminal].
  destruct (is_terminal ev) eqn:Hev; [constructor|now constructor].
Qed.

(** A stream is delivered as its events before the first terminal event,
    then that event if there is one; nothing after it is dispatched. *)
Lemma deliver_until (evs : list ReservationApp.SseEvent) (w : ReservationApp.World) :
  let before := ReservationApp.deliver (until_terminal evs) w in
  before.1 = ReservationApp.new_stream
  /\ ReservationApp.deliver evs w
     = match find is_terminal evs with
       | Some t => ReservationApp.dispatch before t
       | None => before
       end.
Proof.
  cbv zeta. split.
  { apply foldl_dispatch_nonterminal, until_terminal_open. }
  unfold ReservationApp.deliver. revert w.
  induction evs as [|ev evs IH]; intros w; [reflexivity|].
  cbn [until_terminal find foldl]. destruct (is_terminal ev) eqn:Hev.
  - cbn [foldl]. destruct (dispatch_terminal w ev Hev) as (Hc & _).
    destruct (ReservationApp.dispatch (ReservationApp.new_stream, w) ev) as [s1 w1].
    cbn [fst] in Hc. now apply deliver_closed.
  - cbn [foldl]. pose proof (dispatch_nonterminal ReservationApp.new_stream w ev Hev) as Hd.
    destruct (ReservationApp.dispatch (ReservationApp.new_stream, w) ev) as [s1 w1].
    cbn [fst] in Hd. subst s1. apply IH.
Qed.

Lemma answer_frame_type (ty : jsval) :
  is_str (lit "error") ty || is_str (lit "result") ty = true ->
  is_str (lit "log") ty = false
  /\ (is_str (lit "error") ty = true /\ is_str (lit "result") ty = false
      \/ is_str (lit "error") ty = false /\ is_str (lit "result") ty = true).
Proof.
  destruct ty as [|[]]; try discriminate. cbn [is_str]. intros Hty.
  apply orb_true_iff in Hty as [Hs|Hs]; apply bool_decide_eq_true in Hs; subst s;
    (split; [reflexivity|]); [left|right]; now split.
Qed.

Section OneOutcome.
Context `{Platform}.

(** C2, as the code has it. One [waitForEvents] call has at most one
    outcome. When the id cannot be encoded the call is rejected and no
    event source is made. Otherwise the events before the first [completed]
    or [error] leave the source open and the promise pending, and they
    alone change the page. When the stream has no such event the call
    stays pending. The first [completed] or [error] event closes the source
    and settles the promise, without touching the page: [completed]
    resolves it; [error] rejects it with the [message] of its payload when
    that is truthy and with "Stream error from backend." otherwise (also
    for the error of the connection, which has no data), the second
    [reject], of [onerror], changing nothing, or with "Failed to connect to
    event stream." when the payload is the JSON [null]. Nothing that
    follows is dispatched, so the outcome of the awaited call is that one
    settlement.

    The message listener of the socket client has no such guard: on an open
    socket every frame of type "error" or "result" is handled, whatever
    came before; it sets the status and enables the request control. *)
Theorem one_terminal_outcome (net : ReservationApp.Backend) (baseUrl : jsstring)
    (reservationId : jsval) (w : ReservationApp.World) :
  let r := ReservationApp.waitForEvents net baseUrl reservationId w in
  match encodeURIComponent (to_string reservationId) with
  | None =>
      r = (ReservationApp.Thrown (ReservationApp.NativeError uriError_message), w)
  | Some enc =>
      let url := ReservationApp.buildEndpointUrl baseUrl (lit "events/" ++ enc) in
      let evs := ReservationApp.events net url in
      let w1 :=
        ReservationApp.set_calls
          (ReservationApp.calls w ++ [ReservationApp.CallEventSource url]) w in
      let before := ReservationApp.deliver (until_terminal evs) w1 in
      before.1 = ReservationApp.new_stream
      /\ r.2 = before.2
      /\ match find is_terminal evs with
         | None => r.1 = ReservationApp.Pending /\ ReservationApp.deliver evs w1 = before
         | Some t =>
             let at_t := ReservationApp.dispatch before t in
             ReservationApp.es_closed at_t.1 = true
             /\ at_t.2 = before.2
             /\ ReservationApp.deliver evs w1 = at_t
             /\ match t with
                | ReservationApp.EvCompleted =>
                    ReservationApp.settled at_t.1 = Some ReservationApp.Resolved
                    /\ r.1 = ReservationApp.Returned tt
                | ReservationApp.EvError data =>
                    let e :=
                      ReservationApp.Error
                        match data with
                        | Some JNull => lit "Failed to connect to event stream."
                        | Some d =>
                            to_string (val_or (DocsApp.prop d (lit "message"))
                                         (J (JStr (lit "Stream error from backend."))))
                        | None => lit "Stream error from backend."
                        end in
                    ReservationApp.settled at_t.1 = Some (ReservationApp.Rejected e)
                    /\ r.1 = ReservationApp.Thrown e
                | _ => False
                end
         end
  end
  /\ (forall (page : DocsApp.World) (i : nat) (d : json) (ty : jsval),
        DocsApp.socket_state page i = Some OPEN ->
        get_prop d (lit "type") = Some ty ->
        is_str (lit "error") ty || is_str (lit "result") ty = true ->
        let page' := DocsApp.step page (DocsApp.SockMessage i (Some d)) in
        DocsApp.downloadButton_disabled page' = false
        /\ DocsApp.statusEl page'
           = lit "Status: "
               ++ (if is_str (lit "error") ty then lit "Error"
                   else lit "Completed (language: "
                          ++ to_string (val_or (DocsApp.prop d (lit "language"))
                                          (J (JStr (lit "unknown"))))
                          ++ lit ")")).
Proof.
  intros r. subst r. split.
  - unfold ReservationApp.waitForEvents, mbind, ReservationApp.M_bind,
      ReservationApp.encode_id.
    destruct (encodeURIComponent (to_string reservationId)) as [enc|]; [|reflexivity].
    cbv zeta. unfold ReservationApp.listen.
    set (url := ReservationApp.buildEndpointUrl baseUrl (lit "events/" ++ enc)).
    set (w1 := ReservationApp.set_calls _ w).
    destruct (deliver_until (ReservationApp.events net url) w1) as (Hb & Hall).
    rewrite Hall. split; [exact Hb|].
    destruct (ReservationApp.deliver (until_terminal (ReservationApp.events net url)) w1)
      as [s0 w2]. cbn [fst snd] in Hb |- *. subst s0.
    destruct (find is_terminal (ReservationApp.events net url)) as [t|] eqn:Hfind.
    + apply find_some in Hfind as [_ Ht].
      destruct t as [|d|data| |]; try discriminate Ht.
      * destruct data as [[]|]; cbn; now repeat split.
      * cbn. now repeat split.
    + cbn [ReservationApp.settled ReservationApp.new_stream fst snd]. now repeat split.
  - intros page i d ty Hopen Hty Hanswer page'. subst page'.
    cbn [DocsApp.step]. rewrite decide_True by exact Hopen.
    destruct (answer_frame_type ty Hanswer) as (Hlog & [[He Hr] | [He Hr]]);
      unfold DocsApp.on_message; rewrite Hty, Hlog, He; [now split|].
    rewrite Hr. now split.
Qed.

End OneOutcome.

Lemma one_terminal_outcome_witness :
  let rest := [ReservationApp.EvError None; ReservationApp.EvCompleted] in
  let net := sample_backend (sample_logs ++ ReservationApp.EvCompleted :: rest) in
  let r :=
    ReservationApp.waitForEvents (H := SampleBrowser.browser) net [] (J (JStr (lit "r1")))
      ReservationApp.blank in
  r.1 = ReservationApp.Returned tt
  /\ ReservationApp.deliver (sample_logs ++ ReservationApp.EvCompleted :: rest) r.2
     = ReservationApp.deliver (sample_logs ++ [ReservationApp.EvCompleted]) r.2.
Proof.
  intros rest net r.
  pose proof (proj1 (one_terminal_outcome (H := SampleBrowser.browser) net []
                       (J (JStr (lit "r1"))) ReservationApp.blank)) as Hone.
  cbv zeta in Hone. fold r in Hone.
  change (encodeURIComponent (to_string (J (JStr (lit "r1"))))) with (Some (lit "r1"))
    in Hone.
  change (find is_terminal _) with (Some ReservationApp.EvCompleted) in Hone.
  destruct Hone as (_ & _ & _ & _ & _ & _ & Hr).
  split; [exact Hr|]. vm_compute. reflexivity.
Defined.

(** C2 as stated fails for the socket client: after one click a [result]
    frame and then an [error] frame are both handled, each setting the
    status, so one cycle shows two terminal outcomes.  And in the
    reservation client a stream that delivers no terminal event leaves the
    call pending: that cycle has no outcome. *)
Lemma socket_client_second_outcome :
  let result :=
    Some (JObj [(lit "type", JStr (lit "result")); (lit "text", JStr (lit "hello"));
                (lit "language", JStr (lit "en"))]) in
  let failure :=
    Some (JObj [(lit "type", JStr (lit "error")); (lit "message", JStr (lit "late"))]) in
  let es := [DocsApp.UserTypesWatchId (lit "dQw4w9WgXcQ"); DocsApp.Click;
             DocsApp.SockOpen 0] in
  let w1 :=
    DocsApp.run (H := SampleBrowser.browser) DocsApp.blank
      (es ++ [DocsApp.SockMessage 0 result]) in
  let w2 :=
    DocsApp.run (H := SampleBrowser.browser) DocsApp.blank
      (es ++ [DocsApp.SockMessage 0 result; DocsApp.SockMessage 0 failure]) in
  docs_clicks (es ++ [DocsApp.SockMessage 0 result; DocsApp.SockMessage 0 failure]) = 1
  /\ DocsApp.statusEl w1 = lit "Status: Completed (language: en)"
  /\ DocsApp.statusEl w2 = lit "Status: Error"
  /\ DocsApp.logEl w2
     = DocsApp.logEl w1
         ++ [(error, lit "Backend error: late"); (info, lit "Frontend: Error")]
  /\ (ReservationApp.waitForEvents (H := SampleBrowser.browser)
        (sample_backend sample_logs) [] (J (JStr (lit "r1"))) ReservationApp.blank).1
     = ReservationApp.Pending.
Proof. vm_compute. repeat split. Qed.

(** ** createReservation *)

Section Reservation.
Context `{Platform}.

(** The world after [createReservation]: one POST recorded, nothing else. *)
Lemma createReservation_world (net : ReservationApp.Backend) (baseUrl watchId : jsstring)
    (w : ReservationApp.World) :
  (ReservationApp.createReservation net baseUrl watchId w).2
  = ReservationApp.set_calls
      (ReservationApp.calls w
         ++ [ReservationApp.CallPost
               (ReservationApp.buildEndpointUrl baseUrl (lit "reservation"))
               (JObj [(lit "watch_id", JStr watchId)])]) w.
Proof.
  unfold ReservationApp.createReservation, mbind, ReservationApp.M_bind,
    ReservationApp.fetch_json.
  destruct (ReservationApp.post net _ _) as [m|status body]; [reflexivity|].
  destruct (negb (ReservationApp.response_ok status)).
  - unfold ReservationApp.read_prop. destruct (get_prop _ (lit "message")); reflexivity.
  - unfold ReservationApp.read_prop.
    destruct (get_prop _ (lit "reservation_id")) as [v|]; [|reflexivity].
    destruct (negb (truthy v)); reflexivity.
Qed.

(** The outcome of [createReservation] does not depend on the page. *)
Lemma createReservation_result_indep (net : ReservationApp.Backend)
    (baseUrl watchId : jsstring) (w w' : ReservationApp.World) :
  (ReservationApp.createReservation net baseUrl watchId w).1
  = (ReservationApp.createReservation net baseUrl watchId w').1.
Proof.
  unfold ReservationApp.createReservation, mbind, ReservationApp.M_bind,
    ReservationApp.fetch_json.
  destruct (ReservationApp.post net _ _) as [m|status body]; [reflexivity|].
  destruct (negb (ReservationApp.response_ok status)).
  - unfold ReservationApp.read_prop. destruct (get_prop _ (lit "message")); reflexivity.
  - unfold ReservationApp.read_prop.
    destruct (get_prop _ (lit "reservation_id")) as [v|]; [|reflexivity].
    destruct (negb (truthy v)); reflexivity.
Qed.

(** C6, as the code has it. [createReservation] returns exactly when the
    response is 2xx and the [reservation_id] of its JSON body is truthy, and
    then returns that value. Otherwise it throws: the error of a failed
    [fetch]; a TypeError when the body is the JSON [null]; on a non-2xx
    response an [Error] with the body's [message] when that is truthy and
    with "Failed to create reservation." when it is not or the body is no
    JSON; on a 2xx response whose [reservation_id] is missing or falsy an
    [Error] saying that the backend did not return a reservation ID. *)
Theorem createReservation_outcome (net : ReservationApp.Backend)
    (baseUrl watchId : jsstring) (w : ReservationApp.World) :
  let url := ReservationApp.buildEndpointUrl baseUrl (lit "reservation") in
  let body := JObj [(lit "watch_id", JStr watchId)] in
  let out := (ReservationApp.createReservation net baseUrl watchId w).1 in
  (forall id,
     out = ReservationApp.Returned id <->
     exists status payload,
       ReservationApp.post net url body = ReservationApp.Response status (Some payload)
       /\ ReservationApp.response_ok status = true
       /\ get_prop payload (lit "reservation_id") = Some id
       /\ truthy id = true)
  /\ match ReservationApp.post net url body with
     | ReservationApp.NetworkError m =>
         out = ReservationApp.Thrown (ReservationApp.NativeError m)
     | ReservationApp.Response status answer =>
         let payload := match answer with Some j => j | None => JObj [] end in
         if ReservationApp.response_ok status
         then
           match get_prop payload (lit "reservation_id") with
           | None =>
               out = ReservationApp.Thrown (ReservationApp.NativeError typeError_message)
           | Some id =>
               if truthy id then out = ReservationApp.Returned id
               else out = ReservationApp.Thrown
                            (ReservationApp.Error
                               (lit "Backend did not return a reservation ID."))
           end
         else
           match get_prop payload (lit "message") with
           | None =>
               out = ReservationApp.Thrown (ReservationApp.NativeError typeError_message)
           | Some m =>
               out = ReservationApp.Thrown
                       (ReservationApp.Error
                          (if truthy m then to_string m
                           else lit "Failed to create reservation."))
           end
     end.
Proof.
  intros url body out.
  assert (Hcases :
    match ReservationApp.post net url body with
    | ReservationApp.NetworkError m =>
        out = ReservationApp.Thrown (ReservationApp.NativeError m)
    | ReservationApp.Response status answer =>
        let payload := match answer with Some j => j | None => JObj [] end in
        if ReservationApp.response_ok status
        then
          match get_prop payload (lit "reservation_id") with
          | None =>
              out = ReservationApp.Thrown (ReservationApp.NativeError typeError_message)
          | Some id =>
              if truthy id then out = ReservationApp.Returned id
              else out = ReservationApp.Thrown
                           (ReservationApp.Error
                              (lit "Backend did not return a reservation ID."))
          end
        else
          match get_prop payload (lit "message") with
          | None =>
              out = ReservationApp.Thrown (ReservationApp.NativeError typeError_message)
          | Some m =>
              out = ReservationApp.Thrown
                      (ReservationApp.Error
                         (if truthy m then to_string m
                          else lit "Failed to create reservation."))
          end
    end).
  { subst out. unfold ReservationApp.createReservation, mbind, ReservationApp.M_bind,
      ReservationApp.fetch_json. fold url body.
    destruct (ReservationApp.post net url body) as [m|status answer]; [reflexivity|].
    cbn zeta. destruct (ReservationApp.response_ok status); cbn [negb].
    - unfold ReservationApp.read_prop.
      destruct (get_prop _ (lit "reservation_id")) as [v|]; [|reflexivity].
      destruct (truthy v); reflexivity.
    - unfold ReservationApp.read_prop.
      destruct (get_prop _ (lit "message")) as [m|]; [|reflexivity].
      unfold val_or. destruct (truthy m); reflexivity. }
  split; [|exact Hcases].
  intros id. split.
  - intros Hout. destruct (ReservationApp.post net url body) as [m|status answer];
      [congruence|].
    cbn zeta in Hcases. destruct (ReservationApp.response_ok status) eqn:Hok.
    + destruct answer as [payload|].
      * exists status, payload.
        destruct (get_prop payload (lit "reservation_id")) as [v|]; [|congruence].
        destruct (truthy v) eqn:Hv; [|congruence].
        assert (v = id) by congruence. subst v. now repeat split.
      * cbn in Hcases. congruence.
    + destruct (get_prop _ (lit "message")); congruence.
  - intros (status & payload & Hpost & Hok & Hid & Ht). rewrite Hpost in Hcases.
    cbn zeta in Hcases. now rewrite Hok, Hid, Ht in Hcases.
Qed.

End Reservation.

(** C6 as stated fails: a 2xx response whose body has a [reservation_id]
    field holding the empty string makes [createReservation] throw. *)
Lemma createReservation_empty_id :
  let payload := JObj [(lit "reservation_id", JStr [])] in
  let net :=
    {| ReservationApp.post := fun _ _ => ReservationApp.Response 200 (Some payload);
       ReservationApp.events := fun _ => [];
       ReservationApp.get := fun _ => ReservationApp.NetworkError [] |} in
  let out :=
    (ReservationApp.createReservation (H := SampleBrowser.browser) net
       (lit "http://localhost:8080") (lit "dQw4w9WgXcQ") ReservationApp.blank).1 in
  ReservationApp.response_ok 200 = true
  /\ lookup_field (lit "reservation_id") [(lit "reservation_id", JStr [])] = Some (JStr [])
  /\ out = ReservationApp.Thrown
             (ReservationApp.Error (lit "Backend did not return a reservation ID."))
  /\ ~ (exists id, out = ReservationApp.Returned id).
Proof.
  intros payload net out.
  assert (Hout : out = ReservationApp.Thrown
             (ReservationApp.Error (lit "Backend did not return a reservation ID.")))
    by (vm_compute; reflexivity).
  split; [reflexivity|]. split; [vm_compute; reflexivity|]. split; [exact Hout|].
  intros (id & Hid). rewrite Hout in Hid. discriminate Hid.
Qed.

(** ** The three phases of a request *)

Section Phases.
Context `{Platform}.

Lemma deliver_find (evs : list ReservationApp.SseEvent) (w : ReservationApp.World) :
  ReservationApp.settled (ReservationApp.deliver evs w).1 = Some ReservationApp.Resolved
  <-> find is_terminal evs = Some ReservationApp.EvCompleted.
Proof.
  unfold ReservationApp.deliver. revert w.
  induction evs as [|ev evs IH]; intros w; [cbn; split; discriminate|].
  cbn [foldl find]. destruct (is_terminal ev) eqn:Hev.
  - destruct (dispatch_terminal w ev Hev) as (Hc & _ & Hs).
    destruct (ReservationApp.dispatch (ReservationApp.new_stream, w) ev) as [s1 w1].
    cbn [fst] in Hc, Hs. rewrite deliver_closed by exact Hc. cbn [fst].
    destruct ev; try discriminate Hev.
    + destruct Hs as (e & ->). split; discriminate.
    + rewrite Hs. split; reflexivity.
  - pose proof (dispatch_nonterminal ReservationApp.new_stream w ev Hev) as Hd.
    destruct (ReservationApp.dispatch (ReservationApp.new_stream, w) ev) as [s1 w1].
    cbn [fst] in Hd. subst s1. apply IH.
Qed.

Lemma listen_spec (net : ReservationApp.Backend) (url : jsstring)
    (w : ReservationApp.World) :
  ReservationApp.calls (ReservationApp.listen net url w).2
  = ReservationApp.calls w ++ [ReservationApp.CallEventSource url]
  /\ ((ReservationApp.listen net url w).1 = ReservationApp.Returned tt
      <-> find is_terminal (ReservationApp.events net url)
          = Some ReservationApp.EvCompleted).
Proof.
  unfold ReservationApp.listen.
  match goal with |- context [ReservationApp.deliver ?evs ?w1] =>
    pose proof (foldl_dispatch_calls evs (ReservationApp.new_stream, w1)) as Hc;
    pose proof (deliver_find evs w1) as Hf;
    fold (ReservationApp.deliver evs w1) in Hc;
    destruct (ReservationApp.deliver evs w1) as [s w2] end.
  cbn [fst snd] in Hc, Hf. resv_simpl. rewrite <- Hf.
  destruct (ReservationApp.settled s) as [[|e]|]; cbn [fst snd];
    (split; [exact Hc|split; congruence]).
Qed.

Lemma fetchResult_calls (net : ReservationApp.Backend) (baseUrl enc : jsstring)
    (id : jsval) (w : ReservationApp.World) :
  encodeURIComponent (to_string id) = Some enc ->
  ReservationApp.calls (ReservationApp.fetchResult net baseUrl id w).2
  = ReservationApp.calls w
      ++ [ReservationApp.CallGet
            (ReservationApp.buildEndpointUrl baseUrl (lit "result/" ++ enc))].
Proof.
  intros Henc. unfold ReservationApp.fetchResult, mbind, ReservationApp.M_bind,
    ReservationApp.encode_id, ReservationApp.fetch_json. rewrite Henc.
  destruct (ReservationApp.get net _) as [m|status body]; [reflexivity|].
  destruct (negb (ReservationApp.response_ok status)); [|reflexivity].
  unfold ReservationApp.read_prop. destruct (get_prop _ (lit "message")); reflexivity.
Qed.

Lemma showCompletionModal_calls (title message : jsstring) (tone : ReservationApp.Tone)
    (w : ReservationApp.World) :
  ReservationApp.calls (ReservationApp.showCompletionModal title message tone w)
  = ReservationApp.calls w.
Proof.
  unfold ReservationApp.showCompletionModal, ReservationApp.setModalState.
  destruct (ReservationApp.completionModal w) eqn:Hm, (ReservationApp.modalTitle w),
    (ReservationApp.modalMessage w); try reflexivity.
  resv_simpl. now rewrite Hm.
Qed.

Lemma set_copyPrompt_calls (b : bool) (w : ReservationApp.World) :
  ReservationApp.calls (ReservationApp.set_copyPrompt b w) = ReservationApp.calls w.
Proof.
  unfold ReservationApp.set_copyPrompt.
  now destruct (ReservationApp.copyPromptButton_disabled w).
Qed.

Lemma set_copyPrompt_backend (b : bool) (w : ReservationApp.World) :
  ReservationApp.backendAddressInput (ReservationApp.set_copyPrompt b w)
  = ReservationApp.backendAddressInput w.
Proof.
  unfold ReservationApp.set_copyPrompt.
  now destruct (ReservationApp.copyPromptButton_disabled w).
Qed.

(** The requests one run of the [try] block issues. *)
Lemma request_calls (net : ReservationApp.Backend) (baseUrl watchId : jsstring)
    (w : ReservationApp.World) :
  ReservationApp.calls (ReservationApp.request net baseUrl watchId w).2
  = ReservationApp.calls w
      ++ ReservationApp.CallPost
           (ReservationApp.buildEndpointUrl baseUrl (lit "reservation"))
           (JObj [(lit "watch_id", JStr watchId)])
      :: match (ReservationApp.createReservation net baseUrl watchId w).1 with
         | ReservationApp.Returned id =>
             match encodeURIComponent (to_string id) with
             | Some enc =>
                 let eventsUrl :=
                   ReservationApp.buildEndpointUrl baseUrl (lit "events/" ++ enc) in
                 ReservationApp.CallEventSource eventsUrl
                 :: match find is_terminal (ReservationApp.events net eventsUrl) with
                    | Some ReservationApp.EvCompleted =>
                        [ReservationApp.CallGet
                           (ReservationApp.buildEndpointUrl baseUrl (lit "result/" ++ enc))]
                    | _ => []
                    end
             | None => []
             end
         | _ => []
         end.
Proof.
  unfold ReservationApp.request, mbind, ReservationApp.M_bind, ReservationApp.modify.
  match goal with |- context [ReservationApp.createReservation net baseUrl watchId ?w0] =>
    pose proof (createReservation_world net baseUrl watchId w0) as Hw;
    pose proof (createReservation_result_indep net baseUrl watchId w0 w) as Ho;
    destruct (ReservationApp.createReservation net baseUrl watchId w0) as [out wb] end.
  cbn [fst snd] in Hw, Ho. rewrite <- Ho. subst wb. resv_simpl.
  destruct out as [id|e|]; try reflexivity.
  unfold ReservationApp.waitForEvents, mbind, ReservationApp.M_bind,
    ReservationApp.encode_id.
  destruct (encodeURIComponent (to_string id)) as [enc|] eqn:Henc; [|reflexivity].
  match goal with |- context [ReservationApp.listen net ?url ?w0] =>
    destruct (listen_spec net url w0) as (Hc & Hr);
    destruct (ReservationApp.listen net url w0) as [r wd] end.
  cbn [fst snd] in Hc, Hr. resv_simpl.
  destruct r as [[]|e|].
  - rewrite (proj1 Hr eq_refl).
    match goal with |- context [ReservationApp.fetchResult net baseUrl id ?w0] =>
      pose proof (fetchResult_calls net baseUrl enc id w0 Henc) as Hg;
      destruct (ReservationApp.fetchResult net baseUrl id w0) as [o we] end.
    cbn [snd] in Hg. resv_simpl. rewrite Hc in Hg.
    assert (Hgoal : ReservationApp.calls we
                    = ReservationApp.calls w
                        ++ [ReservationApp.CallPost
                              (ReservationApp.buildEndpointUrl baseUrl (lit "reservation"))
                              (JObj [(lit "watch_id", JStr watchId)]);
                            ReservationApp.CallEventSource
                              (ReservationApp.buildEndpointUrl baseUrl
                                 (lit "events/" ++ enc));
                            ReservationApp.CallGet
                              (ReservationApp.buildEndpointUrl baseUrl
                                 (lit "result/" ++ enc))])
      by (rewrite Hg, <- !app_assoc; reflexivity).
    destruct o as [data|e|]; cbn [snd]; try exact Hgoal.
    unfold ReservationApp.read_prop. destruct (get_prop data (lit "text")) as [text|];
      cbn [snd]; [|exact Hgoal].
    rewrite showCompletionModal_calls. resv_simpl. rewrite set_copyPrompt_calls.
    exact Hgoal.
  - assert (Hn : find is_terminal
                   (ReservationApp.events net
                      (ReservationApp.buildEndpointUrl baseUrl (lit "events/" ++ enc)))
                 <> Some ReservationApp.EvCompleted)
      by (intros Hx; apply Hr in Hx; discriminate Hx).
    cbn [snd]. rewrite Hc, <- app_assoc.
    destruct (find is_terminal _) as [[]|]; try reflexivity. congruence.
  - assert (Hn : find is_terminal
                   (ReservationApp.events net
                      (ReservationApp.buildEndpointUrl baseUrl (lit "events/" ++ enc)))
                 <> Some ReservationApp.EvCompleted)
      by (intros Hx; apply Hr in Hx; discriminate Hx).
    cbn [snd]. rewrite Hc, <- app_assoc.
    destruct (find is_terminal _) as [[]|]; try reflexivity. congruence.
Qed.

Lemma report_spec (e : ReservationApp.Exn) (w : ReservationApp.World) :
  (ReservationApp.report e w).1 = ReservationApp.Returned tt
  /\ ReservationApp.calls (ReservationApp.report e w).2 = ReservationApp.calls w.
Proof.
  unfold ReservationApp.report, ReservationApp.modify. cbn [fst snd].
  now rewrite showCompletionModal_calls.
Qed.

Lemma normalizeBackendBaseUrl_calls (value : jsstring) (w : ReservationApp.World) :
  ReservationApp.calls (ReservationApp.normalizeBackendBaseUrl value w).2
  = ReservationApp.calls w.
Proof.
  unfold ReservationApp.normalizeBackendBaseUrl.
  destruct (negb (str_truthy (trim value))); [reflexivity|].
  match goal with |- context [match ?x with Some _ => _ | None => _ end] =>
    destruct x end; reflexivity.
Qed.

(** The base URL is computed from the address field alone. *)
Lemma normalizeBackendBaseUrl_url (value : jsstring) (w w' : ReservationApp.World) :
  (ReservationApp.normalizeBackendBaseUrl value w).1
  = (ReservationApp.normalizeBackendBaseUrl value w').1.
Proof.
  unfold ReservationApp.normalizeBackendBaseUrl.
  destruct (negb (str_truthy (trim value))); [reflexivity|].
  match goal with |- context [match ?x with Some _ => _ | None => _ end] =>
    destruct x end; reflexivity.
Qed.

(** C3. One click of the reservation client issues its requests in this
    order and no other: nothing when the trimmed input is empty; otherwise
    the POST that creates the reservation; then, only when that returned an
    id, the event stream [events/<id>]; then, only when the first terminal
    event of that stream is [completed], the GET of [result/<id>]. When the
    stream ends with [error], with a connection failure, or never ends, no
    result is fetched. *)
Theorem reservation_phases (net : ReservationApp.Backend) (w : ReservationApp.World) :
  let watchId := trim (ReservationApp.watchIdInput w) in
  let value :=
    match ReservationApp.backendAddressInput w with
    | Some v => str_or v []
    | None => []
    end in
  let baseUrl := (ReservationApp.normalizeBackendBaseUrl value w).1 in
  ReservationApp.calls (ReservationApp.downloadButton_click net w).2
  = ReservationApp.calls w
      ++ (if decide (watchId = []) then []
          else
            ReservationApp.CallPost
              (ReservationApp.buildEndpointUrl baseUrl (lit "reservation"))
              (JObj [(lit "watch_id", JStr watchId)])
            :: match (ReservationApp.createReservation net baseUrl watchId w).1 with
               | ReservationApp.Returned id =>
                   match encodeURIComponent (to_string id) with
                   | Some enc =>
                       let eventsUrl :=
                         ReservationApp.buildEndpointUrl baseUrl (lit "events/" ++ enc) in
                       ReservationApp.CallEventSource eventsUrl
                       :: match find is_terminal (ReservationApp.events net eventsUrl) with
                          | Some ReservationApp.EvCompleted =>
                              [ReservationApp.CallGet
                                 (ReservationApp.buildEndpointUrl baseUrl
                                    (lit "result/" ++ enc))]
                          | _ => []
                          end
                   | None => []
                   end
               | _ => []
               end).
Proof.
  intros watchId value baseUrl. unfold ReservationApp.downloadButton_click.
  rewrite sanitizeWatchId_trim. fold watchId.
  destruct (decide (watchId = [])) as [Hw|Hw].
  { rewrite Hw. cbn [str_truthy negb snd]. resv_simpl. now rewrite app_nil_r. }
  apply str_truthy_true in Hw. rewrite Hw. cbn [negb].
  match goal with |- context [ReservationApp.normalizeBackendBaseUrl ?v ?w1] =>
    pose proof (normalizeBackendBaseUrl_calls v w1) as Hc;
    pose proof (normalizeBackendBaseUrl_url v w1 w) as Hu;
    destruct (ReservationApp.normalizeBackendBaseUrl v w1) as [b w2] end.
  cbn [fst snd] in Hc, Hu.
  assert (Hb : b = baseUrl).
  { rewrite Hu. subst baseUrl value. resv_simpl.
    rewrite set_copyPrompt_backend. reflexivity. }
  clear Hu. subst b. unfold ReservationApp.try_catch_finally.
  pose proof (request_calls net baseUrl watchId w2) as Hr.
  rewrite (createReservation_result_indep net baseUrl watchId w2 w) in Hr.
  rewrite Hc in Hr. resv_simpl. rewrite set_copyPrompt_calls in Hr. resv_simpl.
  destruct (ReservationApp.request net baseUrl watchId w2) as [[[]|e|] w3];
    cbn [snd] in Hr |- *; resv_simpl; try exact Hr.
  destruct (report_spec e w3) as (Ho & Hcalls).
  destruct (ReservationApp.report e w3) as [r w4]. cbn [fst snd] in Ho, Hcalls.
  subst r. cbn [snd]. resv_simpl. now rewrite Hcalls.
Qed.

End Phases.

(** *** The request control of the reservation client *)

Section Control.
Context `{Platform}.

Lemma foldl_dispatch_control (evs : list ReservationApp.SseEvent)
    (st : ReservationApp.Stream * ReservationApp.World) :
  ReservationApp.downloadButton_disabled (foldl ReservationApp.dispatch st evs).2
  = ReservationApp.downloadButton_disabled st.2.
Proof.
  revert st. induction evs as [|ev evs IH]; intros st; [reflexivity|].
  cbn [foldl]. rewrite IH. destruct st as [s w]. unfold ReservationApp.dispatch.
  destruct (ReservationApp.es_closed s); [reflexivity|].
  destruct ev as [|data|data| |]; try reflexivity.
  unfold ReservationApp.on_log. destruct data as [d|]; [|reflexivity].
  now destruct (get_prop d (lit "message")).
Qed.

Lemma listen_control (net : ReservationApp.Backend) (url : jsstring)
    (w : ReservationApp.World) :
  ReservationApp.downloadButton_disabled (ReservationApp.listen net url w).2
  = ReservationApp.downloadButton_disabled w.
Proof.
  unfold ReservationApp.listen.
  match goal with |- context [ReservationApp.deliver ?evs ?w1] =>
    pose proof (foldl_dispatch_control evs (ReservationApp.new_stream, w1)) as Hc;
    fold (ReservationApp.deliver evs w1) in Hc;
    destruct (ReservationApp.deliver evs w1) as [s w2] end.
  cbn [snd] in Hc. now destruct (ReservationApp.settled s) as [[|e]|].
Qed.

Lemma fetchResult_control (net : ReservationApp.Backend) (baseUrl : jsstring)
    (id : jsval) (w : ReservationApp.World) :
  ReservationApp.downloadButton_disabled (ReservationApp.fetchResult net baseUrl id w).2
  = ReservationApp.downloadButton_disabled w.
Proof.
  unfold ReservationApp.fetchResult, mbind, ReservationApp.M_bind,
    ReservationApp.encode_id, ReservationApp.fetch_json.
  destruct (encodeURIComponent (to_string id)); [|reflexivity].
  destruct (ReservationApp.get net _) as [m|status body]; [reflexivity|].
  destruct (negb (ReservationApp.response_ok status)); [|reflexivity].
  unfold ReservationApp.read_prop. destruct (get_prop _ (lit "message")); reflexivity.
Qed.

Lemma showCompletionModal_control (title message : jsstring) (tone : ReservationApp.Tone)
    (w : ReservationApp.World) :
  ReservationApp.downloadButton_disabled
    (ReservationApp.showCompletionModal title message tone w)
  = ReservationApp.downloadButton_disabled w.
Proof.
  unfold ReservationApp.showCompletionModal, ReservationApp.setModalState.
  destruct (ReservationApp.completionModal w) eqn:Hm, (ReservationApp.modalTitle w),
    (ReservationApp.modalMessage w); try reflexivity.
  resv_simpl. now rewrite Hm.
Qed.

Lemma set_copyPrompt_control (b : bool) (w : ReservationApp.World) :
  ReservationApp.downloadButton_disabled (ReservationApp.set_copyPrompt b w)
  = ReservationApp.downloadButton_disabled w.
Proof.
  unfold ReservationApp.set_copyPrompt.
  now destruct (ReservationApp.copyPromptButton_disabled w).
Qed.

(** The [try] block never touches the request control. *)
Lemma request_control (net : ReservationApp.Backend) (baseUrl watchId : jsstring)
    (w : ReservationApp.World) :
  ReservationApp.downloadButton_disabled (ReservationApp.request net baseUrl watchId w).2
  = ReservationApp.downloadButton_disabled w.
Proof.
  unfold ReservationApp.request, mbind, ReservationApp.M_bind, ReservationApp.modify.
  match goal with |- context [ReservationApp.createReservation net baseUrl watchId ?w0] =>
    pose proof (createReservation_world net baseUrl watchId w0) as Hw;
    destruct (ReservationApp.createReservation net baseUrl watchId w0) as [out wb] end.
  cbn [snd] in Hw. subst wb.
  destruct out as [id|e|]; try reflexivity.
  unfold ReservationApp.waitForEvents, mbind, ReservationApp.M_bind,
    ReservationApp.encode_id.
  destruct (encodeURIComponent (to_string id)) as [enc|]; [|reflexivity].
  match goal with |- context [ReservationApp.listen net ?url ?w0] =>
    pose proof (listen_control net url w0) as Hl;
    destruct (ReservationApp.listen net url w0) as [r wd] end.
  cbn [snd] in Hl. resv_simpl.
  destruct r as [[]|e|]; cbn [snd]; try exact Hl.
  match goal with |- context [ReservationApp.fetchResult net baseUrl id ?w0] =>
    pose proof (fetchResult_control net baseUrl id w0) as Hg;
    destruct (ReservationApp.fetchResult net baseUrl id w0) as [o we] end.
  cbn [snd] in Hg. resv_simpl. rewrite Hl in Hg.
  destruct o as [data|e|]; cbn [snd]; try exact Hg.
  unfold ReservationApp.read_prop. destruct (get_prop data (lit "text")) as [text|];
    cbn [snd]; [|exact Hg].
  rewrite showCompletionModal_control. resv_simpl. rewrite set_copyPrompt_control.
  exact Hg.
Qed.

(** The reservation client ends every request that has an outcome with the
    control enabled; a stream that never ends leaves the handler suspended
    with the control disabled. *)
Lemma reservation_click_reenables (net : ReservationApp.Backend)
    (w : ReservationApp.World) :
  trim (ReservationApp.watchIdInput w) <> [] ->
  ReservationApp.downloadButton_disabled (ReservationApp.downloadButton_click net w).2
  = match (ReservationApp.downloadButton_click net w).1 with
    | ReservationApp.Pending => true
    | _ => false
    end.
Proof.
  intros Hw. unfold ReservationApp.downloadButton_click. rewrite sanitizeWatchId_trim.
  apply str_truthy_true in Hw. rewrite Hw. cbn [negb].
  match goal with |- context [ReservationApp.normalizeBackendBaseUrl ?v ?w1] =>
    assert (Hd : ReservationApp.downloadButton_disabled
                   (ReservationApp.normalizeBackendBaseUrl v w1).2 = true);
    [|destruct (ReservationApp.normalizeBackendBaseUrl v w1) as [b w2]] end.
  { unfold ReservationApp.normalizeBackendBaseUrl.
    destruct (negb (str_truthy (trim _))); [reflexivity|].
    match goal with |- context [match ?x with Some _ => _ | None => _ end] =>
      destruct x end; reflexivity. }
  cbn [snd] in Hd. unfold ReservationApp.try_catch_finally.
  pose proof (request_control net b (trim (ReservationApp.watchIdInput w)) w2) as Hr.
  destruct (ReservationApp.request net b (trim (ReservationApp.watchIdInput w)) w2)
    as [[[]|e|] w3]; cbn [fst snd] in Hr |- *.
  - reflexivity.
  - unfold ReservationApp.report, ReservationApp.modify. reflexivity.
  - congruence.
Qed.

End Control.

(** ** Saved fields *)

(** C8, as the code has it. The [change] listener stores the trimmed
    backend address under "backendAddress" when it is not empty and removes
    the key when it is; the [input] listener stores the prompt template
    under "promptTemplate" whatever it is. On load a saved value that is not
    empty is put back into its field. A backend address that is absent or
    empty leaves the field of docs/app.js as the page has it and gives the
    page origin in the reservation client; a template that is absent or
    empty gives the built-in template, which is stored in its place. *)
Theorem saved_fields `{Platform} (v t html : jsstring)
    (st : gmap jsstring jsstring)
    (wd pd : DocsApp.World) (wr pr : ReservationApp.World) :
  let key := lit "backendAddress" in
  let tkey := lit "promptTemplate" in
  let loaded_d :=
    DocsApp.load (DocsApp.set_localStorage st
                    (DocsApp.set_backendAddressInput (Some html) pd)) in
  let loaded_r :=
    ReservationApp.load
      (ReservationApp.set_localStorage st
         (ReservationApp.set_promptTemplateInput (Some html)
            (ReservationApp.set_backendAddressInput (Some html) pr))) in
  DocsApp.localStorage
    (DocsApp.backendAddress_change (DocsApp.set_backendAddressInput (Some v) wd))
  = (if decide (trim v = []) then delete key (DocsApp.localStorage wd)
     else <[key := trim v]> (DocsApp.localStorage wd))
  /\ ReservationApp.localStorage
       (ReservationApp.backendAddress_change
          (ReservationApp.set_backendAddressInput (Some v) wr))
     = (if decide (trim v = []) then delete key (ReservationApp.localStorage wr)
        else <[key := trim v]> (ReservationApp.localStorage wr))
  /\ ReservationApp.localStorage
       (ReservationApp.promptTemplate_input
          (ReservationApp.set_promptTemplateInput (Some t) wr))
     = <[tkey := t]> (ReservationApp.localStorage wr)
  /\ DocsApp.backendAddressInput loaded_d
     = Some match st !! key with
            | Some saved => if decide (saved = []) then html else saved
            | None => html
            end
  /\ ReservationApp.backendAddressInput loaded_r
     = Some match st !! key with
            | Some saved =>
                if decide (saved = []) then ReservationApp.defaultBackendAddress else saved
            | None => ReservationApp.defaultBackendAddress
            end
  /\ ReservationApp.promptTemplateInput loaded_r
     = Some match st !! tkey with
            | Some saved =>
                if decide (saved = []) then ReservationApp.defaultPromptTemplate else saved
            | None => ReservationApp.defaultPromptTemplate
            end
  /\ ReservationApp.localStorage loaded_r !! tkey
     = ReservationApp.promptTemplateInput loaded_r.
Proof.
  intros key tkey loaded_d loaded_r.
  split.
  { unfold DocsApp.backendAddress_change. docs_simpl.
    destruct (trim v); [reflexivity|]. now rewrite decide_False. }
  split.
  { unfold ReservationApp.backendAddress_change. resv_simpl.
    destruct (trim v); [reflexivity|]. now rewrite decide_False. }
  split; [reflexivity|].
  split.
  { subst loaded_d. unfold DocsApp.load. docs_simpl. fold key.
    destruct (st !! key) as [[|c saved]|]; reflexivity. }
  subst loaded_r. unfold ReservationApp.load. resv_simpl. fold key tkey.
  destruct (st !! key) as [[|c saved]|]; cbn [str_truthy]; resv_simpl; fold tkey;
    destruct (st !! tkey) as [[|c' saved']|] eqn:Ht; cbn [str_truthy]; resv_simpl;
    (split; [reflexivity|split; [reflexivity|]]);
    rewrite ?lookup_insert_eq; try reflexivity; exact Ht.
Qed.

(** C8 as stated fails for the template: an emptied template is saved by
    the [input] listener, and the next load shows the built-in template
    instead of the saved one. *)
Lemma empty_template_not_restored :
  let w := ReservationApp.promptTemplate_input
             (ReservationApp.set_promptTemplateInput (Some []) ReservationApp.blank) in
  let next :=
    ReservationApp.load (H := SampleBrowser.browser)
      (ReservationApp.set_localStorage (ReservationApp.localStorage w)
         ReservationApp.blank) in
  ReservationApp.localStorage w !! lit "promptTemplate" = Some []
  /\ ReservationApp.promptTemplateInput next = Some ReservationApp.defaultPromptTemplate
  /\ ReservationApp.promptTemplateInput next <> Some [].
Proof.
  intros w next.
  assert (Hn : ReservationApp.promptTemplateInput next
               = Some ReservationApp.defaultPromptTemplate) by (vm_compute; reflexivity).
  split; [vm_compute; reflexivity|]. split; [exact Hn|].
  rewrite Hn. vm_compute. discriminate.
Qed.

(** ** Sample sessions *)

Example normalized_sample :
  SimpleSocket.normalized ([9%N] ++ lit "  never   gonna" ++ [10%N; 13%N] ++ lit "give ")
  = lit "never gonna give".
Proof. vm_compute. reflexivity. Qed.

Example docs_session :
  let result :=
    JObj [(lit "type", JStr (lit "result")); (lit "text", JStr (lit "hello"));
          (lit "language", JStr (lit "en"))] in
  let w :=
    DocsApp.run (H := SampleBrowser.browser) (DocsApp.load DocsApp.blank)
      [DocsApp.UserChangesBackendAddress (lit "https://example.org");
       DocsApp.UserTypesWatchId (lit " dQw4w9WgXcQ "); DocsApp.Click; DocsApp.SockOpen 0;
       DocsApp.SockMessage 0 (Some (JObj [(lit "type", JStr (lit "log"));
                                          (lit "message", JStr (lit "fetching"))]));
       DocsApp.SockMessage 0 (Some result)] in
  map ws_url (DocsApp.sockets w) = [lit "wss://example.org/ws"]
  /\ all_sent (DocsApp.sockets w) = [DocsApp.download_frame (lit "dQw4w9WgXcQ")]
  /\ DocsApp.downloadButton_disabled w = false
  /\ DocsApp.copyButton_disabled w = false
  /\ DocsApp.fullText w = lit "hello"
  /\ DocsApp.statusEl w = lit "Status: Completed (language: en)".
Proof. vm_compute. repeat split. Qed.

Example reservation_completed :
  let net := sample_backend (sample_logs ++ [ReservationApp.EvCompleted]) in
  let w := ReservationApp.set_watchIdInput (lit "dQw4w9WgXcQ")
             (ReservationApp.load (H := SampleBrowser.browser) ReservationApp.blank) in
  let r := ReservationApp.downloadButton_click (H := SampleBrowser.browser) net w in
  r.1 = ReservationApp.Returned tt
  /\ ReservationApp.calls r.2
     = [ReservationApp.CallPost (lit "http://localhost:8080/reservation")
          (JObj [(lit "watch_id", JStr (lit "dQw4w9WgXcQ"))]);
        ReservationApp.CallEventSource (lit "http://localhost:8080/events/r1");
        ReservationApp.CallGet (lit "http://localhost:8080/result/r1")]
  /\ ReservationApp.fullText r.2 = lit "hello"
  /\ ReservationApp.downloadButton_disabled r.2 = false
  /\ ReservationApp.statusEl r.2 = lit "Status: Completed (language: en)".
Proof. vm_compute. repeat split. Qed.

Example reservation_backend_error :
  let failure := ReservationApp.EvError (Some (JObj [(lit "message", JStr (lit "No subtitles"))])) in
  let net := sample_backend (sample_logs ++ [failure; ReservationApp.EvCompleted]) in
  let w := ReservationApp.set_watchIdInput (lit "dQw4w9WgXcQ")
             (ReservationApp.load (H := SampleBrowser.browser) ReservationApp.blank) in
  let r := ReservationApp.downloadButton_click (H := SampleBrowser.browser) net w in
  r.1 = ReservationApp.Returned tt
  /\ ReservationApp.calls r.2
     = [ReservationApp.CallPost (lit "http://localhost:8080/reservation")
          (JObj [(lit "watch_id", JStr (lit "dQw4w9WgXcQ"))]);
        ReservationApp.CallEventSource (lit "http://localhost:8080/events/r1")]
  /\ ReservationApp.modalMessage r.2 = Some (lit "No subtitles")
  /\ ReservationApp.downloadButton_disabled r.2 = false
  /\ ReservationApp.statusEl r.2 = lit "Status: Error".
Proof. vm_compute. repeat split. Qed.

(** A connection failure is an [error] event without data: the listener
    added for [error] events runs before [onerror] and its message wins. *)
Example reservation_connection_failure :
  let net := sample_backend [ReservationApp.EvError None] in
  let w := ReservationApp.set_watchIdInput (lit "dQw4w9WgXcQ")
             (ReservationApp.load (H := SampleBrowser.browser) ReservationApp.blank) in
  let r := ReservationApp.downloadButton_click (H := SampleBrowser.browser) net w in
  r.1 = ReservationApp.Returned tt
  /\ ReservationApp.modalMessage r.2 = Some (lit "Stream error from backend.")
  /\ ReservationApp.downloadButton_disabled r.2 = false.
Proof. vm_compute. repeat split. Qed.

(** A stream that never ends keeps the listener suspended. *)
Example reservation_pending :
  let net := sample_backend sample_logs in
  let w := ReservationApp.set_watchIdInput (lit "dQw4w9WgXcQ")
             (ReservationApp.load (H := SampleBrowser.browser) ReservationApp.blank) in
  let r := ReservationApp.downloadButton_click (H := SampleBrowser.browser) net w in
  r.1 = ReservationApp.Pending
  /\ ReservationApp.downloadButton_disabled r.2 = true
  /\ ReservationApp.statusEl r.2 = lit "Status: Waiting for backend events...".
Proof. vm_compute. repeat split. Qed.

(** * Further properties *)

(** ** Normalised preview text *)

Lemma words_are_words (s : jsstring) : Forall is_word (words s).
Proof.
  induction s as [|c s IH]; [constructor|].
  cbn [words]. destruct (is_white_space c) eqn:Ec; [exact IH|].
  destruct s as [|c' s']; [repeat constructor; [discriminate|exact Ec]|].
  destruct (is_white_space c') eqn:Ec'.
  - constructor; [|exact IH]. split; [discriminate|]. now repeat constructor.
  - destruct (words (c' :: s')) as [|w r]; [repeat constructor; [discriminate|exact Ec]|].
    apply Forall_cons in IH as [[_ Hw] Hr]. constructor; [|exact Hr].
    split; [discriminate|]. now constructor.
Qed.

Lemma words_app_word (w s : jsstring) :
  is_word w ->
  match s with [] => True | c :: _ => is_white_space c = true end ->
  words (w ++ s) = w :: words s.
Proof.
  intros [Hne Hw] Hs. induction Hw as [|c w Hc Hw IH]; [congruence|].
  destruct w as [|c2 w'].
  - cbn [app words]. rewrite Hc. destruct s as [|c' s']; [reflexivity|]. now rewrite Hs.
  - assert (Hc2 : is_white_space c2 = false) by now apply Forall_cons in Hw as [? _].
    specialize (IH ltac:(discriminate)).
    change ((c :: c2 :: w') ++ s) with (c :: ((c2 :: w') ++ s)).
    cbn [words]. rewrite Hc, IH. cbn [app]. now rewrite Hc2.
Qed.

Lemma words_unwords (ws : list jsstring) : Forall is_word ws -> words (unwords ws) = ws.
Proof.
  induction 1 as [|w r Hw Hr IH]; [reflexivity|].
  cbn [unwords]. destruct r as [|w2 r'].
  - rewrite <- (app_nil_r w) at 1. now rewrite words_app_word.
  - rewrite words_app_word; [|exact Hw|reflexivity]. f_equal.
    change (words (SPACE :: unwords (w2 :: r'))) with (words (unwords (w2 :: r'))).
    exact IH.
Qed.

Lemma unwords_spaces (ws : list jsstring) :
  Forall is_word ws ->
  Forall (fun c => is_white_space c = true -> c = SPACE) (unwords ws).
Proof.
  induction 1 as [|w r [_ Hw] Hr IH]; [constructor|].
  assert (Hword : Forall (fun c => is_white_space c = true -> c = SPACE) w).
  { eapply Forall_impl; [exact Hw|]. intros c Hc Hc'. congruence. }
  cbn [unwords]. destruct r; [exact Hword|].
  apply Forall_app_2; [exact Hword|]. constructor; [reflexivity|exact IH].
Qed.

Lemma length_trimStart (s : jsstring) : length (trimStart s) <= length s.
Proof.
  induction s as [|c s IH]; [reflexivity|]. cbn [trimStart].
  destruct (is_white_space c); cbn [length]; lia.
Qed.

Lemma length_trimEnd (s : jsstring) : length (trimEnd s) <= length s.
Proof.
  induction s as [|c s IH]; [reflexivity|]. cbn [trimEnd].
  destruct (trimEnd s); [destruct (is_white_space c)|]; cbn [length] in *; lia.
Qed.

Lemma length_replace_ws_runs (b : bool) (s : jsstring) :
  length (replace_ws_runs b s) <= length s.
Proof.
  revert b. induction s as [|c s IH]; intros b; [reflexivity|]. cbn [replace_ws_runs].
  destruct (is_white_space c); [destruct b|]; cbn [length];
    match goal with |- context [replace_ws_runs ?x s] => specialize (IH x) end; lia.
Qed.

Lemma trimEnd_last (s : jsstring) :
  match last (trimEnd s) with
  | Some c => is_white_space c = false
  | None => True
  end.
Proof.
  induction s as [|c s IH]; [exact I|]. cbn [trimEnd].
  destruct (trimEnd s) as [|d t] eqn:Et.
  - destruct (is_white_space c) eqn:Ec; [exact I|exact Ec].
  - rewrite last_cons. destruct (last (d :: t)) eqn:El; [exact IH|].
    apply last_None in El. discriminate.
Qed.

Lemma trim_head (s : jsstring) :
  match head (trim s) with Some c => is_white_space c = false | None => True end.
Proof.
  unfold trim. pose proof (trimStart_head s) as Hh.
  destruct (trimStart s) as [|c r]; [exact I|].
  rewrite (trimEnd_head _ _ Hh). exact Hh.
Qed.

Lemma no_adjacent_ws_word (w u : jsstring) :
  Forall (fun c => is_white_space c = false) w ->
  match u with [] => True | c :: _ => is_white_space c = false end ->
  no_adjacent_ws u = true ->
  w <> [] ->
  no_adjacent_ws (w ++ SPACE :: u) = true.
Proof.
  intros Hw Hu Hadj. induction Hw as [|c w Hc Hw IH]; [congruence|]. intros _.
  destruct w as [|c2 w'].
  - cbn [app no_adjacent_ws]. rewrite Hc. cbn [andb negb].
    destruct u as [|d u']; [reflexivity|]. rewrite Hu, andb_false_r. exact Hadj.
  - change ((c :: c2 :: w') ++ SPACE :: u) with (c :: c2 :: (w' ++ SPACE :: u)).
    cbn [no_adjacent_ws]. rewrite Hc. cbn [andb negb].
    apply IH. discriminate.
Qed.

Lemma no_adjacent_ws_unwords (ws : list jsstring) :
  Forall is_word ws -> no_adjacent_ws (unwords ws) = true.
Proof.
  induction 1 as [|w r [Hne Hw] Hr IH]; [reflexivity|].
  cbn [unwords]. destruct r as [|w2 r'].
  - clear IH Hr Hne. induction Hw as [|c w Hc Hw IH]; [reflexivity|].
    destruct w; [reflexivity|]. cbn [no_adjacent_ws]. rewrite Hc. exact IH.
  - apply no_adjacent_ws_word; [exact Hw| |exact IH|exact Hne].
    apply Forall_cons in Hr as [[Hne2 Hw2] _].
    destruct w2 as [|c2 w2']; [congruence|].
    apply Forall_cons in Hw2 as [Hc2 _]. rewrite unwords_cons_head. exact Hc2.
Qed.

Lemma no_adjacent_ws_lookup (s : jsstring) (i : nat) (c d : N) :
  no_adjacent_ws s = true ->
  s !! i = Some c -> s !! S i = Some d ->
  is_white_space c = true -> is_white_space d = false.
Proof.
  revert i. induction s as [|a s IH]; intros i Hadj Hc Hd Hws; [discriminate|].
  destruct s as [|b s']; [discriminate|].
  cbn [no_adjacent_ws] in Hadj. apply andb_true_iff in Hadj as [Hab Hrest].
  destruct i as [|i].
  - cbn in Hc, Hd. injection Hc as ->. injection Hd as ->.
    rewrite Hws in Hab. now destruct (is_white_space d).
  - exact (IH i Hrest Hc Hd Hws).
Qed.

(** The normalised text of [setPreview] is a fixed point of the
    normalisation and is not longer than the input. Its only white space
    is the space, and the spaces are single and stand between words: the
    text neither starts nor ends with white space, and no two neighbouring
    code units are both white space. *)
Theorem normalized_fixed (text : jsstring) :
  let n := SimpleSocket.normalized text in
  SimpleSocket.normalized n = n
  /\ length n <= length text
  /\ Forall (fun c => is_white_space c = true -> c = SPACE) n
  /\ match head n with Some c => is_white_space c = false | None => True end
  /\ match last n with Some c => is_white_space c = false | None => True end
  /\ (forall i c d, n !! i = Some c -> n !! S i = Some d ->
                    is_white_space c = true -> is_white_space d = false).
Proof.
  intros n. subst n. split; [|split; [|split; [|split; [|split]]]].
  - rewrite !normalized_words. now rewrite words_unwords by apply words_are_words.
  - unfold SimpleSocket.normalized, trim.
    pose proof (length_trimEnd (trimStart (replace_ws_runs false text))).
    pose proof (length_trimStart (replace_ws_runs false text)).
    pose proof (length_replace_ws_runs false text). lia.
  - rewrite normalized_words. apply unwords_spaces, words_are_words.
  - apply trim_head.
  - unfold SimpleSocket.normalized, trim. apply trimEnd_last.
  - intros i c d. apply no_adjacent_ws_lookup.
    rewrite normalized_words. apply no_adjacent_ws_unwords, words_are_words.
Qed.

Lemma normalized_fixed_witness :
  let n := SimpleSocket.normalized [32; 97; 9; 10; 98; 32; 32; 99; 32]%N in
  n = [97; 32; 98; 32; 99]%N
  /\ (n !! 1 = Some 32%N /\ n !! 2 = Some 98%N /\ is_white_space 32 = true)
  /\ is_white_space 98 = false.
Proof.
  intros n. split; [vm_compute; reflexivity|].
  assert (H1 : n !! 1 = Some 32%N) by (vm_compute; reflexivity).
  assert (H2 : n !! 2 = Some 98%N) by (vm_compute; reflexivity).
  assert (H3 : is_white_space 32 = true) by (vm_compute; reflexivity).
  split; [now repeat split|].
  destruct (normalized_fixed [32; 97; 9; 10; 98; 32; 32; 99; 32]%N)
    as (_ & _ & _ & _ & _ & Hadj).
  exact (Hadj 1 32%N 98%N H1 H2 H3).
Defined.

(** Each excerpt [setPreview] shows has between 1 and 400 code units. When
    the normalised text is empty both excerpts are "-"; otherwise the
    beginning excerpt is a prefix and the ending excerpt a suffix of the
    normalised text. *)
Theorem preview_bounds (text : jsstring) :
  let n := SimpleSocket.normalized text in
  (1 <= length (SimpleSocket.preview_start text) <= 400)
  /\ (1 <= length (SimpleSocket.preview_end text) <= 400)
  /\ (n = [] /\ SimpleSocket.preview_start text = lit "-"
      \/ n <> [] /\ exists rest, n = SimpleSocket.preview_start text ++ rest)
  /\ (n = [] /\ SimpleSocket.preview_end text = lit "-"
      \/ n <> [] /\ exists rest, n = rest ++ SimpleSocket.preview_end text).
Proof.
  intros n. unfold SimpleSocket.preview_start, SimpleSocket.preview_end,
    SimpleSocket.previewSize, slice_to, slice_from, str_or. fold n.
  generalize n. clear n. intros n.
  destruct n as [|c n'] eqn:En.
  { vm_compute. repeat split; try lia; now left. }
  rewrite <- En. assert (Hlen : 1 <= length n) by (rewrite En; cbn; lia).
  assert (Hne : n <> []) by (rewrite En; discriminate).
  assert (Htake : take 400 n <> []) by (rewrite En; discriminate).
  apply str_truthy_true in Htake. rewrite Htake.
  split; [rewrite length_take; lia|].
  destruct (Nat.ltb_spec 400 (length n)) as [Hlt|Hge].
  - rewrite Nat.max_0_l. split; [rewrite length_drop; lia|].
    split; right; (split; [exact Hne|]).
    + exists (drop 400 n). now rewrite take_drop.
    + exists (take (length n - 400) n). now rewrite take_drop.
  - assert (Hn : str_truthy n = true) by (rewrite En; reflexivity). rewrite Hn.
    split; [lia|]. split; right; (split; [exact Hne|]).
    + exists (drop 400 n). now rewrite take_drop.
    + now exists [].
Qed.

(** ** Watch ids *)

Lemma trimStart_nil (s : jsstring) :
  trimStart s = [] <-> Forall (fun c => is_white_space c = true) s.
Proof.
  induction s as [|c s IH]; [split; [constructor|reflexivity]|].
  cbn [trimStart]. destruct (is_white_space c) eqn:Ec.
  - rewrite IH. split; [now constructor|]. intros Hall. now apply Forall_cons in Hall as [_ ?].
  - split; [discriminate|]. intros Hall. apply Forall_cons in Hall as [? _]. congruence.
Qed.

(** [sanitizeWatchId] gives a text without white space at either end,
    changes nothing when applied again, and gives the empty text exactly
    for inputs that consist of white space only. *)
Theorem sanitizeWatchId_clean (value : jsstring) :
  let id := sanitizeWatchId value in
  sanitizeWatchId id = id
  /\ (id = [] <-> Forall (fun c => is_white_space c = true) value)
  /\ match head id with Some c => is_white_space c = false | None => True end
  /\ match last id with Some c => is_white_space c = false | None => True end.
Proof.
  intros id. subst id. rewrite !sanitizeWatchId_trim. split; [apply trim_fixed|].
  assert (Hhead : match head (trim value) with
                  | Some c => is_white_space c = false
                  | None => True
                  end).
  { unfold trim. pose proof (trimStart_head value) as Hh.
    destruct (trimStart value) as [|c r]; [exact I|].
    rewrite (trimEnd_head _ _ Hh). exact Hh. }
  split; [|split; [exact Hhead|apply trimEnd_last]].
  rewrite <- trimStart_nil. unfold trim.
  pose proof (trimStart_head value) as Hh.
  destruct (trimStart value) as [|c r]; [reflexivity|].
  rewrite (trimEnd_head _ _ Hh). split; discriminate.
Qed.

(** ** The prompt *)

(** [buildYouTubeUrl] leaves its own results as they are, and its result
    is empty exactly when its input is. *)
Theorem buildYouTubeUrl_fixed (value : jsstring) :
  Prompt.buildYouTubeUrl (Prompt.buildYouTubeUrl value) = Prompt.buildYouTubeUrl value
  /\ (Prompt.buildYouTubeUrl value = [] <-> value = []).
Proof.
  destruct value as [|c v]; [split; [reflexivity|split; reflexivity]|].
  assert (Hcases : Prompt.buildYouTubeUrl (c :: v) = c :: v
                   /\ (startsWith_ci (lit "http://") (c :: v)
                       || startsWith_ci (lit "https://") (c :: v) = true)
                   \/ Prompt.buildYouTubeUrl (c :: v)
                      = lit "https://www.youtube.com/watch?v=" ++ c :: v).
  { unfold Prompt.buildYouTubeUrl. cbn [str_truthy negb].
    destruct (startsWith_ci (lit "http://") (c :: v)
              || startsWith_ci (lit "https://") (c :: v)); [left|right]; now repeat split. }
  destruct Hcases as [[Heq Hh] | Heq]; rewrite Heq.
  - split; [|split; discriminate]. unfold Prompt.buildYouTubeUrl. cbn [str_truthy negb].
    now rewrite Hh.
  - split; [reflexivity|]. split; [|discriminate].
    intros Hnil. apply (f_equal length) in Hnil. rewrite length_app in Hnil.
    cbn [length] in Hnil. lia.
Qed.

Section ReplaceAll.
Variables (replacement whole : jsstring).

Lemma replaceAll_from_skip (x s : jsstring) (pos : nat) :
  Prompt.replaceAll_from Prompt.placeholder replacement whole pos (length x) (x ++ s)
  = Prompt.replaceAll_from Prompt.placeholder replacement whole (pos + length x) 0 s.
Proof.
  revert pos. induction x as [|c x IH]; intros pos.
  - cbn [length app]. now rewrite Nat.add_0_r.
  - cbn [length app Prompt.replaceAll_from]. rewrite IH. f_equal. lia.
Qed.

Lemma replaceAll_from_plain (a s : jsstring) (pos : nat) :
  Forall (fun c => c <> 123%N) a ->
  Prompt.replaceAll_from Prompt.placeholder replacement whole pos 0 (a ++ s)
  = a ++ Prompt.replaceAll_from Prompt.placeholder replacement whole (pos + length a) 0 s.
Proof.
  intros Ha. revert pos. induction Ha as [|c a Hc Ha IH]; intros pos.
  - cbn [app length]. now rewrite Nat.add_0_r.
  - cbn [app Prompt.replaceAll_from].
    assert (Hs : startsWith Prompt.placeholder (c :: a ++ s) = false).
    { change Prompt.placeholder with (123%N :: lit "{URL}}"). cbn [startsWith].
      destruct (N.eqb_spec 123 c); [congruence|reflexivity]. }
    rewrite Hs, IH. cbn [length]. rewrite Nat.add_succ_r. reflexivity.
Qed.

Lemma replaceAll_from_match (s : jsstring) (pos : nat) :
  Prompt.replaceAll_from Prompt.placeholder replacement whole pos 0 (Prompt.placeholder ++ s)
  = Prompt.getSubstitution Prompt.placeholder (take pos whole) (drop (pos + 7) whole)
      replacement
    ++ Prompt.replaceAll_from Prompt.placeholder replacement whole (pos + 7) 0 s.
Proof.
  assert (Hs : startsWith Prompt.placeholder (Prompt.placeholder ++ s) = true)
    by apply startsWith_app.
  change (Prompt.placeholder ++ s) with (123%N :: (lit "{URL}}" ++ s)) in *.
  cbn [Prompt.replaceAll_from]. rewrite Hs.
  change (length Prompt.placeholder) with 7. f_equal.
  change (7 - 1) with (length (lit "{URL}}")). rewrite replaceAll_from_skip.
  f_equal. change (length (lit "{URL}}")) with 6. lia.
Qed.

End ReplaceAll.

Lemma getSubstitution_plain (matched before after replacement : jsstring) :
  Forall (fun c => c <> Prompt.DOLLAR) replacement ->
  Prompt.getSubstitution matched before after replacement = replacement.
Proof.
  induction 1 as [|c r Hc Hr IH]; [reflexivity|]. cbn [Prompt.getSubstitution].
  destruct (N.eqb_spec c Prompt.DOLLAR); [contradiction|]. now rewrite IH.
Qed.

Lemma Forall_trim (P : N -> Prop) (s : jsstring) : Forall P s -> Forall P (trim s).
Proof.
  intros Hs. unfold trim.
  assert (Hstart : Forall P (trimStart s)).
  { induction Hs as [|c s Hc Hs IH]; [constructor|]. cbn [trimStart].
    destruct (is_white_space c); [exact IH|now constructor]. }
  induction Hstart as [|c t Hc Ht IH]; [constructor|]. cbn [trimEnd].
  destruct (trimEnd t); [destruct (is_white_space c); repeat constructor; exact Hc|].
  now constructor.
Qed.

Lemma buildYouTubeUrl_plain (value : jsstring) :
  Forall (fun c => c <> Prompt.DOLLAR) value ->
  Forall (fun c => c <> Prompt.DOLLAR) (Prompt.buildYouTubeUrl value).
Proof.
  intros Hv. unfold Prompt.buildYouTubeUrl.
  destruct (negb (str_truthy value)); [constructor|].
  destruct (_ || _); [exact Hv|]. apply Forall_app_2; [|exact Hv].
  vm_compute. repeat (constructor; [intros Hc; discriminate Hc|]). constructor.
Qed.

(** With a template that holds the placeholder once, between texts free of
    braces, and a watch id free of dollar signs, the copied prompt is the
    template with the video URL in place of the placeholder, followed by the
    subtitles. *)
Theorem prompt_text_filled (w : ReservationApp.World) (a b : jsstring) :
  ReservationApp.promptTemplateInput w = Some (a ++ Prompt.placeholder ++ b) ->
  Forall (fun c => c <> 123%N) a ->
  Forall (fun c => c <> 123%N) b ->
  Forall (fun c => c <> Prompt.DOLLAR) (ReservationApp.watchIdInput w) ->
  Prompt.prompt_text w
  = a ++ Prompt.buildYouTubeUrl (trim (ReservationApp.watchIdInput w)) ++ b
      ++ to_string (ReservationApp.latestText w).
Proof.
  intros Ht Ha Hb Hid. unfold Prompt.prompt_text. rewrite Ht, sanitizeWatchId_trim.
  set (url := Prompt.buildYouTubeUrl (trim (ReservationApp.watchIdInput w))).
  assert (Hurl : Forall (fun c => c <> Prompt.DOLLAR) url)
    by (apply buildYouTubeUrl_plain, Forall_trim, Hid).
  unfold Prompt.replaceAll.
  rewrite replaceAll_from_plain by exact Ha.
  rewrite replaceAll_from_match, getSubstitution_plain by exact Hurl.
  rewrite <- (app_nil_r b) at 2. rewrite replaceAll_from_plain by exact Hb.
  cbn [Prompt.replaceAll_from]. rewrite app_nil_r, <- !app_assoc. reflexivity.
Qed.

Lemma prompt_text_filled_witness :
  let w := ReservationApp.set_latestText (J (JStr (lit "hello")))
             (ReservationApp.set_watchIdInput (lit " dQw4w9WgXcQ ")
                (ReservationApp.set_promptTemplateInput
                   (Some ReservationApp.defaultPromptTemplate) ReservationApp.blank)) in
  Prompt.prompt_text w
  = lit "Turn the following audio transcription into a blog post in English."
      ++ [10%N] ++ lit "----" ++ [10%N; 10%N]
      ++ lit "https://www.youtube.com/watch?v=dQw4w9WgXcQ" ++ [10%N; 10%N] ++ lit "hello".
Proof.
  intros w.
  pose proof (prompt_text_filled w
                (lit "Turn the following audio transcription into a blog post in English."
                   ++ [10%N] ++ lit "----" ++ [10%N; 10%N]) [10%N; 10%N]) as Hp.
  rewrite Hp.
  - vm_compute. reflexivity.
  - vm_compute. reflexivity.
  - vm_compute. repeat (constructor; [intros Hc; discriminate Hc|]). constructor.
  - vm_compute. repeat (constructor; [intros Hc; discriminate Hc|]). constructor.
  - vm_compute. repeat (constructor; [intros Hc; discriminate Hc|]). constructor.
Defined.

Lemma replaceAll_from_rest (replacement whole b : jsstring) (pos : nat) :
  Forall (fun c => c <> 123%N) b ->
  Prompt.replaceAll_from Prompt.placeholder replacement whole pos 0 b = b.
Proof.
  intros Hb. pose proof (replaceAll_from_plain replacement whole b [] pos Hb) as Hp.
  rewrite app_nil_r in Hp. rewrite Hp. cbn [Prompt.replaceAll_from]. apply app_nil_r.
Qed.

Lemma getSubstitution_app (matched before after plain rest : jsstring) :
  Forall (fun c => c <> Prompt.DOLLAR) plain ->
  Prompt.getSubstitution matched before after (plain ++ rest)
  = plain ++ Prompt.getSubstitution matched before after rest.
Proof.
  induction 1 as [|c r Hc Hr IH]; [reflexivity|].
  cbn [app Prompt.getSubstitution].
  destruct (N.eqb_spec c Prompt.DOLLAR); [contradiction|]. now rewrite IH.
Qed.

(** The video URL is read as a replacement pattern: where it holds a doubled
    dollar sign the prompt holds a single one, and where it holds [$&] the
    prompt holds the placeholder itself. *)
Theorem prompt_text_dollar (w : ReservationApp.World) (a b u1 u2 : jsstring) (d : N) :
  ReservationApp.promptTemplateInput w = Some (a ++ Prompt.placeholder ++ b) ->
  Forall (fun c => c <> 123%N) a ->
  Forall (fun c => c <> 123%N) b ->
  Prompt.buildYouTubeUrl (trim (ReservationApp.watchIdInput w))
  = u1 ++ Prompt.DOLLAR :: d :: u2 ->
  Forall (fun c => c <> Prompt.DOLLAR) u1 ->
  Forall (fun c => c <> Prompt.DOLLAR) u2 ->
  d = Prompt.DOLLAR \/ d = 38%N ->
  Prompt.prompt_text w
  = a ++ u1 ++ (if (d =? Prompt.DOLLAR)%N then [Prompt.DOLLAR] else Prompt.placeholder)
      ++ u2 ++ b ++ to_string (ReservationApp.latestText w).
Proof.
  intros Ht Ha Hb Hurl Hu1 Hu2 Hd. unfold Prompt.prompt_text.
  rewrite Ht, sanitizeWatchId_trim, Hurl. unfold Prompt.replaceAll.
  rewrite replaceAll_from_plain by exact Ha.
  rewrite replaceAll_from_match, getSubstitution_app by exact Hu1.
  rewrite replaceAll_from_rest by exact Hb.
  assert (Hsub : forall before after,
            Prompt.getSubstitution Prompt.placeholder before after
              (Prompt.DOLLAR :: d :: u2)
            = (if (d =? Prompt.DOLLAR)%N then [Prompt.DOLLAR] else Prompt.placeholder)
                ++ u2).
  { intros before after. cbn [Prompt.getSubstitution].
    rewrite N.eqb_refl, (getSubstitution_plain _ _ _ u2 Hu2).
    destruct Hd as [-> | ->]; reflexivity. }
  rewrite Hsub, <- !app_assoc. reflexivity.
Qed.

Lemma prompt_text_dollar_witness :
  let w := ReservationApp.set_latestText (J (JStr (lit "hello")))
             (ReservationApp.set_watchIdInput (lit "https://example.org/?v=a$$b")
                (ReservationApp.set_promptTemplateInput
                   (Some (lit "Summarise {{URL}}: ")) ReservationApp.blank)) in
  Prompt.prompt_text w = lit "Summarise https://example.org/?v=a$b: hello".
Proof.
  intros w.
  pose proof (prompt_text_dollar w (lit "Summarise ") (lit ": ")
                (lit "https://example.org/?v=a") (lit "b") Prompt.DOLLAR) as Hp.
  rewrite Hp.
  - vm_compute. reflexivity.
  - vm_compute. reflexivity.
  - vm_compute. repeat (constructor; [intros Hc; discriminate Hc|]). constructor.
  - vm_compute. repeat (constructor; [intros Hc; discriminate Hc|]). constructor.
  - vm_compute. reflexivity.
  - vm_compute. repeat (constructor; [intros Hc; discriminate Hc|]). constructor.
  - vm_compute. repeat (constructor; [intros Hc; discriminate Hc|]). constructor.
  - now left.
Defined.

(** ** Copying *)

Lemma delete_appended {A} (l : list A) (x : A) : delete (length l) (l ++ [x]) = l.
Proof.
  induction l as [|a l IH]; [reflexivity|]. cbn [length app].
  change (delete (S (length l)) (a :: l ++ [x])) with (a :: delete (length l) (l ++ [x])).
  now rewrite IH.
Qed.

(** [copyToClipboard] never leaves its temporary textarea in the document.
    The clipboard receives the text exactly when the text is truthy and the
    Clipboard API resolves or [execCommand] returns true, and keeps its
    content otherwise. The status reads "Copy failed" only when the
    Clipboard API fails and [execCommand] throws: an [execCommand] that
    returns false is reported as "Copied to clipboard" although nothing was
    copied; a falsy text changes nothing. *)
Theorem copyToClipboard_outcome (env : Clipboard.Env) (text : jsval) (label : jsstring)
    (p : Clipboard.Page ReservationApp.World) :
  let p' := Clipboard.copyToClipboard env text label p in
  Clipboard.body p' = Clipboard.body p
  /\ Clipboard.clipboard p'
     = (if truthy text
           && (Clipboard.writeText_resolves env
               || bool_decide (Clipboard.execCommand_copy env = Some true))
        then Some (to_string text) else Clipboard.clipboard p)
  /\ ReservationApp.statusEl (Clipboard.world p')
     = (if negb (truthy text) then ReservationApp.statusEl (Clipboard.world p)
        else if negb (Clipboard.writeText_resolves env)
                && bool_decide (Clipboard.execCommand_copy env = None)
        then lit "Status: Copy failed"
        else lit "Status: Copied to clipboard")
  /\ (if truthy text then True else p' = p).
Proof.
  intros p'. subst p'. unfold Clipboard.copyToClipboard.
  destruct (truthy text); cbn [negb andb]; [|now repeat split].
  destruct (Clipboard.writeText_resolves env); cbn [negb andb orb].
  { now repeat split. }
  unfold Clipboard.run_execCommand, Clipboard.removeChild, Clipboard.appendChild.
  destruct (Clipboard.execCommand_copy env) as [[|]|];
    cbn [Clipboard.body Clipboard.clipboard Clipboard.world Clipboard.set_world
         Clipboard.set_body Clipboard.set_clipboard];
    rewrite delete_appended; now repeat split.
Qed.

(** [copyText] of the minimal client returns true when the Clipboard API
    resolves or [execCommand] returns true, and false when [execCommand]
    throws. When [execCommand] returns false it does not return: the helper
    was already removed inside the [try] block, and removing it again throws.
    In every case the helper textarea is gone from the document afterwards,
    and the clipboard holds the text exactly in the two successful cases. *)
Theorem copyText_outcome (env : Clipboard.Env) (text : jsval)
    (p : Clipboard.Page SimpleSocket.World) :
  let r := Clipboard.copyText env text p in
  r.1 = (if Clipboard.writeText_resolves env then Clipboard.Return true
         else match Clipboard.execCommand_copy env with
              | Some true => Clipboard.Return true
              | Some false => Clipboard.Throw
              | None => Clipboard.Return false
              end)
  /\ Clipboard.body r.2 = Clipboard.body p
  /\ Clipboard.clipboard r.2
     = (if Clipboard.writeText_resolves env
           || bool_decide (Clipboard.execCommand_copy env = Some true)
        then Some (to_string text) else Clipboard.clipboard p).
Proof.
  intros r. subst r. unfold Clipboard.copyText.
  destruct (Clipboard.writeText_resolves env); cbn [orb]; [now repeat split|].
  unfold Clipboard.run_execCommand, Clipboard.removeChild, Clipboard.appendChild.
  destruct (Clipboard.execCommand_copy env) as [[|]|];
    cbn [fst snd Clipboard.body Clipboard.clipboard Clipboard.world Clipboard.set_world
         Clipboard.set_body Clipboard.set_clipboard];
    rewrite ?delete_appended; now repeat split.
Qed.

(** ** The outcome of a reservation request *)

Section Outcome.
Context `{Platform}.

Lemma foldl_dispatch_results (evs : list ReservationApp.SseEvent)
    (st : ReservationApp.Stream * ReservationApp.World) :
  result_state (foldl ReservationApp.dispatch st evs).2 = result_state st.2
  /\ ReservationApp.statusEl (foldl ReservationApp.dispatch st evs).2
     = ReservationApp.statusEl st.2.
Proof.
  revert st. induction evs as [|ev evs IH]; intros st; [now split|].
  cbn [foldl]. destruct (IH (ReservationApp.dispatch st ev)) as [-> ->].
  destruct st as [s w]. unfold ReservationApp.dispatch.
  destruct (ReservationApp.es_closed s); [now split|].
  destruct ev as [|data|data| |]; try now split.
  unfold ReservationApp.on_log. destruct data as [d|]; [|now split].
  now destruct (get_prop d (lit "message")).
Qed.

Lemma listen_results (net : ReservationApp.Backend) (url : jsstring)
    (w : ReservationApp.World) :
  result_state (ReservationApp.listen net url w).2 = result_state w.
Proof.
  unfold ReservationApp.listen.
  match goal with |- context [ReservationApp.deliver ?evs ?w1] =>
    pose proof (proj1 (foldl_dispatch_results evs (ReservationApp.new_stream, w1))) as Hc;
    fold (ReservationApp.deliver evs w1) in Hc;
    destruct (ReservationApp.deliver evs w1) as [s w2] end.
  cbn [snd] in Hc. now destruct (ReservationApp.settled s) as [[|e]|].
Qed.

Lemma listen_result_indep (net : ReservationApp.Backend) (url : jsstring)
    (w w' : ReservationApp.World) :
  (ReservationApp.listen net url w).1 = (ReservationApp.listen net url w').1.
Proof.
  unfold ReservationApp.listen.
  pose proof (deliver_stream (ReservationApp.events net url)
                (ReservationApp.set_calls
                   (ReservationApp.calls w ++ [ReservationApp.CallEventSource url]) w)
                (ReservationApp.set_calls
                   (ReservationApp.calls w' ++ [ReservationApp.CallEventSource url]) w'))
    as Hd.
  destruct (ReservationApp.deliver _ (ReservationApp.set_calls _ w)) as [s1 x1],
    (ReservationApp.deliver _ (ReservationApp.set_calls _ w')) as [s2 x2].
  cbn [fst] in Hd. subst s2. now destruct (ReservationApp.settled s1) as [[|e]|].
Qed.

(** How [fetchResult] ends, and that it only records its request. *)
Lemma fetchResult_cases (net : ReservationApp.Backend) (baseUrl : jsstring) (id : jsval)
    (w : ReservationApp.World) :
  (ReservationApp.fetchResult net baseUrl id w).1
  = match encodeURIComponent (to_string id) with
    | None => ReservationApp.Thrown (ReservationApp.NativeError uriError_message)
    | Some enc =>
        match ReservationApp.get net
                (ReservationApp.buildEndpointUrl baseUrl (lit "result/" ++ enc)) with
        | ReservationApp.NetworkError m =>
            ReservationApp.Thrown (ReservationApp.NativeError m)
        | ReservationApp.Response status answer =>
            let payload := match answer with Some j => j | None => JObj [] end in
            if ReservationApp.response_ok status then ReservationApp.Returned payload
            else
              match get_prop payload (lit "message") with
              | None =>
                  ReservationApp.Thrown (ReservationApp.NativeError typeError_message)
              | Some m =>
                  ReservationApp.Thrown
                    (ReservationApp.Error
                       (if truthy m then to_string m else lit "Failed to fetch result."))
              end
        end
    end
  /\ result_state (ReservationApp.fetchResult net baseUrl id w).2 = result_state w.
Proof.
  unfold ReservationApp.fetchResult, mbind, ReservationApp.M_bind,
    ReservationApp.encode_id, ReservationApp.fetch_json.
  destruct (encodeURIComponent (to_string id)) as [enc|]; [|now split].
  destruct (ReservationApp.get net _) as [m|status answer]; [now split|].
  cbn zeta. destruct (ReservationApp.response_ok status); cbn [negb]; [now split|].
  unfold ReservationApp.read_prop, val_or.
  destruct (get_prop _ (lit "message")) as [m|]; [|now split].
  now destruct (truthy m).
Qed.

Lemma fetchResult_result_indep (net : ReservationApp.Backend) (baseUrl : jsstring)
    (id : jsval) (w w' : ReservationApp.World) :
  (ReservationApp.fetchResult net baseUrl id w).1
  = (ReservationApp.fetchResult net baseUrl id w').1.
Proof.
  now rewrite (proj1 (fetchResult_cases net baseUrl id w)),
    (proj1 (fetchResult_cases net baseUrl id w')).
Qed.

Lemma showCompletionModal_fields (title message : jsstring) (tone : ReservationApp.Tone)
    (w : ReservationApp.World) :
  let w' := ReservationApp.showCompletionModal title message tone w in
  ReservationApp.fullText w' = ReservationApp.fullText w
  /\ ReservationApp.latestText w' = ReservationApp.latestText w
  /\ ReservationApp.copyButton_disabled w' = ReservationApp.copyButton_disabled w
  /\ ReservationApp.copyPromptButton_disabled w' = ReservationApp.copyPromptButton_disabled w
  /\ ReservationApp.statusEl w' = ReservationApp.statusEl w
  /\ ReservationApp.downloadButton_disabled w' = ReservationApp.downloadButton_disabled w.
Proof.
  unfold ReservationApp.showCompletionModal, ReservationApp.setModalState.
  destruct (ReservationApp.completionModal w) eqn:Hm, (ReservationApp.modalTitle w),
    (ReservationApp.modalMessage w); try now repeat split.
  resv_simpl. rewrite Hm. now repeat split.
Qed.

Lemma showCompletionModal_open (title message : jsstring) (tone : ReservationApp.Tone)
    (w : ReservationApp.World) :
  has_dialog w ->
  dialog_open tone title (ReservationApp.showCompletionModal title message tone w)
  /\ ReservationApp.modalMessage (ReservationApp.showCompletionModal title message tone w)
     = Some message.
Proof.
  intros ([m Hm] & [t Ht] & [g Hg]).
  unfold ReservationApp.showCompletionModal, ReservationApp.setModalState, dialog_open.
  rewrite Hm, Ht, Hg. resv_simpl. rewrite Hm. now repeat split.
Qed.

Lemma has_dialog_results (w w' : ReservationApp.World) :
  result_state w' = result_state w -> has_dialog w -> has_dialog w'.
Proof. unfold result_state, has_dialog. intros [= _ _ _ _ -> -> ->]. auto. Qed.

Lemma set_copyPrompt_fields (b : bool) (w : ReservationApp.World) :
  let w' := ReservationApp.set_copyPrompt b w in
  ReservationApp.copyPromptButton_disabled w'
  = (fun _ => b) <$> ReservationApp.copyPromptButton_disabled w
  /\ ReservationApp.fullText w' = ReservationApp.fullText w
  /\ ReservationApp.latestText w' = ReservationApp.latestText w
  /\ ReservationApp.copyButton_disabled w' = ReservationApp.copyButton_disabled w
  /\ ReservationApp.completionModal w' = ReservationApp.completionModal w
  /\ ReservationApp.modalTitle w' = ReservationApp.modalTitle w
  /\ ReservationApp.modalMessage w' = ReservationApp.modalMessage w
  /\ ReservationApp.watchIdInput w' = ReservationApp.watchIdInput w.
Proof.
  unfold ReservationApp.set_copyPrompt.
  destruct (ReservationApp.copyPromptButton_disabled w) eqn:Hc; cbn; rewrite ?Hc;
    now repeat split.
Qed.

(** The stages of the [try] block, one after the other. *)
Lemma request_run (net : ReservationApp.Backend) (baseUrl watchId : jsstring)
    (w : ReservationApp.World) :
  let out := ReservationApp.request net baseUrl watchId w in
  let kept (o : ReservationApp.Outcome ()) :=
    out.1 = o /\ result_state out.2 = result_state w in
  match (ReservationApp.createReservation net baseUrl watchId w).1 with
  | ReservationApp.Returned id =>
      match encodeURIComponent (to_string id) with
      | Some enc =>
          match (ReservationApp.listen net
                   (ReservationApp.buildEndpointUrl baseUrl (lit "events/" ++ enc)) w).1 with
          | ReservationApp.Returned _ =>
              match (ReservationApp.fetchResult net baseUrl id w).1 with
              | ReservationApp.Returned data =>
                  match get_prop data (lit "text") with
                  | Some _ =>
                      out.1 = ReservationApp.Returned tt
                      /\ shows data w out.2
                      /\ (has_dialog w ->
                          dialog_open ReservationApp.success (lit "Download complete") out.2)
                  | None =>
                      kept (ReservationApp.Thrown
                              (ReservationApp.NativeError typeError_message))
                  end
              | ReservationApp.Thrown e => kept (ReservationApp.Thrown e)
              | ReservationApp.Pending => kept ReservationApp.Pending
              end
          | ReservationApp.Thrown e => kept (ReservationApp.Thrown e)
          | ReservationApp.Pending => kept ReservationApp.Pending
          end
      | None =>
          kept (ReservationApp.Thrown (ReservationApp.NativeError uriError_message))
      end
  | ReservationApp.Thrown e => kept (ReservationApp.Thrown e)
  | ReservationApp.Pending => kept ReservationApp.Pending
  end.
Proof.
  intros out kept. subst out kept. cbv beta.
  set (c1 := (ReservationApp.createReservation net baseUrl watchId w).1).
  unfold ReservationApp.request, mbind, ReservationApp.M_bind, ReservationApp.modify.
  match goal with |- context [ReservationApp.createReservation net baseUrl watchId ?w0] =>
    pose proof (createReservation_world net baseUrl watchId w0) as Hw;
    pose proof (createReservation_result_indep net baseUrl watchId w0 w) as Ho;
    destruct (ReservationApp.createReservation net baseUrl watchId w0) as [o1 wb] end.
  cbn [fst snd] in Hw, Ho. fold c1 in Ho. clearbody c1. subst o1 wb.
  destruct c1 as [id|e|]; try (now split).
  unfold ReservationApp.waitForEvents, mbind, ReservationApp.M_bind,
    ReservationApp.encode_id.
  destruct (encodeURIComponent (to_string id)) as [enc|] eqn:Henc; [|now split].
  set (c2 := (ReservationApp.listen net
                (ReservationApp.buildEndpointUrl baseUrl (lit "events/" ++ enc)) w).1).
  match goal with |- context [ReservationApp.listen net ?url ?w0] =>
    pose proof (listen_results net url w0) as Hl;
    pose proof (listen_result_indep net url w0 w) as Hlo;
    destruct (ReservationApp.listen net url w0) as [o2 wd] end.
  cbn [fst snd] in Hl, Hlo. fold c2 in Hlo. clearbody c2. subst o2.
  destruct c2 as [[]|e|]; try (now split).
  set (c3 := (ReservationApp.fetchResult net baseUrl id w).1).
  match goal with |- context [ReservationApp.fetchResult net baseUrl id ?w0] =>
    pose proof (proj2 (fetchResult_cases net baseUrl id w0)) as Hg;
    pose proof (fetchResult_result_indep net baseUrl id w0 w) as Hgo;
    destruct (ReservationApp.fetchResult net baseUrl id w0) as [o3 we] end.
  cbn [fst snd] in Hg, Hgo. fold c3 in Hgo. clearbody c3. subst o3.
  assert (Hres : result_state we = result_state w) by (rewrite Hg; exact Hl).
  destruct c3 as [data|e|]; try (now split).
  unfold ReservationApp.read_prop. destruct (get_prop data (lit "text")) as [text|] eqn:Ht;
    [|now split].
  cbn [fst snd].
  match goal with |- context [ReservationApp.showCompletionModal ?t ?m ?tone ?w6] =>
    pose proof (showCompletionModal_fields t m tone w6) as (Hf1 & Hf2 & Hf3 & Hf4 & Hf5 & _);
    pose proof (showCompletionModal_open t m tone w6) as Hopen;
    generalize dependent (ReservationApp.showCompletionModal t m tone w6) end.
  intros wf Hf1 Hf2 Hf3 Hf4 Hf5 Hopen.
  match type of Hf4 with context [ReservationApp.set_copyPrompt ?b ?x] =>
    pose proof (set_copyPrompt_fields b x) as (Hp1 & Hp2 & Hp3 & Hp4 & Hp5 & Hp6 & Hp7 & _)
  end.
  resv_simpl. rewrite Hp2 in Hf1. rewrite Hp3 in Hf2. rewrite Hp4 in Hf3.
  rewrite Hp1 in Hf4. resv_simpl.
  unfold result_state in Hres. injection Hres as _ _ _ Hcp Hm1 Hm2 Hm3.
  split; [reflexivity|]. split.
  - unfold shows, DocsApp.prop. rewrite Ht. cbv zeta.
    rewrite Hf1, Hf2, Hf3, Hf4, Hf5, Hcp. now repeat split.
  - intros Hd. apply Hopen. destruct Hd as (Hd1 & Hd2 & Hd3).
    unfold has_dialog. resv_simpl. rewrite Hp5, Hp6, Hp7. resv_simpl.
    now rewrite Hm1, Hm2, Hm3.
Qed.

(** What the [try] block leaves behind, by its outcome. *)
Lemma request_outcome (net : ReservationApp.Backend) (baseUrl watchId : jsstring)
    (w : ReservationApp.World) :
  let out := ReservationApp.request net baseUrl watchId w in
  match out.1 with
  | ReservationApp.Returned _ =>
      (exists data, shows data w out.2)
      /\ (has_dialog w ->
          dialog_open ReservationApp.success (lit "Download complete") out.2)
  | _ => result_state out.2 = result_state w
  end.
Proof.
  intros out. pose proof (request_run net baseUrl watchId w) as Hrun. cbv zeta in Hrun.
  fold out in Hrun.
  destruct (ReservationApp.createReservation net baseUrl watchId w).1 as [id|e|];
    [|destruct Hrun as [-> Hr]; exact Hr..].
  destruct (encodeURIComponent (to_string id)) as [enc|];
    [|destruct Hrun as [-> Hr]; exact Hr].
  destruct (ReservationApp.listen net _ w).1 as [[]|e|];
    [|destruct Hrun as [-> Hr]; exact Hr..].
  destruct (ReservationApp.fetchResult net baseUrl id w).1 as [data|e|];
    [|destruct Hrun as [-> Hr]; exact Hr..].
  destruct (get_prop data (lit "text")); [|destruct Hrun as [-> Hr]; exact Hr].
  destruct Hrun as (-> & Hs & Hd). split; [now exists data|exact Hd].
Qed.

Lemma createReservation_returns (net : ReservationApp.Backend) (baseUrl watchId : jsstring)
    (w : ReservationApp.World) (status : Z) (payload : json) (id : jsval) :
  ReservationApp.post net (ReservationApp.buildEndpointUrl baseUrl (lit "reservation"))
    (JObj [(lit "watch_id", JStr watchId)])
  = ReservationApp.Response status (Some payload) ->
  ReservationApp.response_ok status = true ->
  get_prop payload (lit "reservation_id") = Some id ->
  truthy id = true ->
  (ReservationApp.createReservation net baseUrl watchId w).1 = ReservationApp.Returned id.
Proof.
  intros Hpost Hok Hid Ht.
  unfold ReservationApp.createReservation, mbind, ReservationApp.M_bind,
    ReservationApp.fetch_json, ReservationApp.read_prop.
  now rewrite Hpost, Hok, Hid, Ht.
Qed.

(** The click listener up to its [try] statement. *)
Lemma click_request (net : ReservationApp.Backend) (w : ReservationApp.World) :
  trim (ReservationApp.watchIdInput w) <> [] ->
  let value :=
    match ReservationApp.backendAddressInput w with
    | Some v => str_or v []
    | None => []
    end in
  let baseUrl := (ReservationApp.normalizeBackendBaseUrl value w).1 in
  exists w2,
    ReservationApp.downloadButton_click net w
    = ReservationApp.try_catch_finally
        (ReservationApp.request net baseUrl (trim (ReservationApp.watchIdInput w)))
        ReservationApp.report (ReservationApp.set_downloadButton_disabled false) w2
    /\ cleared w w2
    /\ ReservationApp.completionModal w2 = ReservationApp.completionModal w
    /\ ReservationApp.modalTitle w2 = ReservationApp.modalTitle w
    /\ ReservationApp.modalMessage w2 = ReservationApp.modalMessage w
    /\ ReservationApp.downloadButton_disabled w2 = true.
Proof.
  intros Hw value baseUrl. unfold ReservationApp.downloadButton_click.
  rewrite sanitizeWatchId_trim. apply str_truthy_true in Hw. rewrite Hw. cbn [negb].
  match goal with |- context [ReservationApp.normalizeBackendBaseUrl ?v ?w1] =>
    pose proof (normalizeBackendBaseUrl_url v w1 w) as Hu;
    assert (Hn : (ReservationApp.normalizeBackendBaseUrl v w1).2 = w1
                 \/ exists m,
                      (ReservationApp.normalizeBackendBaseUrl v w1).2
                      = ReservationApp.appendLog m warn w1);
    [|destruct (ReservationApp.normalizeBackendBaseUrl v w1) as [b w2]] end.
  { unfold ReservationApp.normalizeBackendBaseUrl.
    destruct (negb (str_truthy (trim _))); [now left|].
    match goal with |- context [match ?x with Some _ => _ | None => _ end] =>
      destruct x end; [now left|right; eauto]. }
  cbn [fst snd] in Hu, Hn.
  assert (Hb : b = baseUrl).
  { rewrite Hu. subst baseUrl value. resv_simpl. now rewrite set_copyPrompt_backend. }
  clear Hu. subst b. exists w2. split; [reflexivity|].
  match type of Hn with context [ReservationApp.set_copyPrompt ?b ?x] =>
    pose proof (set_copyPrompt_fields b x) as (Hp1 & Hp2 & Hp3 & Hp4 & Hp5 & Hp6 & Hp7 & _)
  end.
  resv_simpl.
  assert (Hd : ReservationApp.downloadButton_disabled w2 = true)
    by (destruct Hn as [-> | (m & ->)]; reflexivity).
  unfold cleared.
  destruct Hn as [-> | (m & ->)]; resv_simpl;
    rewrite ?Hp1, ?Hp2, ?Hp3, ?Hp4, ?Hp5, ?Hp6, ?Hp7; resv_simpl; now repeat split.
Qed.

Lemma shows_cleared (data : json) (w w2 w3 : ReservationApp.World) :
  cleared w w2 -> shows data w2 w3 -> shows data w w3.
Proof.
  intros (_ & _ & _ & Hc) (H1 & H2 & H3 & H4 & H5). unfold shows. rewrite Hc in H4.
  repeat split; try assumption. rewrite H4.
  now destruct (ReservationApp.copyPromptButton_disabled w).
Qed.

(** Every click on the download button of the reservation client with a
    watch id ends in one of three states.  While the event stream has not
    ended the listener is suspended: the control is disabled, the result
    is cleared and the dialog is as before.  After a failure the control is
    enabled, the status is "Error", the result is cleared with the copy
    controls disabled, and the dialog is open in its failure form with a
    message that is not empty.  After a success the control is enabled, the
    result shows the payload and the dialog is open in its success form. *)
Theorem reservation_cycle_states (net : ReservationApp.Backend)
    (w : ReservationApp.World) :
  trim (ReservationApp.watchIdInput w) <> [] ->
  has_dialog w ->
  let r := ReservationApp.downloadButton_click net w in
  (r.1 = ReservationApp.Pending
   /\ ReservationApp.downloadButton_disabled r.2 = true
   /\ cleared w r.2
   /\ ReservationApp.completionModal r.2 = ReservationApp.completionModal w
   /\ ReservationApp.modalTitle r.2 = ReservationApp.modalTitle w
   /\ ReservationApp.modalMessage r.2 = ReservationApp.modalMessage w)
  \/ (r.1 = ReservationApp.Returned tt
      /\ ReservationApp.downloadButton_disabled r.2 = false
      /\ ReservationApp.statusEl r.2 = lit "Status: Error"
      /\ cleared w r.2
      /\ dialog_open ReservationApp.failure (lit "Download failed") r.2
      /\ exists message,
           ReservationApp.modalMessage r.2 = Some message /\ message <> [])
  \/ (r.1 = ReservationApp.Returned tt
      /\ ReservationApp.downloadButton_disabled r.2 = false
      /\ (exists data, shows data w r.2)
      /\ dialog_open ReservationApp.success (lit "Download complete") r.2).
Proof.
  intros Hw Hdialog r.
  destruct (click_request net w Hw) as (w2 & Hclick & Hcl & Hm1 & Hm2 & Hm3 & Hdis).
  subst r. rewrite Hclick. unfold ReservationApp.try_catch_finally.
  assert (Hd2 : has_dialog w2) by (unfold has_dialog; now rewrite Hm1, Hm2, Hm3).
  match goal with |- context [ReservationApp.request net ?b ?i w2] =>
    pose proof (request_outcome net b i w2) as Hout;
    pose proof (request_control net b i w2) as Hctl;
    destruct (ReservationApp.request net b i w2) as [o w3] end.
  cbv zeta in Hout. cbn [fst snd] in Hout, Hctl.
  destruct o as [[]|e|].
  - right. right. destruct Hout as ((data & Hs) & Hopen). cbn [fst snd].
    split; [reflexivity|]. split; [reflexivity|]. split.
    + exists data. apply (shows_cleared data w w2); [exact Hcl|].
      destruct Hs as (H1 & H2 & H3 & H4 & H5). now repeat split.
    + destruct (Hopen Hd2) as [Ho1 Ho2]. now split.
  - right. left. unfold ReservationApp.report, ReservationApp.modify.
    cbn [fst snd].
    match goal with |- context [ReservationApp.showCompletionModal ?t ?m ?tone ?w6] =>
      pose proof (showCompletionModal_fields t m tone w6) as (Hf1 & Hf2 & Hf3 & Hf4 & Hf5 & _);
      assert (Hd6 : has_dialog w6);
      [|pose proof (showCompletionModal_open t m tone w6 Hd6) as ([Ho1 Ho2] & Ho3);
        generalize dependent (ReservationApp.showCompletionModal t m tone w6)] end.
    { apply (has_dialog_results w3); [reflexivity|].
      now apply (has_dialog_results w2). }
    intros wf Hf1 Hf2 Hf3 Hf4 Hf5 Ho1 Ho2 Ho3. resv_simpl.
    unfold result_state in Hout. injection Hout as Hr1 Hr2 Hr3 Hr4 _ _ _.
    destruct Hcl as (Hc1 & Hc2 & Hc3 & Hc4).
    split; [reflexivity|]. split; [reflexivity|]. split; [exact Hf5|].
    split; [unfold cleared; resv_simpl; now rewrite Hf1, Hf2, Hf3, Hf4, Hr1, Hr2, Hr3, Hr4|].
    split; [now split|].
    eexists. split; [exact Ho3|]. unfold str_or.
    destruct (str_truthy (ReservationApp.exn_message e)) eqn:Em;
      [now apply str_truthy_true|]. vm_compute. discriminate.
  - left. cbn [fst snd]. unfold result_state in Hout.
    injection Hout as Hr1 Hr2 Hr3 Hr4 Hr5 Hr6 Hr7.
    destruct Hcl as (Hc1 & Hc2 & Hc3 & Hc4).
    split; [reflexivity|]. split; [congruence|].
    split; [unfold cleared; now rewrite Hr1, Hr2, Hr3, Hr4|].
    rewrite Hr5, Hr6, Hr7. now repeat split.
Qed.

(** When the backend accepts the reservation, the stream completes and the
    result request is answered 2xx with a body other than the JSON [null],
    the click ends with the payload shown, the dialog open in its success
    form and the control enabled.  The payload is the JSON body of the
    answer, and the empty object when the body is no JSON: such an answer
    ends as a completed download without text. *)
Theorem reservation_success (net : ReservationApp.Backend) (w : ReservationApp.World)
    (status1 status2 : Z) (payload : json) (id : jsval) (enc : jsstring)
    (answer : option json) :
  let watchId := trim (ReservationApp.watchIdInput w) in
  let value :=
    match ReservationApp.backendAddressInput w with
    | Some v => str_or v []
    | None => []
    end in
  let baseUrl := (ReservationApp.normalizeBackendBaseUrl value w).1 in
  let data := match answer with Some j => j | None => JObj [] end in
  watchId <> [] ->
  has_dialog w ->
  ReservationApp.post net (ReservationApp.buildEndpointUrl baseUrl (lit "reservation"))
    (JObj [(lit "watch_id", JStr watchId)])
  = ReservationApp.Response status1 (Some payload) ->
  ReservationApp.response_ok status1 = true ->
  get_prop payload (lit "reservation_id") = Some id ->
  truthy id = true ->
  encodeURIComponent (to_string id) = Some enc ->
  find is_terminal
    (ReservationApp.events net
       (ReservationApp.buildEndpointUrl baseUrl (lit "events/" ++ enc)))
  = Some ReservationApp.EvCompleted ->
  ReservationApp.get net (ReservationApp.buildEndpointUrl baseUrl (lit "result/" ++ enc))
  = ReservationApp.Response status2 answer ->
  ReservationApp.response_ok status2 = true ->
  data <> JNull ->
  let r := ReservationApp.downloadButton_click net w in
  r.1 = ReservationApp.Returned tt
  /\ shows data w r.2
  /\ dialog_open ReservationApp.success (lit "Download complete") r.2
  /\ ReservationApp.downloadButton_disabled r.2 = false.
Proof.
  intros watchId value baseUrl data Hw Hdialog Hpost Hok1 Hid Ht Henc Hev Hget Hok2 Hdata r.
  destruct (click_request net w Hw) as (w2 & Hclick & Hcl & Hm1 & Hm2 & Hm3 & _).
  assert (Hd2 : has_dialog w2) by (unfold has_dialog; now rewrite Hm1, Hm2, Hm3).
  fold value baseUrl watchId in Hclick.
  subst r. rewrite Hclick. unfold ReservationApp.try_catch_finally.
  pose proof (request_run net baseUrl watchId w2) as Hrun. cbv zeta in Hrun.
  rewrite (createReservation_returns net baseUrl watchId w2 status1 payload id
             Hpost Hok1 Hid Ht), Henc in Hrun.
  rewrite (proj2 (proj2 (listen_spec net _ w2)) Hev) in Hrun.
  rewrite (proj1 (fetchResult_cases net baseUrl id w2)), Henc, Hget in Hrun.
  cbv zeta in Hrun. fold data in Hrun. rewrite Hok2 in Hrun.
  assert (Htext : exists text, get_prop data (lit "text") = Some text)
    by (unfold get_prop; destruct data; try congruence; eauto).
  destruct Htext as (text & Htext). rewrite Htext in Hrun.
  destruct Hrun as (Ho & Hs & Hopen). specialize (Hopen Hd2).
  destruct (ReservationApp.request net baseUrl watchId w2) as [o w3].
  cbn [fst snd] in Ho, Hs, Hopen. subst o. cbn [fst snd].
  split; [reflexivity|]. split; [|split; [|reflexivity]].
  - apply (shows_cleared data w w2); [exact Hcl|].
    destruct Hs as (H1 & H2 & H3 & H4 & H5). now repeat split.
  - destruct Hopen as [Ho1 Ho2]. now split.
Qed.

End Outcome.

Lemma reservation_cycle_states_witness :
  let net := sample_backend (sample_logs ++ [ReservationApp.EvError None]) in
  let w := ReservationApp.set_watchIdInput (lit "dQw4w9WgXcQ") ReservationApp.blank in
  (trim (ReservationApp.watchIdInput w) <> [] /\ has_dialog w)
  /\ ReservationApp.statusEl
       (ReservationApp.downloadButton_click (H := SampleBrowser.browser) net w).2
     = lit "Status: Error".
Proof.
  intros net w.
  assert (H1 : trim (ReservationApp.watchIdInput w) <> []) by (vm_compute; discriminate).
  assert (H2 : has_dialog w) by (repeat split; eexists; reflexivity).
  split; [now split|].
  destruct (reservation_cycle_states (H := SampleBrowser.browser) net w H1 H2)
    as [(Hp & _) | [(_ & _ & Hs & _) | (_ & _ & (data & Hs) & _)]].
  - vm_compute in Hp. discriminate Hp.
  - exact Hs.
  - vm_compute. reflexivity.
Defined.

Lemma reservation_success_witness :
  let net := sample_backend (sample_logs ++ [ReservationApp.EvCompleted]) in
  let w := ReservationApp.set_watchIdInput (lit "dQw4w9WgXcQ") ReservationApp.blank in
  let r := ReservationApp.downloadButton_click (H := SampleBrowser.browser) net w in
  (trim (ReservationApp.watchIdInput w) <> [] /\ has_dialog w)
  /\ r.1 = ReservationApp.Returned tt
  /\ dialog_open ReservationApp.success (lit "Download complete") r.2
  /\ ReservationApp.downloadButton_disabled r.2 = false.
Proof.
  intros net w r.
  assert (H1 : trim (ReservationApp.watchIdInput w) <> []) by (vm_compute; discriminate).
  assert (H2 : has_dialog w) by (repeat split; eexists; reflexivity).
  split; [now split|].
  destruct (reservation_success (H := SampleBrowser.browser) net w 200 200
              (JObj [(lit "reservation_id", JStr (lit "r1"))]) (J (JStr (lit "r1")))
              (lit "r1")
              (Some (JObj [(lit "text", JStr (lit "hello"));
                           (lit "language", JStr (lit "en"))])))
    as (Hr & _ & Ho & Hd);
    try (vm_compute; reflexivity); try exact H1; try exact H2; try discriminate.
  now repeat split.
Defined.

(** ** What the event stream reports *)

Section Stream.
Context `{Platform}.

(** [fetchResult] returns exactly when the id can be encoded and the
    request is answered 2xx; it then returns the JSON body, whatever it is,
    and the empty object when the body is no JSON.  It issues one GET
    request unless the id cannot be encoded, in which case it issues
    none. *)
Theorem fetchResult_outcome (net : ReservationApp.Backend) (baseUrl : jsstring)
    (id : jsval) (w : ReservationApp.World) :
  let r := ReservationApp.fetchResult net baseUrl id w in
  (forall data,
     r.1 = ReservationApp.Returned data <->
     exists enc status answer,
       encodeURIComponent (to_string id) = Some enc
       /\ ReservationApp.get net
            (ReservationApp.buildEndpointUrl baseUrl (lit "result/" ++ enc))
          = ReservationApp.Response status answer
       /\ ReservationApp.response_ok status = true
       /\ data = match answer with Some j => j | None => JObj [] end)
  /\ ReservationApp.calls r.2
     = ReservationApp.calls w
         ++ match encodeURIComponent (to_string id) with
            | Some enc =>
                [ReservationApp.CallGet
                   (ReservationApp.buildEndpointUrl baseUrl (lit "result/" ++ enc))]
            | None => []
            end.
Proof.
  intros r. subst r.
  unfold ReservationApp.fetchResult, mbind, ReservationApp.M_bind,
    ReservationApp.encode_id, ReservationApp.fetch_json, ReservationApp.read_prop.
  destruct (encodeURIComponent (to_string id)) as [enc|] eqn:Henc.
  2:{ cbn [fst snd]. rewrite app_nil_r. repeat split; try discriminate.
      intros (enc & status & answer & He & _). discriminate He. }
  destruct (ReservationApp.get net _) as [m|status answer] eqn:Hget.
  { cbn [fst snd]. repeat split; try discriminate.
    intros (enc' & status & answer & [= <-] & Hg & _). congruence. }
  destruct (ReservationApp.response_ok status) eqn:Hok; cbn [negb].
  - cbn [fst snd]. split; [|reflexivity].
    intros data. split.
    + intros [= <-]. now exists enc, status, answer.
    + intros (enc' & status' & answer' & [= <-] & Hg & _ & ->).
      rewrite Hget in Hg. now injection Hg as _ <-.
  - assert (Hthrown : forall x,
              (let (o, w') :=
                 match get_prop match answer with Some j => j | None => JObj [] end
                         (lit "message") with
                 | Some m => (ReservationApp.Returned m, x)
                 | None =>
                     (ReservationApp.Thrown (ReservationApp.NativeError typeError_message), x)
                 end in
               match o with
               | ReservationApp.Returned a =>
                   ReservationApp.throw (A := json)
                     (ReservationApp.Error
                        (to_string (val_or a (J (JStr (lit "Failed to fetch result."))))))
                     w'
               | ReservationApp.Thrown e => (ReservationApp.Thrown e, w')
               | ReservationApp.Pending => (ReservationApp.Pending, w')
               end)
              = (match get_prop match answer with Some j => j | None => JObj [] end
                         (lit "message") with
                 | Some m =>
                     ReservationApp.Thrown
                       (ReservationApp.Error
                          (to_string (val_or m (J (JStr (lit "Failed to fetch result."))))))
                 | None =>
                     ReservationApp.Thrown (ReservationApp.NativeError typeError_message)
                 end, x)).
    { intros x. now destruct (get_prop _ (lit "message")). }
    rewrite Hthrown. cbn [fst snd]. split; [|reflexivity].
    intros data. split.
    + destruct (get_prop _ (lit "message")); discriminate.
    + intros (enc' & status' & answer' & [= <-] & Hg & Hok' & _).
      rewrite Hget in Hg. injection Hg as <- _. congruence.
Qed.

(** The outcome of the awaited stream is decided by its first terminal
    event alone. *)
Lemma listen_first_terminal (net : ReservationApp.Backend) (url : jsstring)
    (w : ReservationApp.World) (logs rest : list ReservationApp.SseEvent)
    (t : ReservationApp.SseEvent) :
  ReservationApp.events net url = logs ++ t :: rest ->
  Forall (fun e => is_terminal e = false) logs ->
  is_terminal t = true ->
  (ReservationApp.listen net url w).1
  = match ReservationApp.settled
            (ReservationApp.dispatch (ReservationApp.new_stream, w) t).1 with
    | Some ReservationApp.Resolved => ReservationApp.Returned tt
    | Some (ReservationApp.Rejected e) => ReservationApp.Thrown e
    | None => ReservationApp.Pending
    end
  /\ ReservationApp.logEl (ReservationApp.listen net url w).2
     = ReservationApp.logEl (ReservationApp.deliver logs w).2.
Proof.
  intros Hev Hlogs Ht. unfold ReservationApp.listen. rewrite Hev.
  set (w1 := ReservationApp.set_calls _ w).
  unfold ReservationApp.deliver. rewrite foldl_app. cbn [foldl].
  pose proof (foldl_dispatch_nonterminal logs ReservationApp.new_stream w1 Hlogs) as Hs.
  assert (Hlog : ReservationApp.logEl
                   (foldl ReservationApp.dispatch (ReservationApp.new_stream, w1) logs).2
                 = ReservationApp.logEl
                     (foldl ReservationApp.dispatch (ReservationApp.new_stream, w) logs).2).
  { clear. subst w1. generalize ReservationApp.new_stream.
    assert (Hgen : forall s a b,
              ReservationApp.logEl a = ReservationApp.logEl b ->
              ReservationApp.logEl (foldl ReservationApp.dispatch (s, a) logs).2
              = ReservationApp.logEl (foldl ReservationApp.dispatch (s, b) logs).2).
    { induction logs as [|ev logs IH]; intros s a b Hab; [exact Hab|].
      cbn [foldl]. unfold ReservationApp.dispatch at 2 4.
      destruct (ReservationApp.es_closed s); [now apply IH|].
      destruct ev as [|data|data| |]; try (now apply IH).
      - apply IH. resv_simpl. now rewrite Hab.
      - apply IH. unfold ReservationApp.on_log. destruct data as [d|].
        + destruct (get_prop d (lit "message")); [|exact Hab]. resv_simpl. now rewrite Hab.
        + resv_simpl. now rewrite Hab. }
    intros s. now apply Hgen. }
  destruct (foldl ReservationApp.dispatch (ReservationApp.new_stream, w1) logs)
    as [s0 w2]. cbn [fst snd] in Hs, Hlog. subst s0.
  destruct (dispatch_terminal w2 t Ht) as (Hc & Hw2 & _).
  pose proof (dispatch_stream ReservationApp.new_stream w2 w t) as Hd.
  destruct (ReservationApp.dispatch (ReservationApp.new_stream, w2) t) as [s1 w3].
  cbn [fst snd] in Hc, Hw2, Hd. subst w3. rewrite deliver_closed by exact Hc.
  rewrite <- Hd. split; [now destruct (ReservationApp.settled s1) as [[|e]|]|].
  rewrite <- Hlog. now destruct (ReservationApp.settled s1) as [[|e]|].
Qed.

(** An [error] event rejects with the [message] of its JSON payload when
    that is truthy and with "Stream error from backend." otherwise, also
    when the event has no data, as for a failure of the connection: the
    listener added for [error] events runs before [onerror]. "Failed to
    connect to event stream." is the message only when the payload is the
    JSON [null]. *)
Theorem stream_error_message (net : ReservationApp.Backend) (url : jsstring)
    (w : ReservationApp.World) (logs rest : list ReservationApp.SseEvent)
    (data : option json) :
  ReservationApp.events net url = logs ++ ReservationApp.EvError data :: rest ->
  Forall (fun e => is_terminal e = false) logs ->
  (ReservationApp.listen net url w).1
  = ReservationApp.Thrown
      (ReservationApp.Error
         match data with
         | Some JNull => lit "Failed to connect to event stream."
         | Some d =>
             to_string (val_or (DocsApp.prop d (lit "message"))
                          (J (JStr (lit "Stream error from backend."))))
         | None => lit "Stream error from backend."
         end).
Proof.
  intros Hev Hlogs.
  rewrite (proj1 (listen_first_terminal net url w logs rest _ Hev Hlogs eq_refl)).
  destruct data as [[]|]; reflexivity.
Qed.

Lemma deliver_lines (logs : list ReservationApp.SseEvent) (w : ReservationApp.World) :
  Forall (fun e => is_terminal e = false) logs ->
  ReservationApp.logEl (ReservationApp.deliver logs w).2
  = ReservationApp.logEl w ++ flat_map stream_line logs.
Proof.
  intros Hlogs. unfold ReservationApp.deliver. revert w.
  induction Hlogs as [|ev logs Hev _ IH]; intros w; [cbn; now rewrite app_nil_r|].
  cbn [foldl flat_map].
  assert (Hd : ReservationApp.dispatch (ReservationApp.new_stream, w) ev
               = (ReservationApp.new_stream,
                  (ReservationApp.dispatch (ReservationApp.new_stream, w) ev).2)).
  { pose proof (dispatch_nonterminal ReservationApp.new_stream w ev Hev) as Hs.
    destruct (ReservationApp.dispatch (ReservationApp.new_stream, w) ev) as [s1 w1].
    cbn [fst snd] in *. now subst s1. }
  rewrite Hd, IH, app_assoc. f_equal. clear.
  unfold ReservationApp.dispatch, stream_line, backend_line.
  cbn [ReservationApp.es_closed ReservationApp.new_stream].
  destruct ev as [|[d|]|data| |]; cbn [snd]; resv_simpl; rewrite ?app_nil_r;
    try reflexivity.
  unfold ReservationApp.on_log, DocsApp.prop.
  destruct d; cbn [get_prop]; resv_simpl; rewrite ?app_nil_r; reflexivity.
Qed.

(** The log of the page shows the stream in its order: each event before
    the first [completed] or [error] adds its line ([open] the line of the
    connection, a [log] event the message of the backend or a warning when
    its data is no JSON), and neither that terminal event nor anything
    after it adds a line. *)
Theorem stream_logs_in_order (net : ReservationApp.Backend) (url : jsstring)
    (w : ReservationApp.World) :
  ReservationApp.logEl (ReservationApp.listen net url w).2
  = ReservationApp.logEl w
      ++ flat_map stream_line (until_terminal (ReservationApp.events net url)).
Proof.
  unfold ReservationApp.listen. set (w1 := ReservationApp.set_calls _ w).
  destruct (deliver_until (ReservationApp.events net url) w1) as (Hb & Hall).
  pose proof (deliver_lines (until_terminal (ReservationApp.events net url)) w1
                (until_terminal_open _)) as Hlines.
  change (ReservationApp.logEl w1) with (ReservationApp.logEl w) in Hlines.
  rewrite Hall.
  destruct (ReservationApp.deliver (until_terminal (ReservationApp.events net url)) w1)
    as [s0 w2]. cbn [fst snd] in Hb, Hlines. subst s0.
  assert (Hw2 : forall st,
            st.2 = w2 ->
            ReservationApp.logEl
              (let '(s, w3) := st in
               match ReservationApp.settled s with
               | Some ReservationApp.Resolved => (ReservationApp.Returned tt, w3)
               | Some (ReservationApp.Rejected e) => (ReservationApp.Thrown e, w3)
               | None => (ReservationApp.Pending, w3)
               end).2
            = ReservationApp.logEl w ++
                flat_map stream_line (until_terminal (ReservationApp.events net url))).
  { intros [s w3] Hst. cbn [snd] in Hst. subst w3.
    rewrite <- Hlines. now destruct (ReservationApp.settled s) as [[|e]|]. }
  destruct (find is_terminal (ReservationApp.events net url)) as [t|] eqn:Hfind.
  - apply find_some in Hfind as [_ Ht]. apply Hw2.
    exact (proj1 (proj2 (dispatch_terminal w2 t Ht))).
  - exact (Hw2 (ReservationApp.new_stream, w2) eq_refl).
Qed.

End Stream.

Lemma stream_error_message_witness :
  let net := sample_backend (sample_logs ++ [ReservationApp.EvError None]) in
  (sample_logs ++ [ReservationApp.EvError None]
   = sample_logs ++ ReservationApp.EvError None :: []
   /\ Forall (fun e => is_terminal e = false) sample_logs)
  /\ (ReservationApp.listen net [] ReservationApp.blank).1
     = ReservationApp.Thrown (ReservationApp.Error (lit "Stream error from backend.")).
Proof.
  intros net.
  assert (H1 : Forall (fun e => is_terminal e = false) sample_logs) by repeat constructor.
  split; [now split|].
  exact (stream_error_message net [] ReservationApp.blank
           sample_logs [] None eq_refl H1).
Defined.

Lemma stream_logs_in_order_witness :
  let net :=
    sample_backend
      [ReservationApp.EvOpen; log_event (lit "Downloading subtitles");
       ReservationApp.EvLog None; log_event (lit "Normalising");
       ReservationApp.EvCompleted; log_event (lit "late")] in
  ReservationApp.logEl (ReservationApp.listen net [] ReservationApp.blank).2
  = [(info, lit "Frontend: Event stream connected.");
     backend_line (lit "Downloading subtitles");
     (warn, lit "Frontend: Received invalid log event payload.");
     backend_line (lit "Normalising")].
Proof.
  intros net. rewrite (stream_logs_in_order net [] ReservationApp.blank).
  vm_compute. reflexivity.
Defined.

(** ** Sessions of the socket client of docs/app.js *)

Lemma alter_as_insert {A} (f : A -> A) (i : nat) (l : list A) (x : A) :
  l !! i = Some x -> alter f i l = <[i := f x]> l.
Proof.
  intros Hx. apply list_eq. intros j. destruct (decide (i = j)) as [<-|Hij].
  - rewrite list_lookup_alter_eq, Hx. cbn.
    symmetry. apply list_lookup_insert_eq. now apply lookup_lt_Some in Hx.
  - rewrite list_lookup_alter_ne, list_lookup_insert_ne by assumption. reflexivity.
Qed.

Lemma states_insert (i : nat) (s s' : WebSocket) (l : list WebSocket) :
  l !! i = Some s -> readyState s' = readyState s ->
  readyState <$> <[i := s']> l = readyState <$> l.
Proof.
  intros Hs Hr. rewrite list_fmap_insert, Hr. apply list_insert_id.
  now rewrite list_lookup_fmap, Hs.
Qed.

Lemma states_alter (f : WebSocket -> WebSocket) (i : nat) (l : list WebSocket) :
  (forall s, readyState (f s) = readyState s) ->
  readyState <$> alter f i l = readyState <$> l.
Proof.
  intros Hf. apply list_eq. intros j. rewrite !list_lookup_fmap.
  destruct (decide (i = j)) as [<-|Hij].
  - rewrite list_lookup_alter_eq. destruct (l !! i); cbn; [now rewrite Hf|reflexivity].
  - now rewrite list_lookup_alter_ne.
Qed.

Lemma states_ws_send (i : nat) (frame : json) (l l' : list WebSocket) :
  ws_send i frame l = Some l' -> readyState <$> l' = readyState <$> l.
Proof.
  unfold ws_send. destruct (l !! i) as [s|] eqn:Hs; [|discriminate].
  destruct (readyState s) eqn:Hr; intros [= <-]; try reflexivity.
  now apply (states_insert i s).
Qed.

Lemma owed_total_cons (s : WebSocket) (l : list WebSocket) :
  owed_total (s :: l) = owed s + owed_total l.
Proof. reflexivity. Qed.

Lemma owed_total_app (l1 l2 : list WebSocket) :
  owed_total (l1 ++ l2) = owed_total l1 + owed_total l2.
Proof.
  induction l1 as [|s l1 IH]; [reflexivity|].
  rewrite <- app_comm_cons, !owed_total_cons, IH. lia.
Qed.

Lemma owed_total_insert (i : nat) (s s' : WebSocket) (l : list WebSocket) :
  l !! i = Some s -> owed_total (<[i := s']> l) + owed s = owed_total l + owed s'.
Proof.
  revert i. induction l as [|a l IH]; intros [|i] Hs; try discriminate.
  - injection Hs as ->.
    change (<[0 := s']> (s :: l)) with (s' :: l). rewrite !owed_total_cons. lia.
  - change (<[S i := s']> (a :: l)) with (a :: <[i := s']> l).
    rewrite !owed_total_cons. specialize (IH i Hs). lia.
Qed.

Lemma owed_ws_send (i : nat) (frame : json) (l l' : list WebSocket) :
  ws_send i frame l = Some l' -> owed_total l' <= owed_total l + 1.
Proof.
  unfold ws_send. destruct (l !! i) as [s|] eqn:Hs; [|discriminate].
  destruct (readyState s) eqn:Hr; intros [= <-]; try lia.
  pose proof (owed_total_insert i s (push_sent frame s) l Hs) as Hi.
  assert (owed (push_sent frame s) = owed s + 1).
  { unfold owed, push_sent. cbn [ws_sent readyState ws_once_open].
    rewrite length_app. cbn [length]. lia. }
  lia.
Qed.

Lemma all_sent_owed (l : list WebSocket) : length (all_sent l) <= owed_total l.
Proof.
  unfold all_sent. induction l as [|s l IH]; [reflexivity|].
  rewrite owed_total_cons. cbn [map concat]. rewrite length_app.
  unfold owed at 1. lia.
Qed.

Section Session.
Context `{Platform}.

Lemma docs_send_request_keeps (i : nat) (id : jsstring) (w : DocsApp.World) :
  let w' := DocsApp.send_request i id w in
  DocsApp.socket w' = DocsApp.socket w
  /\ DocsApp.downloadButton_disabled w' = DocsApp.downloadButton_disabled w
  /\ DocsApp.localStorage w' = DocsApp.localStorage w
  /\ docs_states w' = docs_states w
  /\ owed_total (DocsApp.sockets w') <= owed_total (DocsApp.sockets w) + 1.
Proof.
  unfold DocsApp.send_request, docs_states.
  destruct (ws_send i (DocsApp.download_frame id) (DocsApp.sockets w)) as [l|] eqn:Hl.
  - docs_simpl. repeat split.
    + exact (states_ws_send _ _ _ _ Hl).
    + exact (owed_ws_send _ _ _ _ Hl).
  - repeat split. lia.
Qed.

Lemma docs_send_all_keeps (i : nat) (ids : list jsstring) (w : DocsApp.World) :
  let w' := foldl (fun w' watchId => DocsApp.send_request i watchId w') w ids in
  DocsApp.socket w' = DocsApp.socket w
  /\ DocsApp.downloadButton_disabled w' = DocsApp.downloadButton_disabled w
  /\ DocsApp.localStorage w' = DocsApp.localStorage w
  /\ docs_states w' = docs_states w
  /\ owed_total (DocsApp.sockets w') <= owed_total (DocsApp.sockets w) + length ids.
Proof.
  revert w. induction ids as [|id ids IH]; intros w; cbn [foldl length].
  - repeat split. lia.
  - destruct (IH (DocsApp.send_request i id w)) as (H1 & H2 & H3 & H4 & H5).
    destruct (docs_send_request_keeps i id w) as (K1 & K2 & K3 & K4 & K5).
    cbn zeta in *. rewrite H1, H2, H3, H4. repeat split; try assumption. lia.
Qed.

Lemma docs_normalizeSocketUrl_keeps (value : jsstring) (w : DocsApp.World) :
  let w' := (DocsApp.normalizeSocketUrl value w).2 in
  DocsApp.sockets w' = DocsApp.sockets w
  /\ DocsApp.socket w' = DocsApp.socket w
  /\ DocsApp.downloadButton_disabled w' = DocsApp.downloadButton_disabled w
  /\ DocsApp.localStorage w' = DocsApp.localStorage w.
Proof.
  unfold DocsApp.normalizeSocketUrl. destruct (negb (str_truthy (trim value)));
    [now repeat split|].
  destruct (DocsApp.parse_socket_url (trim value)); now repeat split.
Qed.

(** What a click that finds a watch id does to the sockets: it sends on
    the open socket, or makes a new socket that holds the command, or, when
    the constructor throws, leaves the sockets alone. *)
Lemma docs_click_cases (w : DocsApp.World) :
  let w' := DocsApp.downloadButton_click w in
  DocsApp.localStorage w' = DocsApp.localStorage w
  /\ ((DocsApp.sockets w' = DocsApp.sockets w
       /\ DocsApp.socket w' = DocsApp.socket w
       /\ DocsApp.downloadButton_disabled w' = DocsApp.downloadButton_disabled w)
      \/ (DocsApp.downloadButton_disabled w' = true
          /\ ((is_open (DocsApp.sockets w) (DocsApp.socket w) = true
               /\ DocsApp.socket w' = DocsApp.socket w
               /\ docs_states w' = docs_states w
               /\ owed_total (DocsApp.sockets w') <= owed_total (DocsApp.sockets w) + 1)
              \/ (is_open (DocsApp.sockets w) (DocsApp.socket w) = false
                  /\ DocsApp.socket w' = Some (length (DocsApp.sockets w))
                  /\ exists s, DocsApp.sockets w' = DocsApp.sockets w ++ [s]
                               /\ readyState s = CONNECTING /\ owed s = 1)
              \/ (DocsApp.sockets w' = DocsApp.sockets w
                  /\ DocsApp.socket w' = DocsApp.socket w)))).
Proof.
  intros w'. subst w'. unfold DocsApp.downloadButton_click.
  destruct (str_truthy (sanitizeWatchId (DocsApp.watchIdInput w))) eqn:Et; cbn [negb].
  2:{ docs_simpl. split; [reflexivity|]. left. now repeat split. }
  set (id := sanitizeWatchId (DocsApp.watchIdInput w)).
  unfold DocsApp.connectSocket. docs_simpl.
  destruct (is_open (DocsApp.sockets w) (DocsApp.socket w)) eqn:Ho.
  - destruct (is_open_inv _ _ Ho) as (i & s & Hi & Hs & Hr). rewrite Hi. docs_simpl.
    assert (Ho' : is_open (alter (push_once_open id) i (DocsApp.sockets w)) (Some i) = true).
    { unfold is_open. rewrite list_lookup_alter_eq, Hs. now apply bool_decide_eq_true. }
    rewrite Ho'.
    match goal with |- context [DocsApp.send_request i id ?w0] =>
      destruct (docs_send_request_keeps i id w0) as (K1 & K2 & K3 & K4 & K5) end.
    cbn zeta in K1, K2, K3, K4, K5. unfold docs_states in *. docs_simpl.
    split; [exact K3|]. right. split; [exact K2|]. left.
    split; [reflexivity|]. split; [now rewrite K1|]. split.
    + rewrite K4. now apply states_alter.
    + assert (Hsame : owed_total (alter (push_once_open id) i (DocsApp.sockets w))
                      = owed_total (DocsApp.sockets w)).
      { rewrite (alter_as_insert _ i _ s Hs).
        pose proof (owed_total_insert i s (push_once_open id s) _ Hs) as Hi'.
        assert (owed (push_once_open id s) = owed s).
        { unfold owed, push_once_open. cbn [ws_sent readyState ws_once_open].
          rewrite Hr. reflexivity. }
        lia. }
      now rewrite Hsame in K5.
  - match goal with |- context [DocsApp.normalizeSocketUrl ?v ?w0] =>
      pose proof (docs_normalizeSocketUrl_keeps v w0) as (N1 & N2 & N3 & N4);
      destruct (DocsApp.normalizeSocketUrl v w0) as [url w1] end.
    cbn [snd] in N1, N2, N3, N4. docs_simpl.
    destruct (websocket_accepts url); docs_simpl.
    + rewrite N1.
      assert (Ha : alter (push_once_open id) (length (DocsApp.sockets w))
                     (DocsApp.sockets w ++ [new_WebSocket url])
                   = DocsApp.sockets w ++ [push_once_open id (new_WebSocket url)]).
      { rewrite (alter_as_insert _ _ _ (new_WebSocket url)).
        - replace (length (DocsApp.sockets w)) with (length (DocsApp.sockets w) + 0) by lia.
          now rewrite insert_app_r.
        - now rewrite list_lookup_middle. }
      rewrite Ha.
      assert (Hc : is_open (DocsApp.sockets w ++ [push_once_open id (new_WebSocket url)])
                     (Some (length (DocsApp.sockets w))) = false).
      { unfold is_open. now rewrite list_lookup_middle. }
      rewrite Hc. docs_simpl. split; [exact N4|]. right. split; [exact N3|].
      right. left. split; [reflexivity|]. split; [reflexivity|].
      eexists. split; [reflexivity|]. now split.
    + split; [exact N4|]. right. split; [exact N3|]. right. right. now split.
Qed.

Lemma docs_states_lookup (w : DocsApp.World) (i : nat) :
  docs_states w !! i = DocsApp.socket_state w i.
Proof. unfold docs_states, DocsApp.socket_state. apply list_lookup_fmap. Qed.

Lemma owed_total_alter_le (f : WebSocket -> WebSocket) (i : nat) (l : list WebSocket) :
  (forall s, owed (f s) <= owed s) -> owed_total (alter f i l) <= owed_total l.
Proof.
  intros Hf. destruct (l !! i) as [s|] eqn:Hs.
  - rewrite (alter_as_insert f i l s Hs).
    pose proof (owed_total_insert i s (f s) l Hs). specialize (Hf s). lia.
  - replace (alter f i l) with l; [lia|]. apply list_eq. intros j.
    destruct (decide (i = j)) as [<-|Hij].
    + now rewrite list_lookup_alter_eq, Hs.
    + now rewrite list_lookup_alter_ne.
Qed.

(** The open listeners of a connecting socket: the socket becomes open and
    the commands it held go out, no more. *)
Lemma docs_on_open_cases (i : nat) (s : WebSocket) (w : DocsApp.World) :
  DocsApp.sockets w !! i = Some s ->
  readyState s = CONNECTING ->
  let w' := DocsApp.on_open i w in
  DocsApp.socket w' = DocsApp.socket w
  /\ DocsApp.downloadButton_disabled w' = DocsApp.downloadButton_disabled w
  /\ DocsApp.localStorage w' = DocsApp.localStorage w
  /\ docs_states w' = <[i := OPEN]> (docs_states w)
  /\ owed_total (DocsApp.sockets w') <= owed_total (DocsApp.sockets w).
Proof.
  intros Hs Hr w'. subst w'. unfold DocsApp.on_open. rewrite Hs.
  match goal with |- context [foldl ?f ?w0 ?ids] =>
    destruct (docs_send_all_keeps i ids w0) as (K1 & K2 & K3 & K4 & K5) end.
  cbn zeta in K1, K2, K3, K4, K5. rewrite K1, K2, K3, K4.
  unfold docs_states in *. docs_simpl. repeat split.
  - now rewrite list_fmap_insert.
  - pose proof (owed_total_insert i s (clear_once_open (set_readyState OPEN s)) _ Hs) as Hi.
    assert (owed s = length (ws_sent s) + length (ws_once_open s)).
    { unfold owed. rewrite Hr. reflexivity. }
    assert (owed (clear_once_open (set_readyState OPEN s)) = length (ws_sent s)).
    { unfold owed. cbn. rewrite bool_decide_eq_false_2 by discriminate. lia. }
    lia.
Qed.

Lemma docs_on_message_keeps (data : option json) (w : DocsApp.World) :
  DocsApp.localStorage (DocsApp.on_message data w) = DocsApp.localStorage w
  /\ (answer_frame data = false ->
      DocsApp.downloadButton_disabled (DocsApp.on_message data w)
      = DocsApp.downloadButton_disabled w).
Proof.
  unfold DocsApp.on_message, answer_frame. destruct data as [d|]; [|now split].
  destruct (get_prop d (lit "type")) as [ty|]; [|now split].
  destruct (is_str (lit "log") ty); [now split|].
  destruct (is_str (lit "error") ty); [now split|].
  destruct (is_str (lit "result") ty); now split.
Qed.

Lemma docs_wired_same (w w' : DocsApp.World) :
  docs_states w' = docs_states w ->
  DocsApp.socket w' = DocsApp.socket w ->
  (DocsApp.downloadButton_disabled w' = false ->
   DocsApp.downloadButton_disabled w = false) ->
  docs_wired w -> docs_wired w'.
Proof.
  intros Hs Hc Hd [W1 W2]. unfold docs_wired. rewrite Hs, Hc. split; [exact W1|].
  intros Hd'. apply W2, Hd, Hd'.
Qed.

Lemma docs_step_wired (w : DocsApp.World) (e : DocsApp.Event) :
  docs_wired w -> docs_wired (DocsApp.step w e).
Proof.
  intros Hw. pose proof Hw as [W1 W2].
  destruct e as [v|v| |i|i data|i|i]; cbn [DocsApp.step].
  - now apply (docs_wired_same w).
  - destruct (DocsApp.backendAddressInput w); [|exact Hw].
    unfold DocsApp.backendAddress_change. docs_simpl.
    destruct (str_truthy (trim v)); now apply (docs_wired_same w).
  - destruct (DocsApp.downloadButton_disabled w) eqn:Hd; [exact Hw|].
    destruct (docs_click_cases w) as (_ & [(C1 & C2 & C3) | (Ct & Hc)]).
    { apply (fun a b c => docs_wired_same w _ a b c Hw); [unfold docs_states; now rewrite C1|exact C2|].
      intros _. exact Hd. }
    destruct Hc as [(_ & C2 & C3 & _) | [(Ho & C2 & s & C3 & Hr & _) | (C1 & C2)]].
    + apply (fun a b c => docs_wired_same w _ a b c Hw); [exact C3|exact C2|].
      rewrite Ct. discriminate.
    + split; [|rewrite Ct; discriminate].
      rewrite C2. unfold docs_states. rewrite C3, fmap_app. cbn [fmap list_fmap].
      intros j r Hj Hlive.
      destruct (decide (j < length (DocsApp.sockets w))) as [Hlt|Hge].
      * exfalso. rewrite lookup_app_l in Hj by now rewrite length_fmap.
        pose proof (W1 j r Hj Hlive) as Hcur.
        destruct Hlive as [-> | ->]; [exact (W2 eq_refl j Hj)|].
        unfold is_open in Ho. rewrite Hcur in Ho.
        rewrite list_lookup_fmap in Hj.
        destruct (DocsApp.sockets w !! j) as [s0|]; [|discriminate].
        injection Hj as Hj. apply bool_decide_eq_false in Ho. contradiction.
      * destruct (decide (j = length (DocsApp.sockets w))) as [->|Hne]; [reflexivity|].
        rewrite lookup_ge_None_2 in Hj; [discriminate|].
        rewrite length_app, length_fmap. cbn. lia.
    + apply (fun a b c => docs_wired_same w _ a b c Hw); [unfold docs_states; now rewrite C1|exact C2|].
      rewrite Ct. discriminate.
  - case_decide as Hst; [|exact Hw].
    unfold DocsApp.socket_state in Hst.
    destruct (DocsApp.sockets w !! i) as [s|] eqn:Hs; [|discriminate].
    injection Hst as Hr.
    destruct (docs_on_open_cases i s w Hs Hr) as (K1 & K2 & _ & K4 & _).
    cbn zeta in K1, K2, K4.
    assert (Hi : docs_states w !! i = Some CONNECTING).
    { unfold docs_states. now rewrite list_lookup_fmap, Hs, <- Hr. }
    unfold docs_wired. rewrite K1, K2, K4. split.
    + intros j r Hj Hlive. destruct (decide (i = j)) as [<-|Hij].
      * apply (W1 i CONNECTING Hi). now left.
      * rewrite list_lookup_insert_ne in Hj by exact Hij. exact (W1 j r Hj Hlive).
    + intros Hd. exfalso. exact (W2 Hd i Hi).
  - case_decide as Hst; [|exact Hw].
    destruct (docs_on_message_sockets data w) as (M1 & M2 & _).
    rewrite <- docs_states_lookup in Hst.
    unfold docs_wired, docs_states. rewrite M1, M2. fold (docs_states w).
    split; [exact W1|]. intros _ j Hj.
    pose proof (W1 j CONNECTING Hj (or_introl eq_refl)) as Hcj.
    pose proof (W1 i OPEN Hst (or_intror eq_refl)) as Hci.
    rewrite Hcj in Hci. injection Hci as ->. congruence.
  - destruct (DocsApp.socket_state w i) as [[]|]; try exact Hw;
      now apply (docs_wired_same w).
  - assert (Hclose : docs_wired (DocsApp.on_close i w)).
    { unfold DocsApp.on_close, docs_wired, docs_states. docs_simpl.
      assert (Hlook : forall j r,
                (readyState <$> alter (set_readyState CLOSED) i (DocsApp.sockets w)) !! j
                = Some r ->
                r <> CLOSED -> docs_states w !! j = Some r).
      { intros j r Hj Hr. unfold docs_states. rewrite list_lookup_fmap in *.
        destruct (decide (i = j)) as [<-|Hij].
        - rewrite list_lookup_alter_eq in Hj.
          destruct (DocsApp.sockets w !! i); [|discriminate].
          cbn in Hj. congruence.
        - now rewrite list_lookup_alter_ne in Hj. }
      split.
      - intros j r Hj Hlive. apply (W1 j r); [|exact Hlive].
        apply Hlook; [exact Hj|]. now destruct Hlive as [-> | ->].
      - intros Hd j Hj. apply (W2 Hd j). now apply Hlook. }
    destruct (DocsApp.socket_state w i) as [[]|]; first [exact Hw|exact Hclose].
Qed.

Lemma docs_step_owed (w : DocsApp.World) (e : DocsApp.Event) :
  owed_total (DocsApp.sockets (DocsApp.step w e))
  <= owed_total (DocsApp.sockets w)
     + match e with DocsApp.Click => 1 | _ => 0 end.
Proof.
  destruct e as [v|v| |i|i data|i|i]; cbn [DocsApp.step].
  - docs_simpl. lia.
  - destruct (DocsApp.backendAddressInput w); [|lia].
    unfold DocsApp.backendAddress_change. docs_simpl.
    destruct (str_truthy (trim v)); docs_simpl; lia.
  - destruct (DocsApp.downloadButton_disabled w); [lia|].
    destruct (docs_click_cases w) as (_ & [(C1 & _) | (_ & Hc)]); [rewrite C1; lia|].
    destruct Hc as [(_ & _ & _ & C) | [(_ & _ & s & C3 & _ & Ho) | (C1 & _)]].
    + exact C.
    + rewrite C3, owed_total_app, owed_total_cons. cbn. lia.
    + rewrite C1. lia.
  - case_decide as Hst; [|lia].
    unfold DocsApp.socket_state in Hst.
    destruct (DocsApp.sockets w !! i) as [s|] eqn:Hs; [|discriminate].
    injection Hst as Hr.
    destruct (docs_on_open_cases i s w Hs Hr) as (_ & _ & _ & _ & K). cbn zeta in K. lia.
  - case_decide; [|lia]. destruct (docs_on_message_sockets data w) as (-> & _). lia.
  - destruct (DocsApp.socket_state w i) as [[]|]; unfold DocsApp.on_error; docs_simpl; lia.
  - assert (Hclose : owed_total (DocsApp.sockets (DocsApp.on_close i w))
                     <= owed_total (DocsApp.sockets w)).
    { unfold DocsApp.on_close. docs_simpl. apply owed_total_alter_le.
      intros s. unfold owed. cbn [set_readyState ws_sent readyState ws_once_open].
      rewrite bool_decide_eq_false_2 by discriminate. lia. }
    destruct (DocsApp.socket_state w i) as [[]|]; lia.
Qed.

Lemma docs_clicks_snoc (es : list DocsApp.Event) (e : DocsApp.Event) :
  docs_clicks (es ++ [e])
  = docs_clicks es + match e with DocsApp.Click => 1 | _ => 0 end.
Proof.
  unfold docs_clicks. rewrite omap_app, length_app. now destruct e.
Qed.

(** The page never has two sockets in use: after any session that starts
    without sockets, a socket that is connecting or open is the one the
    variable [socket] names; every other socket is closed or closing. *)
Theorem one_live_socket (w0 : DocsApp.World) (es : list DocsApp.Event)
    (i : nat) (s : WebSocket) :
  DocsApp.sockets w0 = [] ->
  DocsApp.sockets (DocsApp.run w0 es) !! i = Some s ->
  live s ->
  DocsApp.socket (DocsApp.run w0 es) = Some i.
Proof.
  intros Hnil Hs Hlive.
  assert (Hw : docs_wired (DocsApp.run w0 es)).
  { clear Hs. induction es as [|e es IH] using rev_ind.
    - unfold docs_wired, docs_states. cbn. rewrite Hnil. split; [|intros _]; intros j; discriminate.
    - unfold DocsApp.run. rewrite foldl_snoc. apply docs_step_wired, IH. }
  destruct Hw as [W1 _]. apply (W1 i (readyState s)); [|exact Hlive].
  unfold docs_states. now rewrite list_lookup_fmap, Hs.
Qed.

(** The page sends at most one start command for each click: in any session
    that starts without sockets, the frames sent on all sockets together
    are no more than the clicks on the request control. *)
Theorem frames_at_most_clicks (w0 : DocsApp.World) (es : list DocsApp.Event) :
  DocsApp.sockets w0 = [] ->
  length (all_sent (DocsApp.sockets (DocsApp.run w0 es))) <= docs_clicks es.
Proof.
  intros Hnil. etransitivity; [apply all_sent_owed|].
  induction es as [|e es IH] using rev_ind.
  - cbn. rewrite Hnil. reflexivity.
  - unfold DocsApp.run. rewrite foldl_snoc, docs_clicks_snoc.
    fold (DocsApp.run w0 es).
    pose proof (docs_step_owed (DocsApp.run w0 es) e). lia.
Qed.

Lemma docs_step_control (w : DocsApp.World) (e : DocsApp.Event) :
  DocsApp.downloadButton_disabled w = true ->
  docs_answer_event e = false ->
  DocsApp.downloadButton_disabled (DocsApp.step w e) = true.
Proof.
  intros Hd He. destruct e as [v|v| |i|i data|i|i]; cbn [DocsApp.step].
  - exact Hd.
  - destruct (DocsApp.backendAddressInput w); [|exact Hd].
    unfold DocsApp.backendAddress_change. docs_simpl.
    now destruct (str_truthy (trim v)).
  - now rewrite Hd.
  - case_decide as Hst; [|exact Hd].
    unfold DocsApp.socket_state in Hst.
    destruct (DocsApp.sockets w !! i) as [s|] eqn:Hs; [|discriminate].
    injection Hst as Hr.
    destruct (docs_on_open_cases i s w Hs Hr) as (_ & K & _). cbn zeta in K.
    now rewrite K.
  - case_decide; [|exact Hd].
    destruct (docs_on_message_keeps data w) as (_ & K). now rewrite (K He).
  - now destruct (DocsApp.socket_state w i) as [[]|].
  - now destruct (DocsApp.socket_state w i) as [[]|].
Qed.

Lemma docs_step_storage (w : DocsApp.World) (e : DocsApp.Event) (k : jsstring) :
  DocsApp.localStorage (DocsApp.step w e) !! k = DocsApp.localStorage w !! k
  \/ (k = lit "backendAddress"
      /\ match DocsApp.localStorage (DocsApp.step w e) !! k with
         | Some v => v <> [] /\ trim v = v
         | None => True
         end).
Proof.
  destruct e as [v|v| |i|i data|i|i]; cbn [DocsApp.step].
  - now left.
  - destruct (DocsApp.backendAddressInput w); [|now left].
    unfold DocsApp.backendAddress_change. docs_simpl.
    destruct (decide (k = lit "backendAddress")) as [->|Hk].
    + right. split; [reflexivity|].
      destruct (str_truthy (trim v)) eqn:Et; docs_simpl.
      * rewrite lookup_insert_eq. split; [now apply str_truthy_true|apply trim_fixed].
      * now rewrite lookup_delete_eq.
    + left. destruct (str_truthy (trim v)); docs_simpl.
      * now rewrite lookup_insert_ne.
      * now rewrite lookup_delete_ne.
  - left. destruct (DocsApp.downloadButton_disabled w); [reflexivity|].
    destruct (docs_click_cases w) as (-> & _). reflexivity.
  - left. case_decide as Hst; [|reflexivity].
    unfold DocsApp.socket_state in Hst.
    destruct (DocsApp.sockets w !! i) as [s|] eqn:Hs; [|discriminate].
    injection Hst as Hr.
    destruct (docs_on_open_cases i s w Hs Hr) as (_ & _ & K & _). cbn zeta in K.
    now rewrite K.
  - left. case_decide; [|reflexivity].
    destruct (docs_on_message_keeps data w) as (-> & _). reflexivity.
  - left. now destruct (DocsApp.socket_state w i) as [[]|].
  - left. now destruct (DocsApp.socket_state w i) as [[]|].
Qed.

(** Once a click has disabled the request control, only a frame of type
    "error" or "result" enables it again: no other event does, whether
    typing, a change of the address, the socket opening, failing or
    closing, a log frame or a frame that is no JSON. *)
Theorem control_waits_for_answer (w : DocsApp.World) (es : list DocsApp.Event) :
  DocsApp.downloadButton_disabled w = true ->
  Forall (fun e => docs_answer_event e = false) es ->
  DocsApp.downloadButton_disabled (DocsApp.run w es) = true.
Proof.
  intros Hd Hes. revert w Hd. induction Hes as [|e es He _ IH]; intros w Hd; [exact Hd|].
  cbn [DocsApp.run foldl]. apply IH. now apply docs_step_control.
Qed.

(** Of the browser's storage the page touches the key "backendAddress"
    alone: every other key keeps its value through any session, and what
    the page stores under "backendAddress" is trimmed and not empty. *)
Theorem storage_holds_address_only (w : DocsApp.World) (es : list DocsApp.Event)
    (k : jsstring) :
  DocsApp.localStorage (DocsApp.run w es) !! k = DocsApp.localStorage w !! k
  \/ (k = lit "backendAddress"
      /\ match DocsApp.localStorage (DocsApp.run w es) !! k with
         | Some v => v <> [] /\ trim v = v
         | None => True
         end).
Proof.
  induction es as [|e es IH] using rev_ind; [now left|].
  unfold DocsApp.run. rewrite foldl_snoc. fold (DocsApp.run w es).
  destruct (docs_step_storage (DocsApp.run w es) e k) as [Hsame | Hnew].
  - rewrite Hsame. exact IH.
  - now right.
Qed.

End Session.

Lemma one_live_socket_witness :
  let es := [DocsApp.UserTypesWatchId (lit "dQw4w9WgXcQ"); DocsApp.Click;
             DocsApp.SockOpen 0;
             DocsApp.SockMessage 0 (Some (JObj [(lit "type", JStr (lit "error"))]));
             DocsApp.SockClose 0; DocsApp.Click] in
  let w := DocsApp.run (H := SampleBrowser.browser) DocsApp.blank es in
  (DocsApp.sockets DocsApp.blank = []
   /\ (readyState <$> DocsApp.sockets w) = [CLOSED; CONNECTING])
  /\ DocsApp.socket w = Some 1.
Proof.
  intros es w.
  assert (Hs : exists s, DocsApp.sockets w !! 1 = Some s /\ live s).
  { eexists. split; [vm_compute; reflexivity|]. left. reflexivity. }
  split; [split; [reflexivity|vm_compute; reflexivity]|].
  destruct Hs as (s & Hs & Hlive).
  exact (one_live_socket (H := SampleBrowser.browser) DocsApp.blank es 1 s eq_refl Hs Hlive).
Defined.

Lemma frames_at_most_clicks_witness :
  let es := [DocsApp.UserTypesWatchId (lit "dQw4w9WgXcQ"); DocsApp.Click;
             DocsApp.Click; DocsApp.SockOpen 0; DocsApp.SockClose 0] in
  DocsApp.sockets DocsApp.blank = []
  /\ length (all_sent (DocsApp.sockets
                         (DocsApp.run (H := SampleBrowser.browser) DocsApp.blank es)))
     <= 2.
Proof.
  intros es. split; [reflexivity|].
  exact (frames_at_most_clicks (H := SampleBrowser.browser) DocsApp.blank es eq_refl).
Defined.

Lemma control_waits_for_answer_witness :
  let w :=
    DocsApp.run (H := SampleBrowser.browser) DocsApp.blank
      [DocsApp.UserTypesWatchId (lit "dQw4w9WgXcQ"); DocsApp.Click] in
  let es := [DocsApp.SockOpen 0; DocsApp.SockMessage 0 (log_frame (lit "Downloading"));
             DocsApp.SockMessage 0 None; DocsApp.SockError 0; DocsApp.SockClose 0] in
  (DocsApp.downloadButton_disabled w = true
   /\ Forall (fun e => docs_answer_event e = false) es)
  /\ DocsApp.downloadButton_disabled (DocsApp.run (H := SampleBrowser.browser) w es) = true.
Proof.
  intros w es.
  assert (H1 : DocsApp.downloadButton_disabled w = true) by (vm_compute; reflexivity).
  assert (H2 : Forall (fun e => docs_answer_event e = false) es)
    by (repeat constructor).
  split; [now split|].
  exact (control_waits_for_answer (H := SampleBrowser.browser) w es H1 H2).
Defined.

(** ** Sessions of the minimal client *)

Lemma simple_fire_keeps (w : SimpleSocket.World) (id : jsstring) :
  let w' := SimpleSocket.fire_once_open w id in
  SimpleSocket.socket w' = SimpleSocket.socket w
  /\ SimpleSocket.downloadBtn_disabled w' = SimpleSocket.downloadBtn_disabled w
  /\ simple_states w' = simple_states w
  /\ owed_total (SimpleSocket.sockets w') <= owed_total (SimpleSocket.sockets w) + 1.
Proof.
  unfold SimpleSocket.fire_once_open, SimpleSocket.send_on_current, simple_states.
  destruct (SimpleSocket.socket w) as [i|] eqn:Hc; [|repeat split; first [exact Hc|lia]].
  destruct (ws_send i (SimpleSocket.download_frame id) (SimpleSocket.sockets w))
    as [l|] eqn:Hl; [|repeat split; first [exact Hc|lia]].
  simple_simpl. repeat split.
  - exact Hc.
  - exact (states_ws_send _ _ _ _ Hl).
  - exact (owed_ws_send _ _ _ _ Hl).
Qed.

Lemma simple_fire_all_keeps (ids : list jsstring) (w : SimpleSocket.World) :
  let w' := foldl SimpleSocket.fire_once_open w ids in
  SimpleSocket.socket w' = SimpleSocket.socket w
  /\ SimpleSocket.downloadBtn_disabled w' = SimpleSocket.downloadBtn_disabled w
  /\ simple_states w' = simple_states w
  /\ owed_total (SimpleSocket.sockets w') <= owed_total (SimpleSocket.sockets w) + length ids.
Proof.
  revert w. induction ids as [|id ids IH]; intros w; cbn [foldl length].
  - repeat split. lia.
  - destruct (IH (SimpleSocket.fire_once_open w id)) as (H1 & H2 & H3 & H4).
    destruct (simple_fire_keeps w id) as (K1 & K2 & K3 & K4).
    cbn zeta in *. rewrite H1, H2, H3. repeat split; try assumption. lia.
Qed.

(** What a click that finds a video id does to the sockets: it sends on
    the open socket, or makes a new socket that holds the command. *)
Lemma simple_click_cases (w : SimpleSocket.World) :
  let w' := SimpleSocket.downloadBtn_click w in
  (SimpleSocket.sockets w' = SimpleSocket.sockets w
   /\ SimpleSocket.socket w' = SimpleSocket.socket w
   /\ SimpleSocket.downloadBtn_disabled w' = SimpleSocket.downloadBtn_disabled w)
  \/ (SimpleSocket.downloadBtn_disabled w' = true
      /\ ((is_open (SimpleSocket.sockets w) (SimpleSocket.socket w) = true
           /\ SimpleSocket.socket w' = SimpleSocket.socket w
           /\ simple_states w' = simple_states w
           /\ owed_total (SimpleSocket.sockets w')
              <= owed_total (SimpleSocket.sockets w) + 1)
          \/ (is_open (SimpleSocket.sockets w) (SimpleSocket.socket w) = false
              /\ SimpleSocket.socket w' = Some (length (SimpleSocket.sockets w))
              /\ exists s, SimpleSocket.sockets w' = SimpleSocket.sockets w ++ [s]
                           /\ readyState s = CONNECTING /\ owed s = 1))).
Proof.
  intros w'. subst w'. unfold SimpleSocket.downloadBtn_click.
  destruct (str_truthy (trim (SimpleSocket.videoIdInput w))) eqn:Et; cbn [negb].
  2:{ simple_simpl. left. now repeat split. }
  set (id := trim (SimpleSocket.videoIdInput w)).
  unfold SimpleSocket.connectSocket. simple_simpl.
  destruct (is_open (SimpleSocket.sockets w) (SimpleSocket.socket w)) eqn:Ho.
  - simple_simpl. rewrite Ho. cbn [negb].
    destruct (is_open_inv _ _ Ho) as (i & s & Hi & Hs & Hr).
    unfold SimpleSocket.send_on_current. simple_simpl. rewrite Hi.
    destruct (ws_send i (SimpleSocket.download_frame id) (SimpleSocket.sockets w))
      as [l|] eqn:Hl.
    2:{ unfold ws_send in Hl. rewrite Hs, Hr in Hl. discriminate. }
    simple_simpl. right. split; [reflexivity|]. left.
    split; [reflexivity|]. split; [now rewrite Hi|]. unfold simple_states. simple_simpl.
    split; [exact (states_ws_send _ _ _ _ Hl)|exact (owed_ws_send _ _ _ _ Hl)].
  - simple_simpl.
    assert (Hc : is_open (SimpleSocket.sockets w ++ [new_WebSocket SimpleSocket.socket_url])
                   (Some (length (SimpleSocket.sockets w))) = false).
    { unfold is_open. now rewrite list_lookup_middle. }
    rewrite Hc. cbn [negb]. simple_simpl.
    assert (Ha : alter (push_once_open id) (length (SimpleSocket.sockets w))
                   (SimpleSocket.sockets w ++ [new_WebSocket SimpleSocket.socket_url])
                 = SimpleSocket.sockets w
                     ++ [push_once_open id (new_WebSocket SimpleSocket.socket_url)]).
    { rewrite (alter_as_insert _ _ _ (new_WebSocket SimpleSocket.socket_url)).
      - replace (length (SimpleSocket.sockets w))
          with (length (SimpleSocket.sockets w) + 0) by lia.
        now rewrite insert_app_r.
      - now rewrite list_lookup_middle. }
    rewrite Ha. right. split; [reflexivity|]. right.
    split; [reflexivity|]. split; [reflexivity|].
    eexists. split; [reflexivity|]. now split.
Qed.

Lemma simple_on_open_cases (i : nat) (s : WebSocket) (w : SimpleSocket.World) :
  SimpleSocket.sockets w !! i = Some s ->
  readyState s = CONNECTING ->
  let w' := SimpleSocket.on_open i w in
  SimpleSocket.socket w' = SimpleSocket.socket w
  /\ SimpleSocket.downloadBtn_disabled w' = SimpleSocket.downloadBtn_disabled w
  /\ simple_states w' = <[i := OPEN]> (simple_states w)
  /\ owed_total (SimpleSocket.sockets w') <= owed_total (SimpleSocket.sockets w).
Proof.
  intros Hs Hr w'. subst w'. unfold SimpleSocket.on_open. rewrite Hs.
  match goal with |- context [foldl ?f ?w0 ?ids] =>
    destruct (simple_fire_all_keeps ids w0) as (K1 & K2 & K3 & K4) end.
  cbn zeta in K1, K2, K3, K4. rewrite K1, K2, K3.
  unfold simple_states in *. simple_simpl. repeat split.
  - now rewrite list_fmap_insert.
  - pose proof (owed_total_insert i s (clear_once_open (set_readyState OPEN s)) _ Hs) as Hi.
    assert (owed s = length (ws_sent s) + length (ws_once_open s)).
    { unfold owed. rewrite Hr. reflexivity. }
    assert (owed (clear_once_open (set_readyState OPEN s)) = length (ws_sent s)).
    { unfold owed. cbn. rewrite bool_decide_eq_false_2 by discriminate. lia. }
    lia.
Qed.

Lemma simple_on_message_control (data : option json) (w : SimpleSocket.World) :
  simple_enabling_frame data = false ->
  SimpleSocket.downloadBtn_disabled (SimpleSocket.on_message data w)
  = SimpleSocket.downloadBtn_disabled w.
Proof.
  unfold SimpleSocket.on_message, simple_enabling_frame.
  destruct data as [d|]; [|reflexivity].
  destruct (get_prop d (lit "type")) as [ty|]; [|reflexivity].
  destruct (is_str (lit "error") ty); [discriminate|]. cbn [orb].
  destruct (is_str (lit "result") ty); cbn [andb].
  - intros Ht. cbn zeta. simple_simpl. unfold SimpleSocket.setPreview.
    destruct (SimpleSocket.prop d (lit "text")) as [|[]]; try discriminate;
      now destruct (is_str (lit "log") ty).
  - intros _. now destruct (is_str (lit "log") ty).
Qed.

Lemma simple_wired_same (w w' : SimpleSocket.World) :
  simple_states w' = simple_states w ->
  SimpleSocket.socket w' = SimpleSocket.socket w ->
  (SimpleSocket.downloadBtn_disabled w' = false ->
   SimpleSocket.downloadBtn_disabled w = false) ->
  simple_wired w -> simple_wired w'.
Proof.
  intros Hs Hc Hd [W1 W2]. unfold simple_wired. rewrite Hs, Hc. split; [exact W1|].
  intros Hd'. apply W2, Hd, Hd'.
Qed.

Lemma simple_step_wired (w : SimpleSocket.World) (e : SimpleSocket.Event) :
  simple_wired w -> simple_wired (SimpleSocket.step w e).
Proof.
  intros Hw. pose proof Hw as [W1 W2].
  destruct e as [v| |i|i data|i]; cbn [SimpleSocket.step].
  - now apply (simple_wired_same w).
  - destruct (SimpleSocket.downloadBtn_disabled w) eqn:Hd; [exact Hw|].
    destruct (simple_click_cases w) as [(C1 & C2 & C3) | (Ct & Hc)].
    { apply (fun a b c => simple_wired_same w _ a b c Hw);
        [unfold simple_states; now rewrite C1|exact C2|].
      intros _. exact Hd. }
    destruct Hc as [(_ & C2 & C3 & _) | (Ho & C2 & s & C3 & Hr & _)].
    + apply (fun a b c => simple_wired_same w _ a b c Hw); [exact C3|exact C2|].
      rewrite Ct. discriminate.
    + split; [|rewrite Ct; discriminate].
      rewrite C2. unfold simple_states. rewrite C3, fmap_app. cbn [fmap list_fmap].
      intros j r Hj Hlive.
      destruct (decide (j < length (SimpleSocket.sockets w))) as [Hlt|Hge].
      * exfalso. rewrite lookup_app_l in Hj by now rewrite length_fmap.
        pose proof (W1 j r Hj Hlive) as Hcur.
        destruct Hlive as [-> | ->]; [exact (W2 eq_refl j Hj)|].
        unfold is_open in Ho. rewrite Hcur in Ho.
        rewrite list_lookup_fmap in Hj.
        destruct (SimpleSocket.sockets w !! j) as [s0|]; [|discriminate].
        injection Hj as Hj. apply bool_decide_eq_false in Ho. contradiction.
      * destruct (decide (j = length (SimpleSocket.sockets w))) as [->|Hne]; [reflexivity|].
        rewrite lookup_ge_None_2 in Hj; [discriminate|].
        rewrite length_app, length_fmap. cbn. lia.
  - case_decide as Hst; [|exact Hw].
    unfold SimpleSocket.socket_state in Hst.
    destruct (SimpleSocket.sockets w !! i) as [s|] eqn:Hs; [|discriminate].
    injection Hst as Hr.
    destruct (simple_on_open_cases i s w Hs Hr) as (K1 & K2 & K4 & _).
    cbn zeta in K1, K2, K4.
    assert (Hi : simple_states w !! i = Some CONNECTING).
    { unfold simple_states. now rewrite list_lookup_fmap, Hs, <- Hr. }
    unfold simple_wired. rewrite K1, K2, K4. split.
    + intros j r Hj Hlive. destruct (decide (i = j)) as [<-|Hij].
      * apply (W1 i CONNECTING Hi). now left.
      * rewrite list_lookup_insert_ne in Hj by exact Hij. exact (W1 j r Hj Hlive).
    + intros Hd. exfalso. exact (W2 Hd i Hi).
  - case_decide as Hst; [|exact Hw].
    destruct (simple_on_message_sockets data w) as (M1 & M2 & _).
    assert (Hi : simple_states w !! i = Some OPEN).
    { unfold simple_states. rewrite list_lookup_fmap. exact Hst. }
    unfold simple_wired, simple_states. rewrite M1, M2. fold (simple_states w).
    split; [exact W1|]. intros _ j Hj.
    pose proof (W1 j CONNECTING Hj (or_introl eq_refl)) as Hcj.
    pose proof (W1 i OPEN Hi (or_intror eq_refl)) as Hci.
    rewrite Hcj in Hci. injection Hci as ->. congruence.
  - assert (Hclose : simple_wired (SimpleSocket.on_close i w)).
    { unfold SimpleSocket.on_close, simple_wired, simple_states. simple_simpl.
      assert (Hlook : forall j r,
                (readyState <$> alter (set_readyState CLOSED) i (SimpleSocket.sockets w)) !! j
                = Some r ->
                r <> CLOSED -> simple_states w !! j = Some r).
      { intros j r Hj Hr. unfold simple_states. rewrite list_lookup_fmap in *.
        destruct (decide (i = j)) as [<-|Hij].
        - rewrite list_lookup_alter_eq in Hj.
          destruct (SimpleSocket.sockets w !! i); [|discriminate].
          cbn in Hj. congruence.
        - now rewrite list_lookup_alter_ne in Hj. }
      split.
      - intros j r Hj Hlive. apply (W1 j r); [|exact Hlive].
        apply Hlook; [exact Hj|]. now destruct Hlive as [-> | ->].
      - intros Hd j Hj. apply (W2 Hd j). now apply Hlook. }
    destruct (SimpleSocket.socket_state w i) as [[]|]; first [exact Hw|exact Hclose].
Qed.

Lemma simple_step_owed (w : SimpleSocket.World) (e : SimpleSocket.Event) :
  owed_total (SimpleSocket.sockets (SimpleSocket.step w e))
  <= owed_total (SimpleSocket.sockets w)
     + match e with SimpleSocket.Click => 1 | _ => 0 end.
Proof.
  destruct e as [v| |i|i data|i]; cbn [SimpleSocket.step].
  - simple_simpl. lia.
  - destruct (SimpleSocket.downloadBtn_disabled w); [lia|].
    destruct (simple_click_cases w) as [(C1 & _) | (_ & Hc)]; [rewrite C1; lia|].
    destruct Hc as [(_ & _ & _ & C) | (_ & _ & s & C3 & _ & Ho)].
    + exact C.
    + rewrite C3, owed_total_app, owed_total_cons. cbn. lia.
  - case_decide as Hst; [|lia].
    unfold SimpleSocket.socket_state in Hst.
    destruct (SimpleSocket.sockets w !! i) as [s|] eqn:Hs; [|discriminate].
    injection Hst as Hr.
    destruct (simple_on_open_cases i s w Hs Hr) as (_ & _ & _ & K). cbn zeta in K. lia.
  - case_decide; [|lia]. destruct (simple_on_message_sockets data w) as (-> & _). lia.
  - assert (Hclose : owed_total (SimpleSocket.sockets (SimpleSocket.on_close i w))
                     <= owed_total (SimpleSocket.sockets w)).
    { unfold SimpleSocket.on_close. simple_simpl. apply owed_total_alter_le.
      intros s. unfold owed. cbn [set_readyState ws_sent readyState ws_once_open].
      rewrite bool_decide_eq_false_2 by discriminate. lia. }
    destruct (SimpleSocket.socket_state w i) as [[]|]; lia.
Qed.

Lemma simple_step_control (w : SimpleSocket.World) (e : SimpleSocket.Event) :
  SimpleSocket.downloadBtn_disabled w = true ->
  simple_enabling_event e = false ->
  SimpleSocket.downloadBtn_disabled (SimpleSocket.step w e) = true.
Proof.
  intros Hd He. destruct e as [v| |i|i data|i]; cbn [SimpleSocket.step].
  - exact Hd.
  - now rewrite Hd.
  - case_decide as Hst; [|exact Hd].
    unfold SimpleSocket.socket_state in Hst.
    destruct (SimpleSocket.sockets w !! i) as [s|] eqn:Hs; [|discriminate].
    injection Hst as Hr.
    destruct (simple_on_open_cases i s w Hs Hr) as (_ & K & _). cbn zeta in K.
    now rewrite K.
  - case_decide; [|exact Hd]. now rewrite simple_on_message_control.
  - now destruct (SimpleSocket.socket_state w i) as [[]|].
Qed.

Lemma simple_clicks_snoc (es : list SimpleSocket.Event) (e : SimpleSocket.Event) :
  simple_clicks (es ++ [e])
  = simple_clicks es + match e with SimpleSocket.Click => 1 | _ => 0 end.
Proof.
  unfold simple_clicks. rewrite omap_app, length_app. now destruct e.
Qed.

(** The minimal client, too, keeps one socket in use and sends at most one
    start command for each click, although its open listeners send on
    whatever socket the variable [socket] names when they run: in any
    session that starts without sockets, a socket that is connecting or
    open is the one [socket] names, and the frames sent are no more than
    the clicks. *)
Theorem simple_session_sockets (w0 : SimpleSocket.World) (es : list SimpleSocket.Event) :
  SimpleSocket.sockets w0 = [] ->
  let w := SimpleSocket.run w0 es in
  (forall i s, SimpleSocket.sockets w !! i = Some s -> live s ->
               SimpleSocket.socket w = Some i)
  /\ length (all_sent (SimpleSocket.sockets w)) <= simple_clicks es.
Proof.
  intros Hnil w. subst w. split.
  - assert (Hw : simple_wired (SimpleSocket.run w0 es)).
    { induction es as [|e es IH] using rev_ind.
      - unfold simple_wired, simple_states. cbn. rewrite Hnil.
        split; [|intros _]; intros j; discriminate.
      - unfold SimpleSocket.run. rewrite foldl_snoc. apply simple_step_wired, IH. }
    destruct Hw as [W1 _]. intros i s Hs Hlive.
    apply (W1 i (readyState s)); [|exact Hlive].
    unfold simple_states. now rewrite list_lookup_fmap, Hs.
  - etransitivity; [apply all_sent_owed|].
    induction es as [|e es IH] using rev_ind.
    + cbn. rewrite Hnil. reflexivity.
    + unfold SimpleSocket.run. rewrite foldl_snoc. fold (SimpleSocket.run w0 es).
      pose proof (simple_step_owed (SimpleSocket.run w0 es) e) as Hstep.
      rewrite simple_clicks_snoc. lia.
Qed.

Lemma simple_session_sockets_witness :
  let es := [SimpleSocket.UserTypesVideoId (lit "dQw4w9WgXcQ"); SimpleSocket.Click;
             SimpleSocket.SockOpen 0;
             SimpleSocket.SockMessage 0 (Some (JObj [(lit "type", JStr (lit "error"))]));
             SimpleSocket.SockClose 0; SimpleSocket.Click] in
  let w := SimpleSocket.run SimpleSocket.initial es in
  (SimpleSocket.sockets SimpleSocket.initial = []
   /\ (readyState <$> SimpleSocket.sockets w) = [CLOSED; CONNECTING])
  /\ SimpleSocket.socket w = Some 1
  /\ length (all_sent (SimpleSocket.sockets w)) <= 2.
Proof.
  intros es w.
  assert (Hs : exists s, SimpleSocket.sockets w !! 1 = Some s /\ live s).
  { eexists. split; [vm_compute; reflexivity|]. left. reflexivity. }
  split; [split; [reflexivity|vm_compute; reflexivity]|].
  destruct Hs as (s & Hs & Hlive).
  destruct (simple_session_sockets SimpleSocket.initial es eq_refl) as (H1 & H2).
  split; [exact (H1 1 s Hs Hlive)|exact H2].
Defined.

(** In the minimal client the request control, once disabled, is enabled
    again only by a frame of type "error" or by a frame of type "result"
    whose text is a string: a result without text, a log frame, and the
    socket opening or closing leave it disabled. *)
Theorem simple_control_waits (w : SimpleSocket.World) (es : list SimpleSocket.Event) :
  SimpleSocket.downloadBtn_disabled w = true ->
  Forall (fun e => simple_enabling_event e = false) es ->
  SimpleSocket.downloadBtn_disabled (SimpleSocket.run w es) = true.
Proof.
  intros Hd Hes. revert w Hd. induction Hes as [|e es He _ IH]; intros w Hd; [exact Hd|].
  cbn [SimpleSocket.run foldl]. apply IH. now apply simple_step_control.
Qed.

Lemma simple_control_waits_witness :
  let w :=
    SimpleSocket.run SimpleSocket.initial
      [SimpleSocket.UserTypesVideoId (lit "dQw4w9WgXcQ"); SimpleSocket.Click] in
  let es := [SimpleSocket.SockOpen 0;
             SimpleSocket.SockMessage 0
               (Some (JObj [(lit "type", JStr (lit "result")); (lit "text", JNull)]));
             SimpleSocket.SockClose 0] in
  (SimpleSocket.downloadBtn_disabled w = true
   /\ Forall (fun e => simple_enabling_event e = false) es)
  /\ SimpleSocket.downloadBtn_disabled (SimpleSocket.run w es) = true.
Proof.
  intros w es.
  assert (H1 : SimpleSocket.downloadBtn_disabled w = true) by (vm_compute; reflexivity).
  assert (H2 : Forall (fun e => simple_enabling_event e = false) es)
    by (repeat constructor).
  split; [now split|].
  exact (simple_control_waits w es H1 H2).
Defined.

(** ** Start commands, click by click *)

Lemma started_app (mk : jsstring -> json) (l1 l2 : list WebSocket) :
  started mk (l1 ++ l2) = started mk l1 ++ started mk l2.
Proof. unfold started. now rewrite fmap_app, concat_app. Qed.

Lemma started_one (mk : jsstring -> json) (s : WebSocket) :
  started mk [s] = pending_frames mk s.
Proof. unfold started. cbn. apply app_nil_r. Qed.

Lemma started_insert (mk : jsstring -> json) (i : nat) (s s' : WebSocket)
    (l : list WebSocket) :
  l !! i = Some s ->
  pending_frames mk s' = pending_frames mk s ->
  started mk (<[i := s']> l) = started mk l.
Proof.
  intros Hs Heq. unfold started. rewrite list_fmap_insert, Heq.
  rewrite list_insert_id; [reflexivity|]. now rewrite list_lookup_fmap, Hs.
Qed.

Lemma started_alter (mk : jsstring -> json) (f : WebSocket -> WebSocket) (i : nat)
    (l : list WebSocket) :
  (forall s, pending_frames mk (f s) `sublist_of` pending_frames mk s) ->
  started mk (alter f i l) `sublist_of` started mk l.
Proof.
  intros Hf. revert i. induction l as [|a l IH]; intros i; [reflexivity|].
  destruct i as [|i].
  - change (alter f 0 (a :: l)) with (f a :: l).
    change (started mk (f a :: l)) with (pending_frames mk (f a) ++ started mk l).
    change (started mk (a :: l)) with (pending_frames mk a ++ started mk l).
    apply sublist_app; [apply Hf|reflexivity].
  - change (alter f (S i) (a :: l)) with (a :: alter f i l).
    change (started mk (a :: alter f i l))
      with (pending_frames mk a ++ started mk (alter f i l)).
    change (started mk (a :: l)) with (pending_frames mk a ++ started mk l).
    apply sublist_app; [reflexivity|apply IH].
Qed.

Lemma all_sent_started (mk : jsstring -> json) (l : list WebSocket) :
  all_sent l `sublist_of` started mk l.
Proof.
  unfold all_sent. induction l as [|s l IH]; [reflexivity|].
  change (started mk (s :: l)) with (pending_frames mk s ++ started mk l).
  cbn [map concat]. apply sublist_app; [|exact IH].
  unfold pending_frames. apply sublist_inserts_r. reflexivity.
Qed.

Lemma all_sent_app (l1 l2 : list WebSocket) :
  all_sent (l1 ++ l2) = all_sent l1 ++ all_sent l2.
Proof. unfold all_sent. now rewrite map_app, concat_app. Qed.

(** The socket at the last index, taken apart. *)
Lemma last_socket (l : list WebSocket) (s : WebSocket) :
  l !! pred (length l) = Some s ->
  exists l0, l = l0 ++ [s] /\ pred (length l) = length l0.
Proof.
  intros Hs. destruct l as [|a l] using rev_ind; [discriminate|]. clear IHl.
  rewrite length_app in Hs |- *. cbn [length] in Hs |- *.
  replace (pred (length l + 1)) with (length l + 0) in Hs |- * by lia.
  rewrite lookup_app_r in Hs by lia.
  replace (length l + 0 - length l) with 0 in Hs by lia.
  injection Hs as ->. exists l. split; [reflexivity|lia].
Qed.

Lemma insert_last (l0 : list WebSocket) (s s' : WebSocket) :
  <[length l0 := s']> (l0 ++ [s]) = l0 ++ [s'].
Proof.
  replace (length l0) with (length l0 + 0) by lia. now rewrite insert_app_r.
Qed.

Section StartCommands.
Context `{Platform}.

(** What a click with an identifier does to the sockets, exactly. *)
Lemma docs_click_exact (w : DocsApp.World) :
  let id := trim (DocsApp.watchIdInput w) in
  let w' := DocsApp.downloadButton_click w in
  id <> [] ->
  (exists i s,
     DocsApp.socket w = Some i /\ DocsApp.sockets w !! i = Some s
     /\ readyState s = OPEN
     /\ DocsApp.sockets w'
        = <[i := push_sent (DocsApp.download_frame id) (push_once_open id s)]>
            (DocsApp.sockets w))
  \/ (is_open (DocsApp.sockets w) (DocsApp.socket w) = false
      /\ ((exists url,
             DocsApp.sockets w'
             = DocsApp.sockets w ++ [push_once_open id (new_WebSocket url)])
          \/ DocsApp.sockets w' = DocsApp.sockets w)).
Proof.
  intros id w' Hid.
  destruct (is_open (DocsApp.sockets w) (DocsApp.socket w)) eqn:Ho.
  - left. destruct (is_open_inv _ _ Ho) as (i & s & Hi & Hs & Hr).
    exists i, s. repeat split; try assumption.
    exact (proj2 (docs_click_open w i s Hi Hs Hr Hid)).
  - right. split; [reflexivity|]. subst w'. unfold DocsApp.downloadButton_click.
    rewrite sanitizeWatchId_trim. fold id.
    destruct (str_truthy id) eqn:Et; [|apply str_truthy_false in Et; contradiction].
    cbn [negb]. unfold DocsApp.connectSocket. docs_simpl. rewrite Ho.
    match goal with |- context [DocsApp.normalizeSocketUrl ?v ?w0] =>
      pose proof (docs_normalizeSocketUrl_keeps v w0) as (N1 & _);
      destruct (DocsApp.normalizeSocketUrl v w0) as [url w1] end.
    cbn [snd] in N1. docs_simpl.
    destruct (websocket_accepts url); docs_simpl; [|right; exact N1].
    left. exists url. rewrite N1.
    assert (Ha : alter (push_once_open id) (length (DocsApp.sockets w))
                   (DocsApp.sockets w ++ [new_WebSocket url])
                 = DocsApp.sockets w ++ [push_once_open id (new_WebSocket url)]).
    { rewrite (alter_as_insert _ _ _ (new_WebSocket url)).
      - apply insert_last.
      - now rewrite list_lookup_middle. }
    rewrite Ha.
    assert (Hc : is_open (DocsApp.sockets w ++ [push_once_open id (new_WebSocket url)])
                   (Some (length (DocsApp.sockets w))) = false).
    { unfold is_open. now rewrite list_lookup_middle. }
    rewrite Hc. reflexivity.
Qed.

(** The open listeners of a socket send what the clicks queued on it, in
    their order. *)
Lemma docs_send_all_exact (i : nat) (ids : list jsstring) (w : DocsApp.World)
    (s : WebSocket) :
  DocsApp.sockets w !! i = Some s ->
  readyState s = OPEN ->
  DocsApp.sockets (foldl (fun w' watchId => DocsApp.send_request i watchId w') w ids)
  = <[i := {| ws_url := ws_url s; readyState := OPEN;
              ws_sent := ws_sent s ++ (DocsApp.download_frame <$> ids);
              ws_once_open := ws_once_open s |}]> (DocsApp.sockets w).
Proof.
  revert w s. induction ids as [|id ids IH]; intros w s Hs Hr.
  - cbn [foldl fmap list_fmap]. rewrite app_nil_r. symmetry. apply list_insert_id.
    rewrite Hs. f_equal. destruct s. cbn in Hr |- *. now subst.
  - cbn [foldl].
    assert (Hsend : DocsApp.sockets (DocsApp.send_request i id w)
                    = <[i := push_sent (DocsApp.download_frame id) s]> (DocsApp.sockets w)).
    { unfold DocsApp.send_request, ws_send. rewrite Hs, Hr. reflexivity. }
    rewrite (IH (DocsApp.send_request i id w) (push_sent (DocsApp.download_frame id) s)).
    + rewrite Hsend, list_insert_insert_eq. f_equal.
      unfold push_sent. cbn [ws_url ws_sent ws_once_open fmap list_fmap].
      now rewrite <- app_assoc.
    + rewrite Hsend. apply list_lookup_insert_eq. now apply lookup_lt_Some in Hs.
    + exact Hr.
Qed.

Lemma docs_on_open_exact (i : nat) (s : WebSocket) (w : DocsApp.World) :
  DocsApp.sockets w !! i = Some s ->
  DocsApp.sockets (DocsApp.on_open i w)
  = <[i := {| ws_url := ws_url s; readyState := OPEN;
              ws_sent := ws_sent s ++ (DocsApp.download_frame <$> ws_once_open s);
              ws_once_open := [] |}]> (DocsApp.sockets w).
Proof.
  intros Hs. unfold DocsApp.on_open. rewrite Hs.
  rewrite (docs_send_all_exact i (ws_once_open s) _
             (clear_once_open (set_readyState OPEN s))).
  - docs_simpl. now rewrite list_insert_insert_eq.
  - docs_simpl. apply list_lookup_insert_eq. now apply lookup_lt_Some in Hs.
  - reflexivity.
Qed.

Lemma docs_step_latest (w : DocsApp.World) (e : DocsApp.Event) :
  docs_latest w -> docs_latest (DocsApp.step w e).
Proof.
  intros Hw.
  assert (Hsame : forall w',
            length (docs_states w') = length (docs_states w) ->
            DocsApp.socket w' = DocsApp.socket w -> docs_latest w').
  { intros w' Hl Hc. unfold docs_latest, docs_states in *. rewrite !length_fmap in Hl.
    destruct Hw as [Hnil | Hlast].
    - left. rewrite Hnil in Hl. now destruct (DocsApp.sockets w').
    - right. now rewrite Hc, Hl. }
  destruct e as [v|v| |i|i data|i|i]; cbn [DocsApp.step].
  - now apply Hsame.
  - destruct (DocsApp.backendAddressInput w); [|exact Hw].
    unfold DocsApp.backendAddress_change. docs_simpl.
    destruct (str_truthy (trim v)); now apply Hsame.
  - destruct (DocsApp.downloadButton_disabled w); [exact Hw|].
    destruct (docs_click_cases w) as (_ & [(C1 & C2 & _) | (_ & Hc)]).
    { apply Hsame; [unfold docs_states; now rewrite C1|exact C2]. }
    destruct Hc as [(_ & C2 & C3 & _) | [(_ & C2 & s & C3 & _) | (C1 & C2)]].
    + apply Hsame; [now rewrite C3|exact C2].
    + right. rewrite C2, C3, length_app. cbn [length]. f_equal. lia.
    + apply Hsame; [unfold docs_states; now rewrite C1|exact C2].
  - case_decide as Hst; [|exact Hw].
    unfold DocsApp.socket_state in Hst.
    destruct (DocsApp.sockets w !! i) as [s|] eqn:Hs; [|discriminate].
    injection Hst as Hr.
    destruct (docs_on_open_cases i s w Hs Hr) as (K1 & _ & _ & K4 & _).
    cbn zeta in K1, K4. apply Hsame; [|exact K1]. now rewrite K4, length_insert.
  - case_decide; [|exact Hw].
    destruct (docs_on_message_sockets data w) as (M1 & M2 & _).
    apply Hsame; [unfold docs_states; now rewrite M1|exact M2].
  - destruct (DocsApp.socket_state w i) as [[]|]; try exact Hw; now apply Hsame.
  - assert (Hclose : docs_latest (DocsApp.on_close i w)).
    { apply Hsame; [|reflexivity]. unfold DocsApp.on_close, docs_states. docs_simpl.
      now rewrite !length_fmap, length_alter. }
    destruct (DocsApp.socket_state w i) as [[]|]; first [exact Hw|exact Hclose].
Qed.

(** A step adds to the commands sent or queued at most the one the event
    made the page read, at their end. *)
Lemma docs_step_started (w : DocsApp.World) (e : DocsApp.Event) :
  docs_latest w ->
  started DocsApp.download_frame (DocsApp.sockets (DocsApp.step w e))
  `sublist_of`
  started DocsApp.download_frame (DocsApp.sockets w)
    ++ (DocsApp.download_frame <$> docs_read w e).
Proof.
  intros Hlast.
  assert (Hkeep : forall l (r : list json),
            l `sublist_of` started DocsApp.download_frame (DocsApp.sockets w) ->
            l `sublist_of` started DocsApp.download_frame (DocsApp.sockets w) ++ r).
  { intros l r Hl. now apply sublist_inserts_r. }
  destruct e as [v|v| |i|i data|i|i]; cbn [DocsApp.step docs_read].
  - now apply Hkeep.
  - apply Hkeep. destruct (DocsApp.backendAddressInput w); [|reflexivity].
    unfold DocsApp.backendAddress_change. docs_simpl.
    now destruct (str_truthy (trim v)).
  - destruct (DocsApp.downloadButton_disabled w); [now apply Hkeep|].
    destruct (str_truthy (trim (DocsApp.watchIdInput w))) eqn:Et.
    2:{ apply Hkeep. unfold DocsApp.downloadButton_click.
        rewrite sanitizeWatchId_trim, Et. reflexivity. }
    apply str_truthy_true in Et.
    destruct (docs_click_exact w Et) as [(i & s & Hi & Hs & Hr & ->) | (_ & [(url & ->) | ->])].
    + destruct Hlast as [Hnil | Hlast]; [rewrite Hnil in Hs; discriminate|].
      rewrite Hi in Hlast. injection Hlast as ->.
      destruct (last_socket _ s Hs) as (l0 & Hl & Hlen). rewrite Hlen, Hl, insert_last.
      rewrite !started_app, !started_one, <- app_assoc.
      apply sublist_app; [reflexivity|].
      unfold pending_frames, push_sent, push_once_open.
      cbn [ws_sent readyState ws_once_open]. rewrite Hr.
      rewrite bool_decide_eq_false_2 by discriminate. rewrite !app_nil_r. reflexivity.
    + rewrite started_app, started_one. reflexivity.
    + now apply Hkeep.
  - apply Hkeep. case_decide as Hst; [|reflexivity].
    unfold DocsApp.socket_state in Hst.
    destruct (DocsApp.sockets w !! i) as [s|] eqn:Hs; [|discriminate].
    injection Hst as Hr. rewrite (docs_on_open_exact i s w Hs).
    rewrite (started_insert _ i s); [reflexivity|exact Hs|].
    unfold pending_frames. cbn [ws_sent readyState ws_once_open]. rewrite Hr.
    rewrite bool_decide_eq_false_2 by discriminate.
    rewrite bool_decide_eq_true_2 by reflexivity. now rewrite app_nil_r.
  - apply Hkeep. case_decide; [|reflexivity].
    destruct (docs_on_message_sockets data w) as (-> & _). reflexivity.
  - apply Hkeep. now destruct (DocsApp.socket_state w i) as [[]|].
  - apply Hkeep.
    assert (Hclose : started DocsApp.download_frame
                       (DocsApp.sockets (DocsApp.on_close i w))
                     `sublist_of` started DocsApp.download_frame (DocsApp.sockets w)).
    { unfold DocsApp.on_close. docs_simpl. apply started_alter. intros s.
      unfold pending_frames. cbn [set_readyState ws_sent readyState ws_once_open].
      rewrite bool_decide_eq_false_2 by discriminate.
      apply sublist_app; [reflexivity|apply sublist_nil_l]. }
    destruct (DocsApp.socket_state w i) as [[]|]; first [reflexivity|exact Hclose].
Qed.

Lemma docs_run_started (es : list DocsApp.Event) (w : DocsApp.World) :
  docs_latest w ->
  started DocsApp.download_frame (DocsApp.sockets (DocsApp.run w es))
  `sublist_of`
  started DocsApp.download_frame (DocsApp.sockets w)
    ++ (DocsApp.download_frame <$> docs_requests w es).
Proof.
  revert w. induction es as [|e es IH]; intros w Hw.
  - cbn. now rewrite app_nil_r.
  - cbn [DocsApp.run foldl docs_requests]. fold (DocsApp.run (DocsApp.step w e) es).
    etransitivity; [apply IH, docs_step_latest, Hw|].
    rewrite fmap_app, app_assoc. apply sublist_app; [|reflexivity].
    now apply docs_step_started.
Qed.

Lemma docs_run_latest (es : list DocsApp.Event) (w : DocsApp.World) :
  docs_latest w -> docs_latest (DocsApp.run w es).
Proof.
  revert w. induction es as [|e es IH]; intros w Hw; [exact Hw|].
  cbn [DocsApp.run foldl]. apply IH, docs_step_latest, Hw.
Qed.

End StartCommands.

(** *** The minimal client *)

Lemma simple_click_exact (w : SimpleSocket.World) :
  let id := trim (SimpleSocket.videoIdInput w) in
  let w' := SimpleSocket.downloadBtn_click w in
  id <> [] ->
  (exists i s,
     SimpleSocket.socket w = Some i /\ SimpleSocket.sockets w !! i = Some s
     /\ readyState s = OPEN
     /\ SimpleSocket.sockets w'
        = <[i := push_sent (SimpleSocket.download_frame id) s]> (SimpleSocket.sockets w))
  \/ (is_open (SimpleSocket.sockets w) (SimpleSocket.socket w) = false
      /\ SimpleSocket.sockets w'
         = SimpleSocket.sockets w
             ++ [push_once_open id (new_WebSocket SimpleSocket.socket_url)]).
Proof.
  intros id w' Hid.
  destruct (is_open (SimpleSocket.sockets w) (SimpleSocket.socket w)) eqn:Ho.
  - left. destruct (is_open_inv _ _ Ho) as (i & s & Hi & Hs & Hr).
    exists i, s. repeat split; try assumption.
    exact (proj2 (simple_click_open w i s Hi Hs Hr Hid)).
  - right. split; [reflexivity|]. subst w'. unfold SimpleSocket.downloadBtn_click.
    fold id. destruct (str_truthy id) eqn:Et; [|apply str_truthy_false in Et; contradiction].
    cbn [negb]. unfold SimpleSocket.connectSocket. simple_simpl. rewrite Ho. simple_simpl.
    assert (Hc : is_open (SimpleSocket.sockets w ++ [new_WebSocket SimpleSocket.socket_url])
                   (Some (length (SimpleSocket.sockets w))) = false).
    { unfold is_open. now rewrite list_lookup_middle. }
    rewrite Hc. cbn [negb]. simple_simpl.
    rewrite (alter_as_insert _ _ _ (new_WebSocket SimpleSocket.socket_url)).
    + apply insert_last.
    + now rewrite list_lookup_middle.
Qed.

Lemma simple_fire_all_exact (i : nat) (ids : list jsstring) (w : SimpleSocket.World)
    (s : WebSocket) :
  SimpleSocket.socket w = Some i ->
  SimpleSocket.sockets w !! i = Some s ->
  readyState s = OPEN ->
  SimpleSocket.sockets (foldl SimpleSocket.fire_once_open w ids)
  = <[i := {| ws_url := ws_url s; readyState := OPEN;
              ws_sent := ws_sent s ++ (SimpleSocket.download_frame <$> ids);
              ws_once_open := ws_once_open s |}]> (SimpleSocket.sockets w).
Proof.
  revert w s. induction ids as [|id ids IH]; intros w s Hc Hs Hr.
  - cbn [foldl fmap list_fmap]. rewrite app_nil_r. symmetry. apply list_insert_id.
    rewrite Hs. f_equal. destruct s. cbn in Hr |- *. now subst.
  - cbn [foldl].
    assert (Hfire : SimpleSocket.fire_once_open w id
                    = SimpleSocket.set_sockets
                        (<[i := push_sent (SimpleSocket.download_frame id) s]>
                           (SimpleSocket.sockets w)) w).
    { unfold SimpleSocket.fire_once_open, SimpleSocket.send_on_current, ws_send.
      now rewrite Hc, Hs, Hr. }
    rewrite Hfire.
    rewrite (IH _ (push_sent (SimpleSocket.download_frame id) s)).
    + simple_simpl. rewrite list_insert_insert_eq. f_equal.
      unfold push_sent. cbn [ws_url ws_sent ws_once_open fmap list_fmap].
      now rewrite <- app_assoc.
    + exact Hc.
    + simple_simpl. apply list_lookup_insert_eq. now apply lookup_lt_Some in Hs.
    + exact Hr.
Qed.

Lemma simple_on_open_exact (i : nat) (s : WebSocket) (w : SimpleSocket.World) :
  SimpleSocket.socket w = Some i ->
  SimpleSocket.sockets w !! i = Some s ->
  SimpleSocket.sockets (SimpleSocket.on_open i w)
  = <[i := {| ws_url := ws_url s; readyState := OPEN;
              ws_sent := ws_sent s ++ (SimpleSocket.download_frame <$> ws_once_open s);
              ws_once_open := [] |}]> (SimpleSocket.sockets w).
Proof.
  intros Hc Hs. unfold SimpleSocket.on_open. rewrite Hs.
  rewrite (simple_fire_all_exact i (ws_once_open s) _
             (clear_once_open (set_readyState OPEN s))).
  - simple_simpl. now rewrite list_insert_insert_eq.
  - exact Hc.
  - simple_simpl. apply list_lookup_insert_eq. now apply lookup_lt_Some in Hs.
  - reflexivity.
Qed.

Lemma simple_step_latest (w : SimpleSocket.World) (e : SimpleSocket.Event) :
  simple_latest w -> simple_latest (SimpleSocket.step w e).
Proof.
  intros Hw.
  assert (Hsame : forall w',
            length (simple_states w') = length (simple_states w) ->
            SimpleSocket.socket w' = SimpleSocket.socket w -> simple_latest w').
  { intros w' Hl Hc. unfold simple_latest, simple_states in *. rewrite !length_fmap in Hl.
    destruct Hw as [Hnil | Hlast].
    - left. rewrite Hnil in Hl. now destruct (SimpleSocket.sockets w').
    - right. now rewrite Hc, Hl. }
  destruct e as [v| |i|i data|i]; cbn [SimpleSocket.step].
  - now apply Hsame.
  - destruct (SimpleSocket.downloadBtn_disabled w); [exact Hw|].
    destruct (simple_click_cases w) as [(C1 & C2 & _) | (_ & Hc)].
    { apply Hsame; [unfold simple_states; now rewrite C1|exact C2]. }
    destruct Hc as [(_ & C2 & C3 & _) | (_ & C2 & s & C3 & _)].
    + apply Hsame; [now rewrite C3|exact C2].
    + right. rewrite C2, C3, length_app. cbn [length]. f_equal. lia.
  - case_decide as Hst; [|exact Hw].
    unfold SimpleSocket.socket_state in Hst.
    destruct (SimpleSocket.sockets w !! i) as [s|] eqn:Hs; [|discriminate].
    injection Hst as Hr.
    destruct (simple_on_open_cases i s w Hs Hr) as (K1 & _ & K4 & _).
    cbn zeta in K1, K4. apply Hsame; [|exact K1]. now rewrite K4, length_insert.
  - case_decide; [|exact Hw].
    destruct (simple_on_message_sockets data w) as (M1 & M2 & _).
    apply Hsame; [unfold simple_states; now rewrite M1|exact M2].
  - assert (Hclose : simple_latest (SimpleSocket.on_close i w)).
    { apply Hsame; [|reflexivity]. unfold SimpleSocket.on_close, simple_states.
      simple_simpl. now rewrite !length_fmap, length_alter. }
    destruct (SimpleSocket.socket_state w i) as [[]|]; first [exact Hw|exact Hclose].
Qed.

Lemma simple_step_started (w : SimpleSocket.World) (e : SimpleSocket.Event) :
  simple_wired w ->
  simple_latest w ->
  started SimpleSocket.download_frame (SimpleSocket.sockets (SimpleSocket.step w e))
  `sublist_of`
  started SimpleSocket.download_frame (SimpleSocket.sockets w)
    ++ (SimpleSocket.download_frame <$> simple_read w e).
Proof.
  intros [W1 _] Hlast.
  assert (Hkeep : forall l (r : list json),
            l `sublist_of` started SimpleSocket.download_frame (SimpleSocket.sockets w) ->
            l `sublist_of`
              started SimpleSocket.download_frame (SimpleSocket.sockets w) ++ r).
  { intros l r Hl. now apply sublist_inserts_r. }
  destruct e as [v| |i|i data|i]; cbn [SimpleSocket.step simple_read].
  - now apply Hkeep.
  - destruct (SimpleSocket.downloadBtn_disabled w); [now apply Hkeep|].
    destruct (str_truthy (trim (SimpleSocket.videoIdInput w))) eqn:Et.
    2:{ apply Hkeep. unfold SimpleSocket.downloadBtn_click. rewrite Et. reflexivity. }
    apply str_truthy_true in Et.
    destruct (simple_click_exact w Et) as [(i & s & Hi & Hs & Hr & ->) | (_ & ->)].
    + destruct Hlast as [Hnil | Hlast]; [rewrite Hnil in Hs; discriminate|].
      rewrite Hi in Hlast. injection Hlast as ->.
      destruct (last_socket _ s Hs) as (l0 & Hl & Hlen). rewrite Hlen, Hl, insert_last.
      rewrite !started_app, !started_one, <- app_assoc.
      apply sublist_app; [reflexivity|].
      unfold pending_frames, push_sent.
      cbn [ws_sent readyState ws_once_open]. rewrite Hr.
      rewrite bool_decide_eq_false_2 by discriminate. rewrite !app_nil_r. reflexivity.
    + rewrite started_app, started_one. reflexivity.
  - apply Hkeep. case_decide as Hst; [|reflexivity].
    assert (Hcur : SimpleSocket.socket w = Some i).
    { apply (W1 i CONNECTING); [|now left].
      unfold simple_states. rewrite list_lookup_fmap. exact Hst. }
    unfold SimpleSocket.socket_state in Hst.
    destruct (SimpleSocket.sockets w !! i) as [s|] eqn:Hs; [|discriminate].
    injection Hst as Hr. rewrite (simple_on_open_exact i s w Hcur Hs).
    rewrite (started_insert _ i s); [reflexivity|exact Hs|].
    unfold pending_frames. cbn [ws_sent readyState ws_once_open]. rewrite Hr.
    rewrite bool_decide_eq_false_2 by discriminate.
    rewrite bool_decide_eq_true_2 by reflexivity. now rewrite app_nil_r.
  - apply Hkeep. case_decide; [|reflexivity].
    destruct (simple_on_message_sockets data w) as (-> & _). reflexivity.
  - apply Hkeep.
    assert (Hclose : started SimpleSocket.download_frame
                       (SimpleSocket.sockets (SimpleSocket.on_close i w))
                     `sublist_of`
                     started SimpleSocket.download_frame (SimpleSocket.sockets w)).
    { unfold SimpleSocket.on_close. simple_simpl. apply started_alter. intros s.
      unfold pending_frames. cbn [set_readyState ws_sent readyState ws_once_open].
      rewrite bool_decide_eq_false_2 by discriminate.
      apply sublist_app; [reflexivity|apply sublist_nil_l]. }
    destruct (SimpleSocket.socket_state w i) as [[]|]; first [reflexivity|exact Hclose].
Qed.

Lemma simple_run_started (es : list SimpleSocket.Event) (w : SimpleSocket.World) :
  simple_wired w ->
  simple_latest w ->
  started SimpleSocket.download_frame (SimpleSocket.sockets (SimpleSocket.run w es))
  `sublist_of`
  started SimpleSocket.download_frame (SimpleSocket.sockets w)
    ++ (SimpleSocket.download_frame <$> simple_requests w es).
Proof.
  revert w. induction es as [|e es IH]; intros w Hw Hl.
  - cbn. now rewrite app_nil_r.
  - cbn [SimpleSocket.run foldl simple_requests].
    fold (SimpleSocket.run (SimpleSocket.step w e) es).
    etransitivity; [apply IH; [now apply simple_step_wired|now apply simple_step_latest]|].
    rewrite fmap_app, app_assoc. apply sublist_app; [|reflexivity].
    now apply simple_step_started.
Qed.

Lemma simple_run_latest (es : list SimpleSocket.Event) (w : SimpleSocket.World) :
  simple_latest w -> simple_latest (SimpleSocket.run w es).
Proof.
  revert w. induction es as [|e es IH]; intros w Hw; [exact Hw|].
  cbn [SimpleSocket.run foldl]. apply IH, simple_step_latest, Hw.
Qed.

(** A click on a page whose latest socket is open sends its command at
    once, after everything sent before. *)
Lemma sent_on_latest (l : list WebSocket) (s : WebSocket) (frame : json)
    (extra : WebSocket -> WebSocket) :
  l !! pred (length l) = Some s ->
  (forall x, ws_sent (extra x) = ws_sent x) ->
  all_sent (<[pred (length l) := push_sent frame (extra s)]> l) = all_sent l ++ [frame].
Proof.
  intros Hs Hextra. destruct (last_socket l s Hs) as (l0 & Hl & Hlen).
  rewrite Hlen, Hl, insert_last, !all_sent_app. unfold all_sent.
  cbn [map concat push_sent ws_sent]. rewrite Hextra, !app_nil_r, app_assoc. reflexivity.
Qed.

(** C5, as the code has it. In every session that starts without sockets,
    each frame the client of docs/app.js sends is
    [{action: "download", watch_id: id}] and each frame the minimal client
    sends is [{type: "download", id: id}], where [id] is the trimmed,
    non-empty input its click read: the frames sent, in their order, are
    the frames of clicks of the session, each click counted once and in the
    order of the clicks, and a click on a page whose socket is open sends
    the frame of the input it reads at once. *)
Theorem start_command_frames `{Platform}
    (w0 : DocsApp.World) (es : list DocsApp.Event)
    (w0' : SimpleSocket.World) (es' : list SimpleSocket.Event) :
  DocsApp.sockets w0 = [] ->
  SimpleSocket.sockets w0' = [] ->
  let page := DocsApp.run w0 es in
  let page' := SimpleSocket.run w0' es' in
  let mk id := JObj [(lit "action", JStr (lit "download")); (lit "watch_id", JStr id)] in
  let mk' id := JObj [(lit "type", JStr (lit "download")); (lit "id", JStr id)] in
  (Forall (fun f => exists id, trimmed_of (docs_typed w0 es) id /\ f = mk id)
     (all_sent (DocsApp.sockets page))
   /\ all_sent (DocsApp.sockets page) `sublist_of` (mk <$> docs_requests w0 es)
   /\ (DocsApp.downloadButton_disabled page = false ->
       trim (DocsApp.watchIdInput page) <> [] ->
       is_open (DocsApp.sockets page) (DocsApp.socket page) = true ->
       all_sent (DocsApp.sockets (DocsApp.step page DocsApp.Click))
       = all_sent (DocsApp.sockets page) ++ [mk (trim (DocsApp.watchIdInput page))]))
  /\ (Forall (fun f => exists id, trimmed_of (simple_typed w0' es') id /\ f = mk' id)
        (all_sent (SimpleSocket.sockets page'))
      /\ all_sent (SimpleSocket.sockets page') `sublist_of` (mk' <$> simple_requests w0' es')
      /\ (SimpleSocket.downloadBtn_disabled page' = false ->
          trim (SimpleSocket.videoIdInput page') <> [] ->
          is_open (SimpleSocket.sockets page') (SimpleSocket.socket page') = true ->
          all_sent (SimpleSocket.sockets (SimpleSocket.step page' SimpleSocket.Click))
          = all_sent (SimpleSocket.sockets page')
              ++ [mk' (trim (SimpleSocket.videoIdInput page'))])).
Proof.
  intros Hd Hs page page' mk mk'. subst page page'.
  change mk with DocsApp.download_frame. change mk' with SimpleSocket.download_frame.
  clear mk mk'. split; [split; [|split]|split; [|split]].
  - exact (frames_ok_all_sent _ _ _ (proj2 (docs_run_ok w0 es Hd))).
  - etransitivity; [apply (all_sent_started DocsApp.download_frame)|].
    etransitivity; [apply docs_run_started; now left|].
    rewrite Hd. reflexivity.
  - intros Hen Hid Ho. cbn [DocsApp.step]. rewrite Hen.
    assert (Hlast : docs_latest (DocsApp.run w0 es)) by (apply docs_run_latest; now left).
    destruct (is_open_inv _ _ Ho) as (i & s & Hi & Hsock & Hr).
    rewrite (proj2 (docs_click_open _ i s Hi Hsock Hr Hid)).
    destruct Hlast as [Hnil | Hlast]; [rewrite Hnil in Hsock; discriminate|].
    rewrite Hi in Hlast. injection Hlast as ->.
    now apply sent_on_latest.
  - exact (frames_ok_all_sent _ _ _ (proj2 (simple_run_ok w0' es' Hs))).
  - assert (Hw : simple_wired w0').
    { unfold simple_wired, simple_states. rewrite Hs.
      split; [|intros _]; intros j; discriminate. }
    etransitivity; [apply (all_sent_started SimpleSocket.download_frame)|].
    etransitivity; [apply simple_run_started; [exact Hw|now left]|].
    rewrite Hs. reflexivity.
  - intros Hen Hid Ho. cbn [SimpleSocket.step]. rewrite Hen.
    assert (Hlast : simple_latest (SimpleSocket.run w0' es'))
      by (apply simple_run_latest; now left).
    destruct (is_open_inv _ _ Ho) as (i & s & Hi & Hsock & Hr).
    rewrite (proj2 (simple_click_open _ i s Hi Hsock Hr Hid)).
    destruct Hlast as [Hnil | Hlast]; [rewrite Hnil in Hsock; discriminate|].
    rewrite Hi in Hlast. injection Hlast as ->.
    exact (sent_on_latest _ s _ (fun x => x) Hsock (fun x => eq_refl)).
Qed.

Lemma start_command_frames_witness :
  let es := [DocsApp.UserTypesWatchId (lit " dQw4w9WgXcQ "); DocsApp.Click;
             DocsApp.SockOpen 0;
             DocsApp.SockMessage 0 (Some (JObj [(lit "type", JStr (lit "error"))]));
             DocsApp.UserTypesWatchId (lit "jNQXAC9IVRw")] in
  let es' := [SimpleSocket.UserTypesVideoId (lit " dQw4w9WgXcQ "); SimpleSocket.Click;
              SimpleSocket.SockOpen 0] in
  let page := DocsApp.run (H := SampleBrowser.browser) DocsApp.blank es in
  (DocsApp.sockets DocsApp.blank = [] /\ SimpleSocket.sockets SimpleSocket.initial = [])
  /\ all_sent (DocsApp.sockets page)
     = [JObj [(lit "action", JStr (lit "download"));
              (lit "watch_id", JStr (lit "dQw4w9WgXcQ"))]]
  /\ all_sent (DocsApp.sockets (DocsApp.step (H := SampleBrowser.browser) page DocsApp.Click))
     = all_sent (DocsApp.sockets page)
         ++ [JObj [(lit "action", JStr (lit "download"));
                   (lit "watch_id", JStr (lit "jNQXAC9IVRw"))]]
  /\ all_sent (SimpleSocket.sockets (SimpleSocket.run SimpleSocket.initial es'))
     `sublist_of`
     [JObj [(lit "type", JStr (lit "download")); (lit "id", JStr (lit "dQw4w9WgXcQ"))]].
Proof.
  intros es es' page. split; [split; reflexivity|]. split; [vm_compute; reflexivity|].
  destruct (start_command_frames (H := SampleBrowser.browser)
              DocsApp.blank es SimpleSocket.initial es' eq_refl eq_refl)
    as ((_ & _ & Hclick) & (_ & Hsub & _)).
  split.
  - apply Hclick; [vm_compute; reflexivity|vm_compute; discriminate|vm_compute; reflexivity].
  - exact Hsub.
Defined.

(** ** A result frame without text, in the minimal client *)

(** When a frame of type "result" carries a [text] that is no string, the
    message listener of the minimal client throws in [setPreview]: it has
    stored the value and shown the language, and it leaves the previews,
    the copy control, the status, the log and the request control as they
    were, so the request control stays disabled. *)
Theorem result_without_text (payload : json) (w : SimpleSocket.World) :
  get_prop payload (lit "type") = Some (J (JStr (lit "result"))) ->
  (forall t, SimpleSocket.prop payload (lit "text") <> J (JStr t)) ->
  let w' := SimpleSocket.on_message (Some payload) w in
  SimpleSocket.fullSubtitle w' = SimpleSocket.prop payload (lit "text")
  /\ SimpleSocket.languageEl w'
     = to_string (val_or (SimpleSocket.prop payload (lit "language"))
                    (J (JStr (lit "unknown"))))
  /\ SimpleSocket.subtitleStart w' = SimpleSocket.subtitleStart w
  /\ SimpleSocket.subtitleEnd w' = SimpleSocket.subtitleEnd w
  /\ SimpleSocket.copyBtn_disabled w' = SimpleSocket.copyBtn_disabled w
  /\ SimpleSocket.statusEl w' = SimpleSocket.statusEl w
  /\ SimpleSocket.logArea w' = SimpleSocket.logArea w
  /\ SimpleSocket.downloadBtn_disabled w' = SimpleSocket.downloadBtn_disabled w.
Proof.
  intros Hty Htext w'. subst w'. unfold SimpleSocket.on_message. rewrite Hty.
  change (is_str (lit "log") (J (JStr (lit "result")))) with false.
  change (is_str (lit "error") (J (JStr (lit "result")))) with false.
  change (is_str (lit "result") (J (JStr (lit "result")))) with true.
  cbn zeta. simple_simpl. unfold SimpleSocket.setPreview.
  destruct (SimpleSocket.prop payload (lit "text")) as [|[]] eqn:Hp;
    try (now repeat split).
  now destruct (Htext s).
Qed.

Lemma result_without_text_witness :
  let payload := JObj [(lit "type", JStr (lit "result")); (lit "language", JStr (lit "en"))] in
  let w :=
    SimpleSocket.run SimpleSocket.initial
      [SimpleSocket.UserTypesVideoId (lit "dQw4w9WgXcQ"); SimpleSocket.Click;
       SimpleSocket.SockOpen 0] in
  (get_prop payload (lit "type") = Some (J (JStr (lit "result")))
   /\ SimpleSocket.prop payload (lit "text") = Undefined)
  /\ SimpleSocket.downloadBtn_disabled (SimpleSocket.on_message (Some payload) w) = true.
Proof.
  intros payload w.
  assert (H1 : get_prop payload (lit "type") = Some (J (JStr (lit "result"))))
    by (vm_compute; reflexivity).
  assert (H2 : SimpleSocket.prop payload (lit "text") = Undefined)
    by (vm_compute; reflexivity).
  assert (H3 : forall t, SimpleSocket.prop payload (lit "text") <> J (JStr t))
    by (intros t; rewrite H2; discriminate).
  split; [now split|].
  destruct (result_without_text payload w H1 H3) as (_ & _ & _ & _ & _ & _ & _ & Hd).
  cbn zeta in Hd. rewrite Hd. vm_compute. reflexivity.
Defined.

(** ** Closing the completion dialog *)

(** The dialog a request has opened is closed by the Escape key, by a click
    on its backdrop and by its two buttons alike: it is hidden, loses its
    tone, and keeps title and message. A click inside the dialog and any
    other key leave it open, and a key pressed while it is hidden changes
    nothing. *)
Theorem dialog_dismissed (title message key : jsstring) (tone : ReservationApp.Tone)
    (w : ReservationApp.World) :
  has_dialog w ->
  let shown := ReservationApp.showCompletionModal title message tone w in
  let hidden := Dialog.hideCompletionModal shown in
  ReservationApp.completionModal hidden
  = Some {| ReservationApp.modal_tone := None; ReservationApp.is_visible := false;
            ReservationApp.aria_hidden := true |}
  /\ ReservationApp.modalTitle hidden = Some title
  /\ ReservationApp.modalMessage hidden = Some message
  /\ Dialog.completionModal_click true shown = hidden
  /\ Dialog.completionModal_click false shown = shown
  /\ Dialog.document_keydown key shown
     = (if bool_decide (key = lit "Escape") then hidden else shown)
  /\ Dialog.document_keydown key hidden = hidden.
Proof.
  intros ([m Hm] & [t Ht] & [b Hb]) shown hidden. subst hidden shown.
  unfold Dialog.document_keydown, Dialog.completionModal_click,
    Dialog.hideCompletionModal, ReservationApp.showCompletionModal,
    ReservationApp.setModalState.
  rewrite Hm, Ht, Hb. resv_simpl. rewrite Hm. resv_simpl.
  cbn [ReservationApp.is_visible]. rewrite andb_true_r, andb_false_r.
  repeat split.
Qed.

Lemma dialog_dismissed_witness :
  let w := ReservationApp.load (H := SampleBrowser.browser) ReservationApp.blank in
  has_dialog w
  /\ Dialog.document_keydown (lit "Escape")
       (ReservationApp.showCompletionModal (lit "Download complete") (lit "done")
          ReservationApp.success w)
     = Dialog.hideCompletionModal
         (ReservationApp.showCompletionModal (lit "Download complete") (lit "done")
            ReservationApp.success w).
Proof.
  intros w.
  assert (Hw : has_dialog w) by (repeat split; eexists; reflexivity).
  split; [exact Hw|].
  destruct (dialog_dismissed (lit "Download complete") (lit "done") (lit "Escape")
              ReservationApp.success w Hw) as (_ & _ & _ & _ & _ & Hk & _).
  exact Hk.
Defined.
